(** * dfcpub: list/range batch operations of a DFC target (dfc/listrange.go)

    A shallow embedding of the list/range engine of the DFC target
    runner: range-string parsing, the regex/range acceptance test, the
    HRW ownership filter, the delete/evict and prefetch batch engines with
    their xactions, and the cluster-meta discovery read that the
    discovery test-suite exercises.

    Conventions
    - Go [int64], [time.Time] and [time.Duration] are [Z]; the zero time
      is [0].
    - A Go [string] is a [string] of bytes.
    - A call that can panic or block returns an [outcome].
    - Code that touches the outside of this file (local store, cloud
      back end, clock, HRW placer, regexp engine, HTTP plumbing) goes
      through the [Externals] interface. *)

From Stdlib Require Import ZArith Ascii String Lia.
From stdpp Require Import gmap strings list.

Local Open Scope string_scope.
Local Open Scope Z_scope.
Local Open Scope list_scope.

(** ** Outcomes: return, panic, or wait on a channel forever *)

Inductive panic :=
| IndexOutOfRange (i len : nat)
| NilDereference
| SendOnClosed
| CloseOfClosed
| CloseOfNil
| TypeAssertion.

Inductive outcome (A : Type) :=
| Returned (a : A)
| Panicked (p : panic)
| Blocked.
Arguments Returned {A} a.
Arguments Panicked {A} p.
Arguments Blocked {A}.

Definition obind {A B} (o : outcome A) (k : A -> outcome B) : outcome B :=
  match o with
  | Returned a => k a
  | Panicked p => Panicked p
  | Blocked => Blocked
  end.

(** [xs[i]] with Go's bounds check. *)
Definition index {A} (xs : list A) (i : nat) : outcome A :=
  match xs !! i with
  | Some x => Returned x
  | None => Panicked (IndexOutOfRange i (length xs))
  end.

(** ** The parts of Go's [strings] and [strconv] that the file calls *)

Module strings.

Definition HasPrefix (s prefix : string) : bool := String.prefix prefix s.

Fixpoint drop_bytes (n : nat) (s : string) : string :=
  match n, s with
  | O, _ => s
  | S n', String _ s' => drop_bytes n' s'
  | S _, EmptyString => EmptyString
  end.

(** [TrimPrefix] returns [s] without the leading [prefix]; [s] itself when
    it does not start with [prefix]. *)
Definition TrimPrefix (s prefix : string) : string :=
  if HasPrefix s prefix then drop_bytes (String.length prefix) s else s.

Fixpoint explode (s : string) : list string :=
  match s with
  | EmptyString => []
  | String c s' => String c EmptyString :: explode s'
  end.

(** The scan of [Split] for a non-empty separator: [skip] counts the bytes
    of a separator still to pass over, [cur] is the piece being read. *)
Fixpoint Split_scan (sep : string) (skip : nat) (cur s : string) : list string :=
  match s with
  | EmptyString => [cur]
  | String c s' =>
      match skip with
      | S k => Split_scan sep k cur s'
      | O =>
          if String.prefix sep s
          then cur :: Split_scan sep (String.length sep - 1) EmptyString s'
          else Split_scan sep O (cur +:+ String c EmptyString) s'
      end
  end.

Definition Split (s sep : string) : list string :=
  match sep with
  | EmptyString => explode s
  | _ => Split_scan sep O EmptyString s
  end.

Fixpoint ContainsByte (s : string) (c : ascii) : bool :=
  match s with
  | EmptyString => false
  | String d s' => Ascii.eqb d c || ContainsByte s' c
  end.

End strings.

Module strconv.

Inductive NumError := ErrSyntax | ErrRange.

Definition maxUint64 : Z := 2 ^ 64 - 1.

(** The smallest [n] with [n * 10 > maxUint64]. *)
Definition cutoff10 : Z := maxUint64 / 10 + 1.

Definition byte_val (c : ascii) : Z := Z.of_N (N_of_ascii c).

(** The digit loop of [ParseUint(s, 10, 64)]: a byte that is not a decimal
    digit is a syntax error, an overflow stops the scan at once with the
    largest value and a range error. *)
Fixpoint ParseUint_loop (s : string) (n : Z) : Z * option NumError :=
  match s with
  | EmptyString => (n, None)
  | String c s' =>
      let v := byte_val c in
      if (48 <=? v) && (v <=? 57) then
        let d := v - 48 in
        if cutoff10 <=? n then (maxUint64, Some ErrRange)
        else
          let n10 := n * 10 in
          let n1 := (n10 + d) mod 2 ^ 64 in
          if (n1 <? n10) || (maxUint64 <? n1) then (maxUint64, Some ErrRange)
          else ParseUint_loop s' n1
      else (0, Some ErrSyntax)
  end.

Definition ParseUint (s : string) : Z * option NumError :=
  match s with
  | EmptyString => (0, Some ErrSyntax)
  | _ => ParseUint_loop s 0
  end.

(** [ParseInt(s, 10, 64)]: an optional sign, then [ParseUint]; a value
    that does not fit int64 is clamped and reported as a range error. *)
Definition ParseInt (s : string) : Z * option NumError :=
  match s with
  | EmptyString => (0, Some ErrSyntax)
  | String c s' =>
      let '(neg, digits) :=
        if Ascii.eqb c "+" then (false, s')
        else if Ascii.eqb c "-" then (true, s')
        else (false, s) in
      let '(un, err) := ParseUint digits in
      match err with
      | Some ErrSyntax => (0, Some ErrSyntax)
      | _ =>
          let cutoff := 2 ^ 63 in
          if negb neg && (cutoff <=? un) then (cutoff - 1, Some ErrRange)
          else if neg && (cutoff <? un) then (- cutoff, Some ErrRange)
          else (if neg then - un else un, None)
      end
  end.

End strconv.

(** ** Message parsing: [parseRange] *)

(** [parseRange(rangestr) (min, max int64, err error)].  The three results
    are named, so an early [return] hands back what they hold then. *)
Definition parseRange (rangestr : string)
  : outcome (Z * Z * option strconv.NumError) :=
  if String.eqb rangestr "" then Returned (0, 0, None)
  else
    let ranges := strings.Split rangestr ":" in
    obind (index ranges 0) (fun r0 =>
    let '(min, err) :=
      if String.eqb r0 "" then (0, None) else strconv.ParseInt r0 in
    match err with
    | Some e => Returned (min, 0, Some e)
    | None =>
        obind (index ranges 1) (fun r1 =>
        let '(max, err) :=
          if String.eqb r1 "" then (0, None) else strconv.ParseInt r1 in
        Returned (min, max, err))
    end).

(** ** Data model *)

Record daemonInfo := {
  DaemonID : string;
  NodeIPAddr : string;
  DaemonPort : string
}.

Record Smap := {
  Tmap : gmap string daemonInfo;
  Pmap : gmap string daemonInfo;
  Smap_Version : Z
}.

Record BucketProps := {
  CloudProvider : string;
  NextTierURL : string;
  ReadPolicy : string;
  WritePolicy : string
}.

Record bucketMD := {
  LBmap : gmap string BucketProps;
  CBmap : gmap string BucketProps;
  bucketMD_Version : Z
}.

(** Modelled from the spec: [bucketMD.islocal] is declared outside
    listrange.go; "a bucket is local iff it appears in local_buckets". *)
Definition islocal (m : bucketMD) (bucket : string) : bool :=
  bool_decide (is_Some (LBmap m !! bucket)).

Record BucketEntry := { Name : string }.

Record BucketList := {
  Entries : list BucketEntry;
  PageMarker : string
}.

Record GetMsg := {
  GetPrefix : string;
  GetPageMarker : string
}.

Record RangeListMsgBase := {
  Deadline : Z;
  Wait : bool
}.

Record ListMsg := {
  ListMsg_base : RangeListMsgBase;
  Objnames : list string
}.

Record RangeMsg := {
  RangeMsg_base : RangeListMsgBase;
  Prefix : string;
  Regex : string;
  Range : string
}.

Definition prefetchChanSize : nat := 200.
Definition defaultDeadline : Z := 0.
Definition defaultWait : bool := false.
Definition maxPrefetchPages : nat := 10.

Definition ActPrefetch : string := "prefetch".
Definition ActDelete : string := "delete".
Definition ActEvict : string := "evict".

(** A [chan struct{}] on the heap of channels: the values carry nothing,
    so a buffer is the number of values it holds. *)
Record chan := {
  chan_cap : nat;
  chan_len : nat;
  chan_closed : bool
}.

Record filesWithDeadline := {
  fwd_objnames : list string;
  fwd_bucket : string;
  fwd_deadline : Z;
  fwd_done : option nat
}.

(** The Go errors that listrange.go builds or passes on. *)
Inductive error :=
| ErrListingCloudBucket (bucket : string) (errcode : Z) (errstr : string)
| ErrUnmarshallingBucketList
| ErrCompileRegex
| ErrLocalBucketPrefetch (bucket : string)
| ErrString (errstr : string).

(** [*targetrunner] stored in an xaction: nil, or the one runner of the
    process. *)
Inductive targetrunner_ptr := this_targetrunner.

Record xactBase := {
  id : Z;
  kind : string;
  stime : Z;
  etime : Z
}.

Record xactPrefetch := {
  xpre_base : xactBase;
  xpre_targetrunner : option targetrunner_ptr
}.

Record xactDeleteEvict := {
  xdel_base : xactBase;
  xdel_targetrunner : option targetrunner_ptr
}.

Inductive xaction :=
| XPrefetch (x : xactPrefetch)
| XDeleteEvict (x : xactDeleteEvict).

Definition xaction_base (x : xaction) : xactBase :=
  match x with
  | XPrefetch x => xpre_base x
  | XDeleteEvict x => xdel_base x
  end.

Definition xaction_targetrunner (x : xaction) : option targetrunner_ptr :=
  match x with
  | XPrefetch x => xpre_targetrunner x
  | XDeleteEvict x => xdel_targetrunner x
  end.

Definition IsZero (t : Z) : bool := t =? 0.

(** Modelled from the spec: [xactBase.finished] is declared outside
    listrange.go; an xaction is finished once it has an end time. *)
Definition finished (b : xactBase) : bool := negb (IsZero (etime b)).

(** What [tostring] prints: "xaction kind:id started start", and
    "finished fin" once the xaction has ended. *)
Record xact_string := {
  xs_kind : string;
  xs_id : Z;
  xs_started : Z;
  xs_finished : option Z
}.

Inductive logmsg :=
| LogListOperationError (err : error)
| LogRangeOperationError (err : error)
| LogErrorln (errstr : string)
| LogPrefetchInfo (bucket objname : string)
| LogDidNotPrefetchAllKeys
| LogAlreadyRunning (s : xact_string).

(** What [invalmsghdlr] (or [checkRestAPI]) answers the client with. *)
Inductive invalmsg :=
| MsgInvalidRestAPI
| MsgErrstr (errstr : string)
| MsgErrorParsingRange (rangestr : string) (err : strconv.NumError).

(** What a run does, in the order it does it. *)
Inductive event :=
| EvMake (ch : nat)
| EvSend (ch : nat)
| EvRecv (ch : nat)
| EvClose (ch : nat)
| EvGo
| EvGoExit
| EvXactAdd (id : Z) (kind : string)
| EvXactDel (id : Z)
| EvFildelete (bucket objname : string) (evict : bool) (failed : bool)
| EvDeadlineSkip (objname : string)
| EvPrefetchMissing (bucket objname : string)
| EvEnqueue (fwd : filesWithDeadline)
| EvInvalMsg (m : invalmsg).

(** ** Interfaces to the rest of the daemon *)

(** Go's [regexp]: [FindStringSubmatch] yields nil, or the whole match
    [s[0]] followed by the submatches. *)
Class RegexpEngine := {
  Regexp : Type;
  regexp_Compile : string -> option Regexp;
  FindStringSubmatch : Regexp -> string -> option (string * list string)
}.

(** The HRW placer: the owning target, or nil, and an error string. *)
Class Placer := {
  HrwTarget : string -> string -> Smap -> option daemonInfo * string
}.

Record objectProps := { size : Z }.

(** The local store, the cloud back end, the clock, the abort signals and
    the configuration, all acting on a state [ext] of their own. *)
Class Outside := {
  ext : Type;
  time_Now : ext -> Z * ext;
  abrt_closed : Z -> ext -> bool;
  uniqueid : list xaction -> ext -> Z * ext;
  restAPIItems_checked : string -> option (list string);
  fildelete : string -> string -> bool -> ext -> option error * ext;
  fqn : string -> string -> bool -> string;
  lookupLocally : string -> string -> string -> ext -> (bool * Z * string * string) * ext;
  ValidateWarmGet : ext -> bool;
  versioningConfigured : string -> ext -> bool;
  checkCloudVersion : string -> string -> string -> ext -> (bool * string * Z) * ext;
  coldget : string -> string -> bool -> ext -> (option objectProps * string * Z) * ext;
  glog_V : Z -> ext -> bool;
  listbucket : string -> GetMsg -> ext -> (string * string * Z) * ext;
  json_Unmarshal_BucketList : string -> option BucketList;
  prepareLocalObjectList : string -> GetMsg -> ext -> (BucketList + error) * ext
}.

(** ** The target runner and its state monad *)

Section Runner.
Context `{RegexpEngine} `{Placer} `{Outside}.

Record targetrunner := {
  si : daemonInfo;
  smap : Smap;
  bmdowner : bucketMD;
  starttime : Z;
  xactinp : list xaction;
  prefetchQueue : list filesWithDeadline;
  chans : list chan;
  statsif : gmap string Z;
  glog : list logmsg;
  trace : list event;
  outside : ext
}.

Definition set_xactinp (f : list xaction -> list xaction) (t : targetrunner) :=
  {| si := si t; smap := smap t; bmdowner := bmdowner t; starttime := starttime t;
     xactinp := f (xactinp t); prefetchQueue := prefetchQueue t; chans := chans t;
     statsif := statsif t; glog := glog t; trace := trace t; outside := outside t |}.

Definition set_prefetchQueue (f : list filesWithDeadline -> list filesWithDeadline)
  (t : targetrunner) :=
  {| si := si t; smap := smap t; bmdowner := bmdowner t; starttime := starttime t;
     xactinp := xactinp t; prefetchQueue := f (prefetchQueue t); chans := chans t;
     statsif := statsif t; glog := glog t; trace := trace t; outside := outside t |}.

Definition set_chans (f : list chan -> list chan) (t : targetrunner) :=
  {| si := si t; smap := smap t; bmdowner := bmdowner t; starttime := starttime t;
     xactinp := xactinp t; prefetchQueue := prefetchQueue t; chans := f (chans t);
     statsif := statsif t; glog := glog t; trace := trace t; outside := outside t |}.

Definition set_statsif (f : gmap string Z -> gmap string Z) (t : targetrunner) :=
  {| si := si t; smap := smap t; bmdowner := bmdowner t; starttime := starttime t;
     xactinp := xactinp t; prefetchQueue := prefetchQueue t; chans := chans t;
     statsif := f (statsif t); glog := glog t; trace := trace t; outside := outside t |}.

Definition set_glog (f : list logmsg -> list logmsg) (t : targetrunner) :=
  {| si := si t; smap := smap t; bmdowner := bmdowner t; starttime := starttime t;
     xactinp := xactinp t; prefetchQueue := prefetchQueue t; chans := chans t;
     statsif := statsif t; glog := f (glog t); trace := trace t; outside := outside t |}.

Definition set_trace (f : list event -> list event) (t : targetrunner) :=
  {| si := si t; smap := smap t; bmdowner := bmdowner t; starttime := starttime t;
     xactinp := xactinp t; prefetchQueue := prefetchQueue t; chans := chans t;
     statsif := statsif t; glog := glog t; trace := f (trace t); outside := outside t |}.

Definition set_outside (f : ext -> ext) (t : targetrunner) :=
  {| si := si t; smap := smap t; bmdowner := bmdowner t; starttime := starttime t;
     xactinp := xactinp t; prefetchQueue := prefetchQueue t; chans := chans t;
     statsif := statsif t; glog := glog t; trace := trace t; outside := f (outside t) |}.

(** A method of the runner: it ends in an [outcome] and leaves a state,
    also when it panics or parks on a channel. *)
Definition M (A : Type) : Type := targetrunner -> outcome A * targetrunner.

Definition ret {A} (a : A) : M A := fun t => (Returned a, t).

Definition bind {A B} (m : M A) (k : A -> M B) : M B :=
  fun t =>
    match m t with
    | (Returned a, t') => k a t'
    | (Panicked p, t') => (Panicked p, t')
    | (Blocked, t') => (Blocked, t')
    end.

Definition get : M targetrunner := fun t => (Returned t, t).
Definition modify (f : targetrunner -> targetrunner) : M unit := fun t => (Returned tt, f t).
Definition throw {A} (p : panic) : M A := fun t => (Panicked p, t).
Definition park {A} : M A := fun t => (Blocked, t).

Definition lift_outcome {A} (o : outcome A) : M A := fun t => (o, t).

(** A call into the outside. *)
Definition call {A} (f : ext -> A * ext) : M A :=
  fun t => let '(a, e) := f (outside t) in (Returned a, set_outside (fun _ => e) t).

Definition emit (e : event) : M unit := modify (set_trace (fun tr => tr ++ [e])).
Definition log (m : logmsg) : M unit := modify (set_glog (fun l => l ++ [m])).

(** [defer]: [cleanup] runs when [body] returns and when it panics; a
    goroutine parked inside [body] never reaches it. *)
Definition defer {A} (cleanup : M unit) (body : M A) : M A :=
  fun t =>
    match body t with
    | (Returned a, t') =>
        match cleanup t' with
        | (Returned _, t'') => (Returned a, t'')
        | (Panicked p, t'') => (Panicked p, t'')
        | (Blocked, t'') => (Blocked, t'')
        end
    | (Panicked p, t') =>
        match cleanup t' with
        | (Returned _, t'') => (Panicked p, t'')
        | (Panicked q, t'') => (Panicked q, t'')
        | (Blocked, t'') => (Blocked, t'')
        end
    | (Blocked, t') => (Blocked, t')
    end.

(** [go body]: the goroutine is run up to its end or to the point where it
    parks before the spawner goes on; a panic in it ends the process. *)
Definition go (body : M unit) : M unit :=
  fun t =>
    match body (set_trace (fun tr => tr ++ [EvGo]) t) with
    | (Returned _, t') => (Returned tt, set_trace (fun tr => tr ++ [EvGoExit]) t')
    | (Panicked p, t') => (Panicked p, t')
    | (Blocked, t') => (Returned tt, t')
    end.

#[global] Instance M_ret : MRet M := @ret.
#[global] Instance M_bind : MBind M := fun A B k m => bind m k.

(** *** Channels, statistics, the xaction registry *)

Definition make_chan (cap : nat) : M nat :=
  t ← get;
  let ch := length (chans t) in
  modify (set_chans (fun cs =>
    cs ++ [{| chan_cap := cap; chan_len := 0; chan_closed := false |}]));;
  emit (EvMake ch);;
  mret ch.

(** [ch <- v]: a send on a closed channel panics; one on a full buffer
    waits, as the model has no receiver standing by. *)
Definition send (ch : nat) : M unit :=
  t ← get;
  match chans t !! ch with
  | None => park
  | Some c =>
      if chan_closed c then throw SendOnClosed
      else if (chan_len c <? chan_cap c)%nat then
        modify (set_chans (fun cs =>
          <[ch := {| chan_cap := chan_cap c; chan_len := S (chan_len c);
                     chan_closed := false |}]> cs));;
        emit (EvSend ch)
      else park
  end.

(** [<-ch]: takes a buffered value; on an empty open channel it waits. *)
Definition recv (ch : nat) : M unit :=
  t ← get;
  match chans t !! ch with
  | None => park
  | Some c =>
      match chan_len c with
      | S n =>
          modify (set_chans (fun cs =>
            <[ch := {| chan_cap := chan_cap c; chan_len := n;
                       chan_closed := chan_closed c |}]> cs));;
          emit (EvRecv ch)
      | O => if chan_closed c then emit (EvRecv ch) else park
      end
  end.

Definition close (ch : nat) : M unit :=
  t ← get;
  match chans t !! ch with
  | None => throw CloseOfNil
  | Some c =>
      if chan_closed c then throw CloseOfClosed
      else
        modify (set_chans (fun cs =>
          <[ch := {| chan_cap := chan_cap c; chan_len := chan_len c;
                     chan_closed := true |}]> cs));;
        emit (EvClose ch)
  end.

(** [t.statsif.add(name, delta)]. *)
Definition statsif_add (name : string) (delta : Z) : M unit :=
  modify (set_statsif (fun m => <[name := default 0 (m !! name) + delta]> m)).

(** Modelled from the spec: the registry operations [add], [del] and
    [findU] and the constructor [newxactBase] are declared outside
    listrange.go.  [add] stores the xaction, [del(id)] removes the one
    with that id, [findU(kind)] finds a live xaction of that kind, and a
    new base starts now and has no end time. *)
Definition xactinp_add (x : xaction) : M unit :=
  modify (set_xactinp (fun q => q ++ [x]));;
  emit (EvXactAdd (id (xaction_base x)) (kind (xaction_base x))).

Definition xactinp_del (i : Z) : M unit :=
  modify (set_xactinp (filter (fun x => id (xaction_base x) ≠ i)));;
  emit (EvXactDel i).

Definition findU (k : string) (q : list xaction) : option xaction :=
  List.find (fun x =>
    String.eqb (kind (xaction_base x)) k && negb (finished (xaction_base x))) q.

Definition newxactBase (i : Z) (k : string) : M xactBase :=
  now ← call time_Now;
  mret {| id := i; kind := k; stime := now; etime := 0 |}.

Definition newDelete : M xactDeleteEvict :=
  t ← get;
  i ← call (uniqueid (xactinp t));
  b ← newxactBase i ActDelete;
  let xpre := {| xdel_base := b; xdel_targetrunner := None |} in
  xactinp_add (XDeleteEvict xpre);;
  mret xpre.

Definition newEvict : M xactDeleteEvict :=
  t ← get;
  i ← call (uniqueid (xactinp t));
  b ← newxactBase i ActEvict;
  let xpre := {| xdel_base := b; xdel_targetrunner := None |} in
  xactinp_add (XDeleteEvict xpre);;
  mret xpre.

(** [xact.targetrunner.starttime()]: the read goes through the stored
    pointer. *)
Definition targetrunner_starttime (p : option targetrunner_ptr) : M Z :=
  match p with
  | None => throw NilDereference
  | Some this_targetrunner => t ← get; mret (starttime t)
  end.

Definition tostring (b : xactBase) (p : option targetrunner_ptr) : M xact_string :=
  t0 ← targetrunner_starttime p;
  let start := stime b - t0 in
  if negb (finished b) then
    mret {| xs_kind := kind b; xs_id := id b; xs_started := start; xs_finished := None |}
  else
    t1 ← targetrunner_starttime p;
    now ← call time_Now;
    mret {| xs_kind := kind b; xs_id := id b; xs_started := start;
            xs_finished := Some (now - t1) |}.


Definition xactPrefetch_tostring (xact : xactPrefetch) : M xact_string :=
  tostring (xpre_base xact) (xpre_targetrunner xact).

(** [renewPrefetch(t)]: nil when a prefetch xaction is live. *)
Definition renewPrefetch : M (option xactPrefetch) :=
  t ← get;
  match findU ActPrefetch (xactinp t) with
  | Some (XPrefetch xpre) =>
      s ← xactPrefetch_tostring xpre;
      log (LogAlreadyRunning s);;
      mret None
  | Some (XDeleteEvict _) => throw TypeAssertion
  | None =>
      i ← call (uniqueid (xactinp t));
      b ← newxactBase i ActPrefetch;
      let xpre := {| xpre_base := b; xpre_targetrunner := Some this_targetrunner |} in
      xactinp_add (XPrefetch xpre);;
      mret (Some xpre)
  end.

(** *** Generic list/range methods *)

Definition nonempty (s : string) : bool := negb (String.eqb s "").

(** The page loop of [getListFromRangeCloud]; [pages] counts the pages
    still allowed, so [pages = 1] is the pass with [i = maxPrefetchPages-1]. *)
Fixpoint getListFromRangeCloud_pages (pages : nat) (bucket : string) (msg : GetMsg)
  (entries : list BucketEntry) : M (BucketList + error) :=
  match pages with
  | O => mret (inl {| Entries := entries; PageMarker := "" |})
  | S pages' =>
      '(jsbytes, errstr, errcode) ← call (listbucket bucket msg);
      if nonempty errstr then mret (inr (ErrListingCloudBucket bucket errcode errstr))
      else
        match json_Unmarshal_BucketList jsbytes with
        | None => mret (inr ErrUnmarshallingBucketList)
        | Some reslist =>
            let entries' := entries ++ Entries reslist in
            if String.eqb (PageMarker reslist) "" then
              mret (inl {| Entries := entries'; PageMarker := "" |})
            else
              (match pages' with
               | O => log LogDidNotPrefetchAllKeys
               | S _ => mret tt
               end);;
              getListFromRangeCloud_pages pages' bucket
                {| GetPrefix := GetPrefix msg; GetPageMarker := PageMarker reslist |}
                entries'
        end
  end.

Definition getListFromRangeCloud (bucket : string) (msg : GetMsg) : M (BucketList + error) :=
  getListFromRangeCloud_pages maxPrefetchPages bucket msg [].

Definition acceptRegexRange (name prefix : string) (regex : Regexp) (min max : Z) : bool :=
  let oname := strings.TrimPrefix name prefix in
  match FindStringSubmatch regex oname with
  | None => false
  | Some (s0, _) =>
      let '(i, err) := strconv.ParseInt s0 in
      if bool_decide (is_Some err) && nonempty s0 then false
      else if String.eqb s0 ""
              || (((min =? 0) || (min <=? i)) && ((max =? 0) || (i <=? max)))
      then true
      else false
  end.

(** The loop of [getListFromRange] over the listed entries. *)
Fixpoint getListFromRange_loop (bucket prefix : string) (re : Regexp) (min max : Z)
  (tsmap : Smap) (self : string) (entries : list BucketEntry) (objs : list string)
  : list string + error :=
  match entries with
  | [] => inl objs
  | be :: rest =>
      if negb (acceptRegexRange (Name be) prefix re min max) then
        getListFromRange_loop bucket prefix re min max tsmap self rest objs
      else
        let '(si, errstr) := HrwTarget bucket (Name be) tsmap in
        if match si with
           | None => true
           | Some d => String.eqb (DaemonID d) self
           end
        then
          if nonempty errstr then inr (ErrString errstr)
          else getListFromRange_loop bucket prefix re min max tsmap self rest
                 (objs ++ [Name be])
        else getListFromRange_loop bucket prefix re min max tsmap self rest objs
  end.

Definition getListFromRange (bucket prefix regex : string) (min max : Z)
  : M (list string + error) :=
  let msg := {| GetPrefix := prefix; GetPageMarker := "" |} in
  t ← get;
  r ← (if islocal (bmdowner t) bucket
       then call (prepareLocalObjectList bucket msg)
       else getListFromRangeCloud bucket msg);
  match r with
  | inr err => mret (inr err)
  | inl fullbucketlist =>
      match regexp_Compile regex with
      | None => mret (inr ErrCompileRegex)
      | Some re =>
          mret (getListFromRange_loop bucket prefix re min max (smap t)
                  (DaemonID (si t)) (Entries fullbucketlist) [])
      end
  end.

Definition listf : Type := list string -> string -> Z -> option nat -> M (option error).
Definition rangef : Type :=
  string -> string -> string -> Z -> Z -> Z -> option nat -> M (option error).

(** The ownership loop of [listOperation]: an HRW error ends it with the
    error string; [si.DaemonID] on a nil [si] panics. *)
Fixpoint listOperation_loop (bucket : string) (tsmap : Smap) (self : string)
  (objnames objs : list string) : outcome (list string + string) :=
  match objnames with
  | [] => Returned (inl objs)
  | obj :: rest =>
      let '(si, errstr) := HrwTarget bucket obj tsmap in
      if nonempty errstr then Returned (inr errstr)
      else
        match si with
        | None => Panicked NilDereference
        | Some d =>
            if String.eqb (DaemonID d) self
            then listOperation_loop bucket tsmap self rest (objs ++ [obj])
            else listOperation_loop bucket tsmap self rest objs
        end
  end.

(** [<-done; close(done)] of a handler that waits. *)
Definition wait_done (done : option nat) : M unit :=
  match done with
  | Some ch => recv ch;; close ch
  | None => park
  end.

Definition listOperation (path : string) (listMsg : ListMsg) (operation : listf) : M unit :=
  match restAPIItems_checked path with
  | None => emit (EvInvalMsg MsgInvalidRestAPI)
  | Some apitems =>
      bucket ← lift_outcome (index apitems 0);
      t ← get;
      r ← lift_outcome
            (listOperation_loop bucket (smap t) (DaemonID (si t)) (Objnames listMsg) []);
      match r with
      | inr errstr => emit (EvInvalMsg (MsgErrstr errstr))
      | inl objs =>
          if negb (length objs =? 0)%nat then
            done ← (if Wait (ListMsg_base listMsg)
                    then ch ← make_chan 1; mret (Some ch)
                    else mret None);
            go (err ← operation objs bucket (Deadline (ListMsg_base listMsg)) done;
                match err with
                | Some e => log (LogListOperationError e);; statsif_add "numerr" 1
                | None => mret tt
                end);;
            if Wait (ListMsg_base listMsg) then wait_done done else mret tt
          else mret tt
      end
  end.

Definition rangeOperation (path : string) (rangeMsg : RangeMsg) (operation : rangef) : M unit :=
  match restAPIItems_checked path with
  | None => emit (EvInvalMsg MsgInvalidRestAPI)
  | Some apitems =>
      bucket ← lift_outcome (index apitems 0);
      '(min, max, err) ← lift_outcome (parseRange (Range rangeMsg));
      (match err with
       | Some e => emit (EvInvalMsg (MsgErrorParsingRange (Range rangeMsg) e))
       | None => mret tt
       end);;
      done ← (if Wait (RangeMsg_base rangeMsg)
              then ch ← make_chan 1; mret (Some ch)
              else mret None);
      go (err ← operation bucket (Prefix rangeMsg) (Regex rangeMsg) min max
                  (Deadline (RangeMsg_base rangeMsg)) done;
          match err with
          | Some e => log (LogRangeOperationError e);; statsif_add "numerr" 1
          | None => mret tt
          end);;
      if Wait (RangeMsg_base rangeMsg) then wait_done done else mret tt
  end.

(** *** Delete/Evict *)

Definition t_fildelete (bucket objname : string) (evict : bool) : M (option error) :=
  err ← call (fildelete bucket objname evict);
  emit (EvFildelete bucket objname evict
          match err with Some _ => true | None => false end);;
  mret err.

(** [time.Now().Add(deadline)], or the zero time when there is no deadline. *)
Definition absolute_deadline (deadline : Z) : M Z :=
  if negb (deadline =? 0) then now ← call time_Now; mret (now + deadline)
  else mret 0.

(** [!absdeadline.IsZero() && time.Now().After(absdeadline)]. *)
Definition past_deadline (absdeadline : Z) : M bool :=
  if negb (IsZero absdeadline) then now ← call time_Now; mret (absdeadline <? now)
  else mret false.

Fixpoint doListEvictDelete_loop (evict : bool) (bucket : string) (xdel : xactDeleteEvict)
  (absdeadline : Z) (objs : list string) : M (option error) :=
  match objs with
  | [] => mret None
  | objname :: rest =>
      t ← get;
      if abrt_closed (id (xdel_base xdel)) (outside t) then mret None
      else
        late ← past_deadline absdeadline;
        if late : bool then
          emit (EvDeadlineSkip objname);;
          doListEvictDelete_loop evict bucket xdel absdeadline rest
        else
          err ← t_fildelete bucket objname evict;
          match err with
          | Some e => mret (Some e)
          | None => doListEvictDelete_loop evict bucket xdel absdeadline rest
          end
  end.

Definition doListEvictDelete (evict : bool) (objs : list string) (bucket : string)
  (deadline : Z) (done : option nat) : M (option error) :=
  xdel ← (if evict then newEvict else newDelete);
  defer
    ((match done with
      | Some ch => send ch
      | None => mret tt
      end);;
     xactinp_del (id (xdel_base xdel)))
    (absdeadline ← absolute_deadline deadline;
     doListEvictDelete_loop evict bucket xdel absdeadline objs).

Definition doRangeEvictDelete (evict : bool) (bucket prefix regex : string) (min max : Z)
  (deadline : Z) (done : option nat) : M (option error) :=
  r ← getListFromRange bucket prefix regex min max;
  match r with
  | inr err => mret (Some err)
  | inl objs => doListEvictDelete evict objs bucket deadline done
  end.

Definition doListDelete : listf := doListEvictDelete false.
Definition doListEvict : listf := doListEvictDelete true.
Definition doRangeDelete : rangef := doRangeEvictDelete false.
Definition doRangeEvict : rangef := doRangeEvictDelete true.

Definition deleteList (path : string) (deleteMsg : ListMsg) : M unit :=
  listOperation path deleteMsg doListDelete.
Definition evictList (path : string) (evictMsg : ListMsg) : M unit :=
  listOperation path evictMsg doListEvict.
Definition deleteRange (path : string) (deleteRangeMsg : RangeMsg) : M unit :=
  rangeOperation path deleteRangeMsg doRangeDelete.
Definition evictRange (path : string) (evictMsg : RangeMsg) : M unit :=
  rangeOperation path evictMsg doRangeEvict.

(** *** Prefetch *)

Definition prefetchMissing (objname bucket : string) : M unit :=
  emit (EvPrefetchMissing bucket objname);;
  t ← get;
  let islocal := islocal (bmdowner t) bucket in
  let fqn := fqn bucket objname islocal in
  '(coldget0, _, version, errstr) ← call (lookupLocally bucket objname fqn);
  if (nonempty errstr && negb coldget0) || (nonempty errstr && coldget0 && islocal)
  then log (LogErrorln errstr)
  else
    t ← get;
    r ← (if negb coldget0 && negb islocal && ValidateWarmGet (outside t)
            && nonempty version && versioningConfigured bucket (outside t)
         then
           '(vchanged, errstr, _) ← call (checkCloudVersion bucket objname version);
           if nonempty errstr then mret None else mret (Some (vchanged, vchanged))
         else mret (Some (coldget0, false)));
    match r with
    | None => mret tt
    | Some (false, _) => mret tt
    | Some (true, vchanged) =>
        '(props, errstr, _) ← call (coldget bucket objname true);
        if nonempty errstr then
          if negb (String.eqb errstr "skip") then log (LogErrorln errstr) else mret tt
        else
          t ← get;
          (if glog_V 4 (outside t) then log (LogPrefetchInfo bucket objname) else mret tt);;
          statsif_add "numprefetch" 1;;
          match props with
          | None => throw NilDereference
          | Some props =>
              statsif_add "bytesprefetched" (size props);;
              if vchanged : bool then
                statsif_add "bytesvchanged" (size props);;
                statsif_add "numvchanged" 1
              else mret tt
          end
    end.

Fixpoint prefetch_objnames (bucket : string) (objnames : list string) : M unit :=
  match objnames with
  | [] => mret tt
  | objname :: rest => prefetchMissing objname bucket;; prefetch_objnames bucket rest
  end.

(** The body of the [case fwd := <-t.prefetchQueue] branch. *)
Definition doPrefetch_batch (fwd : filesWithDeadline) : M unit :=
  late ← past_deadline (fwd_deadline fwd);
  if late : bool then mret tt
  else
    prefetch_objnames (fwd_bucket fwd) (fwd_objnames fwd);;
    match fwd_done fwd with
    | Some ch => send ch
    | None => mret tt
    end.

(** The [select] loop: one queued batch per turn, until the queue is found
    empty.  Nothing run here puts a batch on the queue, so the loop is a
    recursion over the batches that were queued when it started. *)
Fixpoint doPrefetch_loop (queued : list filesWithDeadline) : M unit :=
  match queued with
  | [] => mret tt
  | fwd :: rest =>
      modify (set_prefetchQueue (fun _ => rest));;
      doPrefetch_batch fwd;;
      doPrefetch_loop rest
  end.

Definition set_etime (i : Z) (now : Z) (x : xaction) : xaction :=
  if bool_decide (id (xaction_base x) = i) then
    match x with
    | XPrefetch x =>
        XPrefetch {| xpre_base := {| id := id (xpre_base x); kind := kind (xpre_base x);
                                     stime := stime (xpre_base x); etime := now |};
                     xpre_targetrunner := xpre_targetrunner x |}
    | XDeleteEvict x =>
        XDeleteEvict {| xdel_base := {| id := id (xdel_base x); kind := kind (xdel_base x);
                                        stime := stime (xdel_base x); etime := now |};
                        xdel_targetrunner := xdel_targetrunner x |}
    end
  else x.

Definition doPrefetch : M unit :=
  xpre ← renewPrefetch;
  match xpre with
  | None => mret tt
  | Some xpre =>
      t ← get;
      doPrefetch_loop (prefetchQueue t);;
      now ← call time_Now;
      modify (set_xactinp (map (set_etime (id (xpre_base xpre)) now)));;
      xactinp_del (id (xpre_base xpre))
  end.

(** [t.prefetchQueue <- fwd] on the queue of [prefetchChanSize] entries. *)
Definition enqueue (fwd : filesWithDeadline) : M unit :=
  t ← get;
  if (length (prefetchQueue t) <? prefetchChanSize)%nat then
    modify (set_prefetchQueue (fun q => q ++ [fwd]));;
    emit (EvEnqueue fwd)
  else park.

Definition addPrefetchList : listf := fun objs bucket deadline done =>
  t ← get;
  if islocal (bmdowner t) bucket then mret (Some (ErrLocalBucketPrefetch bucket))
  else
    absdeadline ← absolute_deadline deadline;
    enqueue {| fwd_objnames := objs; fwd_bucket := bucket;
               fwd_deadline := absdeadline; fwd_done := done |};;
    mret None.

Definition addPrefetchRange : rangef := fun bucket prefix regex min max deadline done =>
  t ← get;
  if islocal (bmdowner t) bucket then mret (Some (ErrLocalBucketPrefetch bucket))
  else
    r ← getListFromRange bucket prefix regex min max;
    match r with
    | inr err => mret (Some err)
    | inl objs => addPrefetchList objs bucket deadline done
    end.

Definition prefetchList (path : string) (prefetchMsg : ListMsg) : M unit :=
  listOperation path prefetchMsg addPrefetchList.
Definition prefetchRange (path : string) (prefetchRangeMsg : RangeMsg) : M unit :=
  rangeOperation path prefetchRangeMsg addPrefetchRange.

End Runner.

(** ** A small concrete daemon, to run the code on *)

Module sample.

(** The outside: a clock that advances by [tick] at every reading, the
    objects that the store or the cloud fails on, and the next free id. *)
Record world := {
  clock : Z;
  tick : Z;
  broken : list string;
  next_id : Z
}.

Definition is_broken (objname : string) (w : world) : bool :=
  bool_decide (objname ∈ broken w).

Definition is_digit (c : ascii) : bool :=
  let v := strconv.byte_val c in (48 <=? v) && (v <=? 57).

Fixpoint take_digits (s : string) : string :=
  match s with
  | EmptyString => EmptyString
  | String c s' => if is_digit c then String c (take_digits s') else EmptyString
  end.

(** The leftmost match of the pattern [[0-9]+]. *)
Fixpoint find_digits (s : string) : option (string * list string) :=
  match s with
  | EmptyString => None
  | String c s' => if is_digit c then Some (take_digits s, []) else find_digits s'
  end.

Inductive pattern := Digits | Anything.

#[export] Instance regexp : RegexpEngine := {|
  Regexp := pattern;
  regexp_Compile := fun s =>
    if String.eqb s "[0-9]+" then Some Digits
    else if String.eqb s "" then Some Anything
    else None;
  FindStringSubmatch := fun re s =>
    match re with
    | Digits => find_digits s
    | Anything => Some ("", [])
    end
|}.

Definition t1 : daemonInfo :=
  {| DaemonID := "t1"; NodeIPAddr := "10.0.0.1"; DaemonPort := "8081" |}.
Definition t2 : daemonInfo :=
  {| DaemonID := "t2"; NodeIPAddr := "10.0.0.2"; DaemonPort := "8081" |}.

(** A stand-in for the hash: names of even length go to [t1], the others
    to [t2]; a map without targets is an error. *)
#[export] Instance placer : Placer := {|
  HrwTarget := fun bucket objname m =>
    if bool_decide (Tmap m = ∅) then (None, "DFC cluster map is empty: no targets")
    else if Nat.even (String.length objname) then (Some t1, "") else (Some t2, "")
|}.

Definition bucket_of_path (path : string) : option (list string) :=
  if strings.HasPrefix path "/v1/buckets/"
  then Some [strings.TrimPrefix path "/v1/buckets/"]
  else None.

#[export] Instance env : Outside := {|
  ext := world;
  time_Now := fun w =>
    (clock w, {| clock := clock w + tick w; tick := tick w; broken := broken w;
                 next_id := next_id w |});
  abrt_closed := fun _ _ => false;
  uniqueid := fun _ w =>
    (next_id w, {| clock := clock w; tick := tick w; broken := broken w;
                   next_id := next_id w + 1 |});
  restAPIItems_checked := bucket_of_path;
  fildelete := fun bucket objname evict w =>
    (if is_broken objname w then Some (ErrString "delete failed") else None, w);
  fqn := fun bucket objname islocal => bucket +:+ "/" +:+ objname;
  lookupLocally := fun bucket objname fqn w => ((true, 0, "", ""), w);
  ValidateWarmGet := fun _ => false;
  versioningConfigured := fun _ _ => false;
  checkCloudVersion := fun _ _ _ w => ((false, "", 0), w);
  coldget := fun bucket objname prefetch w =>
    (if is_broken objname w then (None, "cloud get failed", 500)
     else (Some {| size := 7 |}, "", 0), w);
  glog_V := fun _ _ => false;
  listbucket := fun _ _ w => (("", "", 0), w);
  json_Unmarshal_BucketList := fun _ => Some {| Entries := []; PageMarker := "" |};
  prepareLocalObjectList := fun _ _ w =>
    (inl {| Entries := [ {| Name := "shard-7" |}; {| Name := "shard-10" |};
                         {| Name := "shard-123" |}; {| Name := "readme" |} ];
            PageMarker := "" |}, w)
|}.

Definition cluster : Smap :=
  {| Tmap := {[ "t1" := t1; "t2" := t2 ]}; Pmap := ∅; Smap_Version := 1 |}.

Definition buckets : bucketMD :=
  {| LBmap := {[ "lb" := {| CloudProvider := "dfc"; NextTierURL := "";
                            ReadPolicy := ""; WritePolicy := "" |} ]};
     CBmap := ∅; bucketMD_Version := 1 |}.

(** Target [t1] at boot, with [bad] the objects that fail. *)
Definition target (bad : list string) : targetrunner :=
  {| si := t1; smap := cluster; bmdowner := buckets; starttime := 100;
     xactinp := []; prefetchQueue := []; chans := []; statsif := ∅;
     glog := []; trace := [];
     outside := {| clock := 1000; tick := 1; broken := bad; next_id := 1 |} |}.

(** Target [t1] with one open [done] channel, on which the one queued
    prefetch batch is to signal. *)
Definition queued_batch : filesWithDeadline :=
  {| fwd_objnames := ["ab"; "abcd"]; fwd_bucket := "cloudb"; fwd_deadline := 0;
     fwd_done := Some O |}.

Definition waited_target (bad : list string) : targetrunner :=
  {| si := t1; smap := cluster; bmdowner := buckets; starttime := 100;
     xactinp := []; prefetchQueue := [queued_batch];
     chans := [ {| chan_cap := 1; chan_len := 0; chan_closed := false |} ];
     statsif := ∅; glog := []; trace := [];
     outside := {| clock := 1000; tick := 1; broken := bad; next_id := 1 |} |}.

(** A batch whose deadline passed before the daemon's clock started. *)
Definition late_batch : filesWithDeadline :=
  {| fwd_objnames := ["ab"; "abcd"]; fwd_bucket := "cloudb"; fwd_deadline := 500;
     fwd_done := Some O |}.

Definition list_msg (objnames : list string) (wait : bool) : ListMsg :=
  {| ListMsg_base := {| Deadline := 0; Wait := wait |}; Objnames := objnames |}.

Definition range_msg (prefix regex range : string) (wait : bool) : RangeMsg :=
  {| RangeMsg_base := {| Deadline := 0; Wait := wait |};
     Prefix := prefix; Regex := regex; Range := range |}.

End sample.

(** ** Cluster-meta discovery *)

Module discovery.

Record SmapVoteMsg := {
  VoteInProgress : bool;
  msg_Smap : option Smap;
  msg_BucketMD : option bucketMD
}.

(** What one call to a peer's discovery endpoint gives: nothing when the
    call fails (HTTP error, timeout), else the peer's message. *)
Definition response : Type := option SmapVoteMsg.

(** The peers, by daemon id: what each answers to its [n]-th call, [n]
    counted from 1 as the handlers of the discovery tests do. *)
Definition servers : Type := string -> nat -> response.

Record found := {
  maxVerSmap : option Smap;
  maxVerBucketMD : option bucketMD
}.

(** Modelled from the spec: [discoverClusterMeta] is declared outside the
    given sources (only its test is there).  "Query each hinted peer's
    discovery endpoint until the deadline"; "if vote_in_progress, the
    peer's maps are ignored for this round; otherwise the versions are
    tallied"; "retry failing peers on the retry interval until the
    deadline"; "return the maximum-version Smap seen and, independently,
    the maximum-version BMD seen"; "any version reported as 0 is treated
    as absent for that component only".

    A peer is settled once it has given a message that is not
    vote-in-progress; the others are called again in the next round. *)
Definition settled (r : response) : bool :=
  match r with
  | Some m => negb (VoteInProgress m)
  | None => false
  end.

(** The hinted peers: the proxies and the targets of the hint map. *)
Definition hinted (hint : Smap) : list string :=
  (map_to_list (Pmap hint)).*1 ++ (map_to_list (Tmap hint)).*1.

(** The query rounds that start before the deadline: one at [now], then
    one every [interval]. *)
Definition rounds_before (now deadline interval : Z) : nat :=
  if deadline <=? now then O
  else Z.to_nat ((deadline - now + Z.max 1 interval - 1) / Z.max 1 interval).

(** One round: every pending peer is called; [n] is the number of the
    call.  Gives the responses of the round and the peers still pending. *)
Fixpoint query_round (srv : servers) (n : nat) (pending : list string)
  : list response * list string :=
  match pending with
  | [] => ([], [])
  | p :: rest =>
      let r := srv p n in
      let '(rs, still) := query_round srv n rest in
      (r :: rs, if settled r then still else p :: still)
  end.

Fixpoint received (srv : servers) (rounds : nat) (n : nat) (pending : list string)
  : list response :=
  match rounds with
  | O => []
  | S rounds' =>
      let '(rs, still) := query_round srv n pending in
      rs ++ received srv rounds' (S n) still
  end.

Definition tally_smap (cur : option Smap) (r : response) : option Smap :=
  match r with
  | Some {| VoteInProgress := false; msg_Smap := Some s |} =>
      if Smap_Version s =? 0 then cur
      else
        match cur with
        | None => Some s
        | Some c => if Smap_Version c <? Smap_Version s then Some s else cur
        end
  | _ => cur
  end.

Definition tally_bmd (cur : option bucketMD) (r : response) : option bucketMD :=
  match r with
  | Some {| VoteInProgress := false; msg_BucketMD := Some b |} =>
      if bucketMD_Version b =? 0 then cur
      else
        match cur with
        | None => Some b
        | Some c => if bucketMD_Version c <? bucketMD_Version b then Some b else cur
        end
  | _ => cur
  end.

Definition tally (rs : list response) : found :=
  {| maxVerSmap := fold_left tally_smap rs None;
     maxVerBucketMD := fold_left tally_bmd rs None |}.

Definition discoverClusterMeta (srv : servers) (now : Z) (hint : Smap)
  (deadline interval : Z) : found :=
  tally (received srv (rounds_before now deadline interval) 1 (hinted hint)).

(** The responses that count for a component: not vote-in-progress, the
    component present, its version not 0. *)
Definition smap_of (r : response) : option Smap :=
  match r with
  | Some {| VoteInProgress := false; msg_Smap := Some s |} =>
      if Smap_Version s =? 0 then None else Some s
  | _ => None
  end.

Definition bmd_of (r : response) : option bucketMD :=
  match r with
  | Some {| VoteInProgress := false; msg_BucketMD := Some b |} =>
      if bucketMD_Version b =? 0 then None else Some b
  | _ => None
  end.

Definition smaps_seen (rs : list response) : list Smap := omap smap_of rs.
Definition bmds_seen (rs : list response) : list bucketMD := omap bmd_of rs.

(** *** The handlers of the discovery tests *)

Definition reply (vote : bool) (sv lv : Z) : response :=
  Some {| VoteInProgress := vote;
          msg_Smap := Some {| Tmap := ∅; Pmap := ∅; Smap_Version := sv |};
          msg_BucketMD := Some {| LBmap := ∅; CBmap := ∅; bucketMD_Version := lv |} |}.

Definition discoverServerDefaultHandler (sv lv : Z) : nat -> response :=
  fun _ => reply false sv lv.
Definition discoverServerVoteOnceHandler (sv lv : Z) : nat -> response :=
  fun cnt => reply (cnt =? 1)%nat sv lv.
Definition discoverServerFailTwiceHandler (sv lv : Z) : nat -> response :=
  fun cnt => if (2 <? cnt)%nat then reply false sv lv else None.
Definition discoverServerAlwaysFailHandler (sv lv : Z) : nat -> response :=
  fun _ => None.
Definition discoverServerVoteInProgressHandler (sv lv : Z) : nat -> response :=
  fun _ => reply true 12345 67890.

Record discoverServer := {
  ds_id : string;
  isProxy : bool;
  smapVersion : Z;
  bmdVersion : Z;
  httpHandler : Z -> Z -> nat -> response
}.

Definition daemon (i : string) : daemonInfo :=
  {| DaemonID := i; NodeIPAddr := "127.0.0.1"; DaemonPort := "" |}.

(** The hint map that [TestDiscoverServers] builds from its servers. *)
Definition hint_of (ss : list discoverServer) : Smap :=
  fold_left (fun h s =>
    if isProxy s
    then {| Tmap := Tmap h; Pmap := <[ds_id s := daemon (ds_id s)]> (Pmap h);
            Smap_Version := Smap_Version h |}
    else {| Tmap := <[ds_id s := daemon (ds_id s)]> (Tmap h); Pmap := Pmap h;
            Smap_Version := Smap_Version h |})
    ss {| Tmap := ∅; Pmap := ∅; Smap_Version := 0 |}.

Definition servers_of (ss : list discoverServer) : servers :=
  fun i n =>
    match List.find (fun s => String.eqb (ds_id s) i) ss with
    | Some s => httpHandler s (smapVersion s) (bmdVersion s) n
    | None => None
    end.

(** One row of the test table: the versions found, 0 standing for nil, with
    the retry interval of 100ms that the test passes. *)
Definition millisecond : Z := 1000000.

Definition run_case (ss : list discoverServer) (duration : Z) : Z * Z :=
  let f := discoverClusterMeta (servers_of ss) 0 (hint_of ss) duration (100 * millisecond) in
  (from_option Smap_Version 0 (maxVerSmap f),
   from_option bucketMD_Version 0 (maxVerBucketMD f)).

End discovery.

(** ** Message parsing: the JSON maps of list and range requests *)

(** What [json.Unmarshal] puts in a [map[string]interface{}]: nil, a bool,
    a float64 (its value is never read here), a string, a slice, a map. *)
#[warnings="-register-all"]
Inductive json :=
| JNull
| JBool (b : bool)
| JNumber (n : Z)
| JString (s : string)
| JArray (l : list json)
| JObject (l : list (string * json)).

(** Go's [time.ParseDuration]: the duration, or an error. *)
Class Durations := {
  ParseDuration : string -> option Z
}.

(** The error strings of the parsers, by what they say; the empty error
    string of the source is the absence of one. *)
Inductive msgerr :=
| ErrDeadline (v : json)
| ErrWait (v : json)
| ErrNoObjnames
| ErrNonStringObjectName
| ErrCouldntParseObjnames
| ErrNoPrefix
| ErrCouldntParsePrefix (v : json)
| ErrNoRegex
| ErrCouldntParseRegex (v : json)
| ErrNoRange
| ErrCouldntParseRange (v : json).

Section Parsing.
Context `{Durations}.

(** [parseRangeListMsgBase]: [v.(string)] on the deadline is the
    one-result form of the type assertion, which panics on another type;
    [v.(bool)] on the wait flag is the two-result form. *)
Definition parseRangeListMsgBase (jsmap : gmap string json)
  : outcome (RangeListMsgBase * option msgerr) :=
  let pmb := {| Deadline := defaultDeadline; Wait := defaultWait |} in
  obind
    (match jsmap !! "deadline" with
     | Some v =>
         match v with
         | JString s =>
             match ParseDuration s with
             | None => Returned (inr (pmb, Some (ErrDeadline v)))
             | Some deadline => Returned (inl {| Deadline := deadline; Wait := Wait pmb |})
             end
         | _ => Panicked TypeAssertion
         end
     | None => Returned (inl pmb)
     end)
    (fun r =>
       match r with
       | inr early => Returned early
       | inl pmb =>
           match jsmap !! "wait" with
           | Some v =>
               match v with
               | JBool wait => Returned ({| Deadline := Deadline pmb; Wait := wait |}, None)
               | _ => Returned (pmb, Some (ErrWait v))
               end
           | None => Returned (pmb, None)
           end
       end).

(** The loop of [parseListMsg] over the elements of "objnames": the names
    read so far stay in the message when an element is not a string. *)
Fixpoint parseListMsg_objnames (objnames : list json) (acc : list string)
  : list string * option msgerr :=
  match objnames with
  | [] => (acc, None)
  | JString objname :: rest => parseListMsg_objnames rest (acc ++ [objname])
  | _ :: _ => (acc, Some ErrNonStringObjectName)
  end.

(** [parseListMsg]: the message is nil when the base does not parse. *)
Definition parseListMsg (jsmap : gmap string json)
  : outcome (option ListMsg * option msgerr) :=
  obind (parseRangeListMsgBase jsmap) (fun '(pmb, errstr) =>
    match errstr with
    | Some e => Returned (None, Some e)
    | None =>
        match jsmap !! "objnames" with
        | None => Returned (Some {| ListMsg_base := pmb; Objnames := [] |},
                            Some ErrNoObjnames)
        | Some (JArray objnames) =>
            let '(names, err) := parseListMsg_objnames objnames [] in
            Returned (Some {| ListMsg_base := pmb; Objnames := names |}, err)
        | Some _ => Returned (Some {| ListMsg_base := pmb; Objnames := [] |},
                              Some ErrCouldntParseObjnames)
        end
    end).

Definition parseRangeMsg (jsmap : gmap string json)
  : outcome (option RangeMsg * option msgerr) :=
  obind (parseRangeListMsgBase jsmap) (fun '(pmb, errstr) =>
    match errstr with
    | Some e => Returned (None, Some e)
    | None =>
        let pm prefix regex rng :=
          Some {| RangeMsg_base := pmb; Prefix := prefix; Regex := regex; Range := rng |} in
        match jsmap !! "prefix" with
        | None => Returned (pm "" "" "", Some ErrNoPrefix)
        | Some (JString prefix) =>
            match jsmap !! "regex" with
            | None => Returned (pm prefix "" "", Some ErrNoRegex)
            | Some (JString regex) =>
                match jsmap !! "range" with
                | None => Returned (pm prefix regex "", Some ErrNoRange)
                | Some (JString rng) => Returned (pm prefix regex rng, None)
                | Some v => Returned (pm prefix regex "", Some (ErrCouldntParseRange v))
                end
            | Some v => Returned (pm prefix "" "", Some (ErrCouldntParseRegex v))
            end
        | Some v => Returned (pm "" "" "", Some (ErrCouldntParsePrefix v))
        end
    end).

End Parsing.

(** Durations of the sample daemon: a number of seconds, written with
    decimal digits and an "s". *)
Fixpoint seconds_text (s : string) (acc : Z) : option Z :=
  match s with
  | EmptyString => None
  | String c EmptyString =>
      if Ascii.eqb c "s" then Some (acc * 1000000000) else None
  | String c s' =>
      if (48 <=? strconv.byte_val c) && (strconv.byte_val c <=? 57)
      then seconds_text s' (acc * 10 + (strconv.byte_val c - 48))
      else None
  end.

Definition sample_durations : Durations := {|
  ParseDuration := fun s =>
    match s with
    | EmptyString => None
    | String c EmptyString => None
    | _ => seconds_text s 0
    end
|}.

(** ** Vocabulary of the properties *)

(** [i] lies between the bounds, a bound of 0 being unset. *)
Definition in_range (min max i : Z) : Prop :=
  (min = 0 \/ min <= i) /\ (max = 0 \/ i <= max).

(** [obj] hashes to a target of the map, without an error. *)
Definition hashes `{Placer} (bucket : string) (tsmap : Smap) (obj : string) : Prop :=
  exists d, HrwTarget bucket obj tsmap = (Some d, "").

(** [HrwTarget(bucket, obj, smap)] is the target [self]. *)
Definition owned `{Placer} (bucket : string) (tsmap : Smap) (self obj : string) : bool :=
  match HrwTarget bucket obj tsmap with
  | (Some d, _) => String.eqb (DaemonID d) self
  | (None, _) => false
  end.

(** Keeping the element of highest version, the one held winning a tie. *)
Definition keep_max {A} (version : A -> Z) (cur : option A) (x : A) : option A :=
  match cur with
  | None => Some x
  | Some c => if version c <? version x then Some x else cur
  end.

(** One response tallied: it counts when [count] finds the component. *)
Definition tally_step {A R} (version : A -> Z) (count : R -> option A)
  (cur : option A) (r : R) : option A :=
  match count r with
  | Some x => keep_max version cur x
  | None => cur
  end.

(** [best] is an element of [xs] of highest version, or nothing when [xs]
    is empty. *)
Definition is_max_of {A} (version : A -> Z) (xs : list A) (best : option A) : Prop :=
  match best with
  | None => xs = []
  | Some b => b ∈ xs /\ forall x, x ∈ xs -> version x <= version b
  end.

(** *** The calls of a discovery *)

(** The time of the [k]-th call to a peer, [k] counted from 1: the first
    at [now], the next ones a retry interval apart (an interval below 1
    counts as 1). *)
Definition call_time (now interval : Z) (k : nat) : Z :=
  now + (Z.of_nat k - 1) * Z.max 1 interval.

(** Peer [p] is called a [k]-th time: it is in the hint map, the call
    starts before the deadline, and none of its earlier answers was a
    message that is not vote-in-progress. *)
Definition called (srv : discovery.servers) (now : Z) (hint : Smap) (deadline interval : Z)
  (p : string) (k : nat) : Prop :=
  p ∈ discovery.hinted hint /\ (1 <= k)%nat /\ call_time now interval k < deadline /\
  forall j, (1 <= j < k)%nat -> discovery.settled (srv p j) = false.

(** *** Reading a trace *)

(** The completion signal of a batch: one send on a non-nil [done]. *)
Definition signal (done : option nat) : list event :=
  match done with
  | Some ch => [EvSend ch]
  | None => []
  end.

(** [done] is nil, or an open channel with room in its buffer: what
    [make(chan struct{}, 1)] of the handler gives. *)
Definition room `{Outside} (done : option nat) (t : targetrunner) : Prop :=
  match done with
  | Some ch =>
      exists c, chans t !! ch = Some c /\ chan_closed c = false /\
                (chan_len c < chan_cap c)%nat
  | None => True
  end.

(** The object that an event of a delete/evict batch is about. *)
Definition object_of (e : event) : option string :=
  match e with
  | EvFildelete _ objname _ _ => Some objname
  | EvDeadlineSkip objname => Some objname
  | _ => None
  end.

Definition failed (e : event) : bool :=
  match e with
  | EvFildelete _ _ _ true => true
  | _ => false
  end.

(** The events of a delete/evict batch over [objs]: one event per object,
    for the objects of [objs] in their order up to some point, each a
    [fildelete] of the batch or a skip past the deadline. *)
Definition walks (bucket : string) (evict : bool) (objs : list string)
  (evs : list event) : Prop :=
  (exists rest, objs = omap object_of evs ++ rest) /\
  Forall (fun e =>
    match e with
    | EvFildelete b _ ev _ => b = bucket /\ ev = evict
    | EvDeadlineSkip _ => True
    | _ => False
    end) evs.

(** No event of [evs] is a failure when the batch returns no error; when
    it returns one, the failure is the last event of the batch. *)
Definition stops_at_first_failure (evs : list event) (r : option error) : Prop :=
  match r with
  | None => Forall (fun e => failed e = false) evs
  | Some _ =>
      exists evs0 e, evs = evs0 ++ [e] /\ failed e = true /\
                     Forall (fun e => failed e = false) evs0
  end.

(** The batch of the xaction [xid] gets to the end of [objs]: when it
    returns no error and the abort channel of the xaction is never closed,
    every object of [objs] has its event, in the order of [objs]. *)
Definition reaches_the_end `{Outside} (xid : Z) (objs : list string) (evs : list event)
  (r : option error) : Prop :=
  r = None -> (forall e, abrt_closed xid e = false) -> omap object_of evs = objs.

(** Is [objname] of [bucket] attempted in the trace? *)
Definition attempted (bucket objname : string) (tr : list event) : bool :=
  existsb (fun e =>
    match e with
    | EvFildelete b o _ _ => String.eqb b bucket && String.eqb o objname
    | EvPrefetchMissing b o => String.eqb b bucket && String.eqb o objname
    | _ => false
    end) tr.





(** The state apart from the trace, the statistics, the log and the
    outside is as it was. *)
Definition same_target `{Outside} (t t' : targetrunner) : Prop :=
  si t' = si t /\ smap t' = smap t /\ bmdowner t' = bmdowner t /\
  starttime t' = starttime t /\ xactinp t' = xactinp t /\
  prefetchQueue t' = prefetchQueue t /\ chans t' = chans t.

(** The channels after the completion signal of a batch. *)
Definition after_signal (done : option nat) (cs : list chan) : list chan :=
  match done with
  | Some ch =>
      match cs !! ch with
      | Some c =>
          <[ch := {| chan_cap := chan_cap c; chan_len := S (chan_len c);
                     chan_closed := false |}]> cs
      | None => cs
      end
  | None => cs
  end.

(** The [done] that a handler makes: a fresh channel when it waits. *)
Definition handler_done `{Outside} (wait : bool) (t : targetrunner) : option nat :=
  if wait then Some (length (chans t)) else None.

Definition handler_make (done : option nat) : list event :=
  match done with
  | Some ch => [EvMake ch]
  | None => []
  end.

Definition handler_wait (done : option nat) : list event :=
  match done with
  | Some ch => [EvRecv ch; EvClose ch]
  | None => []
  end.

(** What the goroutine of a handler records when the operation returns
    [r]: the error is logged and [numerr] goes up by one. *)
Definition logged (r : option error) : list logmsg :=
  match r with
  | Some e => [LogListOperationError e]
  | None => []
  end.

Definition counted (r : option error) (stats : gmap string Z) : gmap string Z :=
  match r with
  | Some _ => <["numerr" := default 0 (stats !! "numerr") + 1]> stats
  | None => stats
  end.

(** *** Prefetch *)

(** The contract of [coldget]: without an error string it hands back the
    properties of the object. *)
Definition coldget_gives_props `{Outside} : Prop :=
  forall bucket objname prefetch e props errstr errcode e',
    coldget bucket objname prefetch e = (props, errstr, errcode, e') ->
    errstr = "" -> props <> None.

(** The events of a batch that is taken from the queue in time: every
    object of it, then the completion signal. *)
Definition batch_events (fwd : filesWithDeadline) : list event :=
  map (EvPrefetchMissing (fwd_bucket fwd)) (fwd_objnames fwd) ++ signal (fwd_done fwd).

(** The events of a queue that is drained: batch after batch, a batch
    being dropped whole only when it has a deadline. *)
Definition drained (q : list filesWithDeadline) (evs : list event) : Prop :=
  exists evss,
    evs = concat evss /\
    Forall2 (fun fwd es =>
      es = batch_events fwd \/ (es = [] /\ fwd_deadline fwd <> 0)) q evss.

(** A batch is late in the state in which it is taken from the queue: it
    has a deadline, and the clock read then is past it. *)
Definition late `{Outside} (fwd : filesWithDeadline) (t : targetrunner) : bool :=
  negb (IsZero (fwd_deadline fwd)) && (fwd_deadline fwd <? (time_Now (outside t)).1).

(** The events of the queue [q] drained from the state [t] on: batch after
    batch in the order of the queue, a late batch dropped whole and every
    other batch with all its events; each batch is taken in the state that
    the batch before it left. *)
Fixpoint drain_events `{RegexpEngine} `{Placer} `{Outside} (q : list filesWithDeadline)
  (t : targetrunner) : list event :=
  match q with
  | [] => []
  | fwd :: rest =>
      let taken := set_prefetchQueue (fun _ => rest) t in
      (if late fwd taken then [] else batch_events fwd)
      ++ drain_events rest (doPrefetch_batch fwd taken).2
  end.

(** The [done] channels of the queued batches are distinct and have room. *)
Definition queue_ready `{Outside} (q : list filesWithDeadline) (t : targetrunner) : Prop :=
  NoDup (omap fwd_done q) /\
  forall ch, ch ∈ omap fwd_done q -> room (Some ch) t.

(** The channels that a trace sends on, in order. *)
Definition sends (tr : list event) : list nat :=
  omap (fun e => match e with EvSend ch => Some ch | _ => None end) tr.

(** *** Decimal numerals *)

Definition is_decimal_digit (c : ascii) : bool :=
  (48 <=? strconv.byte_val c) && (strconv.byte_val c <=? 57).

(** The number that a string of decimal digits writes, read after [acc];
    nothing when a byte is not a digit. *)
Fixpoint decimal_value (s : string) (acc : Z) : option Z :=
  match s with
  | EmptyString => Some acc
  | String c s' =>
      if is_decimal_digit c
      then decimal_value s' (acc * 10 + (strconv.byte_val c - 48))
      else None
  end.

(** ** Proof steps for runs of the target *)

Ltac run_unfold :=
  unfold emit, log, call, lift_outcome in *;
  unfold mbind, M_bind, bind, mret, M_ret, ret, get, modify, throw, park in *.

Ltac run_simpl :=
  run_unfold;
  unfold same_target, set_trace, set_outside, set_glog, set_statsif, set_chans, set_xactinp,
    set_prefetchQueue in *;
  cbn [fst snd si smap bmdowner starttime xactinp prefetchQueue chans statsif glog
       trace outside] in *.

Ltac list_eq :=
  repeat first [ rewrite <- app_assoc | rewrite <- app_comm_cons
               | progress cbn [app signal handler_make handler_wait] ];
  reflexivity.

Ltac states :=
  repeat match goal with x := _ : targetrunner |- _ => subst x end; run_simpl.

(** *** Range strings by their fields *)

(** One side of a range string: empty means unset, else the number that
    [ParseInt] reads. *)
Definition bound_of (field : string) : Z * option strconv.NumError :=
  if String.eqb field "" then (0, None) else strconv.ParseInt field.

(** [min ":" max], and a third field after a second colon. *)
Definition range_string (min max : string) : string := min +:+ String ":" max.

(** *** The pages of a cloud listing *)

(** The entries of [n] pages in a row, from the request [msg] on: each
    page is asked for with the prefix of [msg] and the marker that the
    page before it gave. *)
Fixpoint pages_from (page_of : GetMsg -> BucketList) (n : nat) (msg : GetMsg)
  : list BucketEntry :=
  match n with
  | O => []
  | S n' =>
      Entries (page_of msg)
      ++ pages_from page_of n'
           {| GetPrefix := GetPrefix msg; GetPageMarker := PageMarker (page_of msg) |}
  end.

(** The text after the first "/" of a string, nothing when it has none. *)
Fixpoint after_slash (s : string) : string :=
  match s with
  | EmptyString => EmptyString
  | String c s' => if Ascii.eqb c "/" then s' else after_slash s'
  end.

(** *** More of the sample daemon *)

Section MoreSample.
Import sample.

(** Target [t1] with a cluster map that has lost its targets. *)
Definition no_targets : targetrunner :=
  {| si := t1; smap := {| Tmap := ∅; Pmap := ∅; Smap_Version := 0 |};
     bmdowner := buckets; starttime := 100; xactinp := []; prefetchQueue := [];
     chans := []; statsif := ∅; glog := []; trace := [];
     outside := {| clock := 1000; tick := 1; broken := []; next_id := 1 |} |}.

(** The sample daemon with the abort signal of every xaction closed. *)
Definition aborted : Outside := {|
  ext := world;
  time_Now := @time_Now env;
  abrt_closed := fun _ _ => true;
  uniqueid := @uniqueid env;
  restAPIItems_checked := @restAPIItems_checked env;
  fildelete := @fildelete env;
  fqn := @fqn env;
  lookupLocally := @lookupLocally env;
  ValidateWarmGet := @ValidateWarmGet env;
  versioningConfigured := @versioningConfigured env;
  checkCloudVersion := @checkCloudVersion env;
  coldget := @coldget env;
  glog_V := @glog_V env;
  listbucket := @listbucket env;
  json_Unmarshal_BucketList := @json_Unmarshal_BucketList env;
  prepareLocalObjectList := @prepareLocalObjectList env
|}.

Definition aborted_target : @targetrunner aborted :=
  @Build_targetrunner aborted t1 cluster buckets 100 [] [] [] ∅ [] []
    {| clock := 1000; tick := 1; broken := []; next_id := 1 |}.

(** The sample daemon with a cloud whose listing never ends.  The bytes
    of a page are the prefix and the marker of the request, "prefix/marker";
    the page holds the one entry of that name, and its marker for the next
    page is the marker of the request with an "i" more. *)
Definition paged : Outside := {|
  ext := world;
  time_Now := @time_Now env;
  abrt_closed := @abrt_closed env;
  uniqueid := @uniqueid env;
  restAPIItems_checked := @restAPIItems_checked env;
  fildelete := @fildelete env;
  fqn := @fqn env;
  lookupLocally := @lookupLocally env;
  ValidateWarmGet := @ValidateWarmGet env;
  versioningConfigured := @versioningConfigured env;
  checkCloudVersion := @checkCloudVersion env;
  coldget := @coldget env;
  glog_V := @glog_V env;
  listbucket := fun _ msg w => ((GetPrefix msg +:+ "/" +:+ GetPageMarker msg, "", 0), w);
  json_Unmarshal_BucketList := fun jsbytes =>
    Some {| Entries := [ {| Name := jsbytes |} ];
            PageMarker := after_slash jsbytes +:+ "i" |};
  prepareLocalObjectList := @prepareLocalObjectList env
|}.

Definition paged_page (msg : GetMsg) : BucketList :=
  {| Entries := [ {| Name := GetPrefix msg +:+ "/" +:+ GetPageMarker msg |} ];
     PageMarker := after_slash (GetPrefix msg +:+ "/" +:+ GetPageMarker msg) +:+ "i" |}.

Definition paged_target : @targetrunner paged :=
  @Build_targetrunner paged t1 cluster buckets 100 [] [] [] ∅ [] []
    {| clock := 1000; tick := 1; broken := []; next_id := 1 |}.



(** Target [t1] while a prefetch xaction is live and a batch is queued. *)
Definition busy_target : targetrunner :=
  {| si := t1; smap := cluster; bmdowner := buckets; starttime := 100;
     xactinp := [ XPrefetch {| xpre_base := {| id := 7; kind := ActPrefetch;
                                              stime := 900; etime := 0 |};
                               xpre_targetrunner := Some this_targetrunner |} ];
     prefetchQueue := [queued_batch];
     chans := [ {| chan_cap := 1; chan_len := 0; chan_closed := false |} ];
     statsif := ∅; glog := []; trace := [];
     outside := {| clock := 1000; tick := 1; broken := []; next_id := 8 |} |}.

End MoreSample.

(** *** The prefetch queue and the registry *)

(** The absolute deadline that a batch is queued with. *)
Definition queued_deadline `{Outside} (deadline : Z) (t : targetrunner) : Z :=
  if deadline =? 0 then 0 else (time_Now (outside t)).1 + deadline.

(** The live prefetch xactions of a registry: what [findU] looks for. *)
Definition live_prefetch (q : list xaction) : list xaction :=
  List.filter (fun x =>
    String.eqb (kind (xaction_base x)) ActPrefetch && negb (finished (xaction_base x))) q.

(** A counter of the statistics, 0 while it was never added to. *)
Definition counter `{Outside} (name : string) (t : targetrunner) : Z :=
  default 0 (statsif t !! name).

(** A request whose wait flag came as a string. *)
Definition string_wait_request : gmap string json :=
  <["deadline" := JString "90s"]> (<["wait" := JString "true"]> ∅).

(** *** Fields of a request map *)

(** What the "deadline" and the "wait" of a map stand for when they are
    absent or well formed. *)
Definition deadline_field `{Durations} (jsmap : gmap string json) : option Z :=
  match jsmap !! "deadline" with
  | None => Some defaultDeadline
  | Some (JString s) => ParseDuration s
  | Some _ => None
  end.

Definition wait_field (jsmap : gmap string json) : option bool :=
  match jsmap !! "wait" with
  | None => Some defaultWait
  | Some (JBool b) => Some b
  | Some _ => None
  end.

Definition is_JString (v : json) : bool :=
  match v with
  | JString _ => true
  | _ => false
  end.

Definition is_JBool (v : json) : bool :=
  match v with
  | JBool _ => true
  | _ => false
  end.

(** A "deadline" that is present and not a string, with the panic of the
    failed type assertion. *)
Definition bad_deadline (jsmap : gmap string json) (p : panic) : Prop :=
  p = TypeAssertion /\ exists v, jsmap !! "deadline" = Some v /\ is_JString v = false.

(** * Properties *)

(** ** Message parsing *)

Example parseRange_signs : parseRange "-7:+9" = Returned (-7, 9, None).
Proof. vm_compute. reflexivity. Qed.

Example parseRange_bad_max :
  parseRange "3:x" = Returned (3, 0, Some strconv.ErrSyntax).
Proof. vm_compute. reflexivity. Qed.

Example parseRange_bad_min :
  parseRange "x:5" = Returned (0, 0, Some strconv.ErrSyntax).
Proof. vm_compute. reflexivity. Qed.

Example parseRange_too_big :
  parseRange "9223372036854775808:" = Returned (2 ^ 63 - 1, 0, Some strconv.ErrRange).
Proof. vm_compute. reflexivity. Qed.

Example parseRange_extra_colon : parseRange "3:5:9" = Returned (3, 5, None).
Proof. vm_compute. reflexivity. Qed.

(** C6: parseRange gives (0,0) on the empty string, (0,5) on ":5", (3,0) on
    "3:" and (3,5) on "3:5", each time without an error. *)
Theorem parseRange_table :
  parseRange "" = Returned (0, 0, None) /\
  parseRange ":5" = Returned (0, 5, None) /\
  parseRange "3:" = Returned (3, 0, None) /\
  parseRange "3:5" = Returned (3, 5, None).
Proof. repeat split; vm_compute; reflexivity. Qed.

Lemma prefix_colon c s :
  String.prefix ":" (String c s) = Ascii.eqb c ":".
Proof.
  cbn [String.prefix]. destruct (ascii_dec ":" c) as [<-|Hne].
  - destruct s; reflexivity.
  - destruct (Ascii.eqb_spec c ":"); congruence.
Qed.

Lemma append_empty_r (s : string) : s +:+ "" = s.
Proof.
  induction s as [|c s IH]; [reflexivity|].
  change (String c (s +:+ "") = String c s). now rewrite IH.
Qed.

Lemma append_snoc (cur : string) c s :
  (cur +:+ String c "") +:+ s = cur +:+ String c s.
Proof.
  induction cur as [|d cur IH]; [reflexivity|].
  change (String d ((cur +:+ String c "") +:+ s) = String d (cur +:+ String c s)).
  now rewrite IH.
Qed.

Lemma Split_scan_colon_free s : forall cur,
  strings.ContainsByte s ":" = false ->
  strings.Split_scan ":" O cur s = [cur +:+ s].
Proof.
  induction s as [|c s IH]; intros cur Hs.
  - cbn [strings.Split_scan]. now rewrite append_empty_r.
  - cbn [strings.ContainsByte] in Hs. apply orb_false_elim in Hs as [Hc Hs].
    cbn [strings.Split_scan]. rewrite prefix_colon, Hc, IH by exact Hs.
    now rewrite append_snoc.
Qed.

Lemma Split_colon_free s :
  strings.ContainsByte s ":" = false -> strings.Split s ":" = [s].
Proof. intros Hs. unfold strings.Split. now rewrite Split_scan_colon_free. Qed.

(** A range string without a colon that starts with a number: the split
    has one element and [ranges[1]] is out of range. *)
Lemma parseRange_colon_free_number s i :
  s <> "" -> strings.ContainsByte s ":" = false ->
  strconv.ParseInt s = (i, None) ->
  parseRange s = Panicked (IndexOutOfRange 1 1).
Proof.
  intros Hne Hs Hi. unfold parseRange.
  destruct (String.eqb_spec s "") as [->|_]; [congruence|].
  rewrite Split_colon_free by exact Hs. cbn [index lookup list_lookup obind].
  destruct (String.eqb_spec s "") as [->|_]; [congruence|].
  rewrite Hi. reflexivity.
Qed.

(** One that does not start with a number is refused before [ranges[1]]
    is read. *)
Lemma parseRange_colon_free_not_number s i e :
  s <> "" -> strings.ContainsByte s ":" = false ->
  strconv.ParseInt s = (i, Some e) ->
  parseRange s = Returned (i, 0, Some e).
Proof.
  intros Hne Hs Hi. unfold parseRange.
  destruct (String.eqb_spec s "") as [->|_]; [congruence|].
  rewrite Split_colon_free by exact Hs. cbn [index lookup list_lookup obind].
  destruct (String.eqb_spec s "") as [->|_]; [congruence|].
  rewrite Hi. reflexivity.
Qed.

(** C7: there is a non-empty range string without ':' (the bare number
    "3") on which parseRange splits into one element and then reads
    ranges[1], an index out of range. *)
Theorem parseRange_bare_number_out_of_range :
  exists rangestr,
    rangestr <> "" /\
    strings.ContainsByte rangestr ":" = false /\
    strings.Split rangestr ":" = [rangestr] /\
    parseRange rangestr = Panicked (IndexOutOfRange 1 1).
Proof.
  exists "3". split; [discriminate|]. split; [reflexivity|].
  split; [reflexivity|].
  apply (parseRange_colon_free_number "3" 3); [discriminate|reflexivity|reflexivity].
Qed.

(** *** [strconv.ParseInt] against the decimal numerals *)

Lemma decimal_value_ge s : forall acc v,
  0 <= acc -> decimal_value s acc = Some v -> acc <= v.
Proof.
  induction s as [|c s IH]; intros acc v Hacc; cbn [decimal_value].
  - intros Hv. injection Hv as <-. lia.
  - unfold is_decimal_digit. destruct (_ && _) eqn:Hd; [|discriminate].
    intros Hv. apply IH in Hv; lia.
Qed.

(** The digit loop returns without an error exactly on the strings of
    decimal digits whose value fits 64 bits, and returns that value. *)
Lemma ParseUint_loop_decimal s : forall n v,
  0 <= n <= strconv.maxUint64 ->
  strconv.ParseUint_loop s n = (v, None) <->
  decimal_value s n = Some v /\ v <= strconv.maxUint64.
Proof.
  unfold strconv.maxUint64, strconv.cutoff10.
  induction s as [|c s IH]; intros n v Hn;
    cbn [strconv.ParseUint_loop decimal_value].
  - split.
    + intros Hv. injection Hv as <-. split; [reflexivity|lia].
    + intros [Hv _]. injection Hv as <-. reflexivity.
  - unfold is_decimal_digit. destruct (_ && _) eqn:Hd.
    2:{ split; [discriminate|]. intros [Hv _]. discriminate. }
    apply andb_true_iff in Hd as [Hlo Hhi].
    set (d := strconv.byte_val c - 48) in *.
    assert (Hdr : 0 <= d <= 9) by lia.
    unfold strconv.cutoff10, strconv.maxUint64.
    change ((2 ^ 64 - 1) / 10 + 1) with 1844674407370955162.
    destruct (Z.leb_spec 1844674407370955162 n) as [Hbig|Hsmall].
    { split; [discriminate|]. intros [Hv Hfit].
      apply decimal_value_ge in Hv; lia. }
    destruct (Z.leb_spec (2 ^ 64) (n * 10 + d)) as [Hover|Hfit].
    + (* the sum wraps around *)
      assert (Hmod : (n * 10 + d) mod 2 ^ 64 = n * 10 + d - 2 ^ 64).
      { symmetry. apply (Z.mod_unique_pos _ _ 1); lia. }
      rewrite Hmod.
      destruct (Z.ltb_spec (n * 10 + d - 2 ^ 64) (n * 10)) as [_|Habs]; [|lia].
      cbn [orb]. split; [discriminate|]. intros [Hv Hle].
      apply decimal_value_ge in Hv; lia.
    + rewrite Z.mod_small by lia.
      destruct (Z.ltb_spec (n * 10 + d) (n * 10)) as [Habs|_]; [lia|].
      destruct (Z.ltb_spec (2 ^ 64 - 1) (n * 10 + d)) as [Habs|_]; [lia|].
      cbn [orb]. apply IH. lia.
Qed.

(** A numeral without a sign: [ParseInt] gives its value when it fits
    int64 and an error otherwise. *)
Lemma ParseInt_decimal c s v :
  is_decimal_digit c = true ->
  decimal_value (String c s) 0 = Some v ->
  strconv.ParseInt (String c s)
  = if v <? 2 ^ 63 then (v, None) else (2 ^ 63 - 1, Some strconv.ErrRange).
Proof.
  intros Hc Hv. unfold strconv.ParseInt.
  assert (Hplus : Ascii.eqb c "+" = false).
  { destruct (Ascii.eqb_spec c "+") as [->|]; [discriminate Hc|reflexivity]. }
  assert (Hminus : Ascii.eqb c "-" = false).
  { destruct (Ascii.eqb_spec c "-") as [->|]; [discriminate Hc|reflexivity]. }
  rewrite Hplus, Hminus. unfold strconv.ParseUint.
  pose proof (ParseUint_loop_decimal (String c s) 0) as Hloop.
  assert (H0 : 0 <= 0 <= strconv.maxUint64) by (unfold strconv.maxUint64; lia).
  destruct (strconv.ParseUint_loop (String c s) 0) as [un [[]|]] eqn:Hun.
  - (* a syntax error is excluded: every byte is a digit *)
    exfalso. revert Hun. clear Hloop.
    assert (Hgen : forall s n v, decimal_value s n = Some v ->
              forall m un, strconv.ParseUint_loop s m <> (un, Some strconv.ErrSyntax)).
    { clear. induction s as [|c s IH]; intros n v Hv m un;
        cbn [strconv.ParseUint_loop decimal_value] in *; [discriminate|].
      unfold is_decimal_digit in Hv. destruct (_ && _); [|discriminate].
      destruct (_ <=? m); [discriminate|]. destruct (_ || _); [discriminate|].
      eapply IH. exact Hv. }
    apply (Hgen _ _ _ Hv).
  - (* a range error: the value does not fit 64 bits *)
    assert (Hbig : ~ v <= strconv.maxUint64).
    { intros Hle. destruct (Hloop v H0) as [_ Hback].
      specialize (Hback (conj Hv Hle)). congruence. }
    assert (Hmax : un = strconv.maxUint64).
    { revert Hun. clear. revert un. generalize 0.
      induction (String c s) as [|c' s' IH]; intros n un;
        cbn [strconv.ParseUint_loop]; [discriminate|].
      destruct (_ && _); [|discriminate].
      destruct (_ <=? n); [intros Hr; injection Hr as <-; reflexivity|].
      destruct (_ || _); [intros Hr; injection Hr as <-; reflexivity|]. apply IH. }
    subst un. unfold strconv.maxUint64 in *.
    destruct (Z.ltb_spec v (2 ^ 63)); [lia|]. reflexivity.
  - destruct (Hloop un H0) as [Hfwd _]. destruct (Hfwd eq_refl) as [Hv' Hle].
    assert (un = v) by congruence. subst un.
    cbn [negb andb]. destruct (Z.leb_spec (2 ^ 63) v); destruct (Z.ltb_spec v (2 ^ 63));
      try lia; reflexivity.
Qed.

Example ParseInt_decimal_12 : strconv.ParseInt "12" = (12, None).
Proof. apply (ParseInt_decimal "1" "2" 12); reflexivity. Qed.

(** ** The regex/range acceptance test *)

Section AcceptRegexRange.
Context `{RegexpEngine}.

Lemma acceptRegexRange_no_match name prefix re min max :
  FindStringSubmatch re (strings.TrimPrefix name prefix) = None ->
  acceptRegexRange name prefix re min max = false.
Proof. intros Hm. unfold acceptRegexRange. now rewrite Hm. Qed.

Lemma acceptRegexRange_empty_match name prefix re min max subs :
  FindStringSubmatch re (strings.TrimPrefix name prefix) = Some ("", subs) ->
  acceptRegexRange name prefix re min max = true.
Proof. intros Hm. unfold acceptRegexRange. rewrite Hm. reflexivity. Qed.

Lemma acceptRegexRange_not_number name prefix re min max s0 subs i e :
  FindStringSubmatch re (strings.TrimPrefix name prefix) = Some (s0, subs) ->
  s0 <> "" -> strconv.ParseInt s0 = (i, Some e) ->
  acceptRegexRange name prefix re min max = false.
Proof.
  intros Hm Hne Hi. unfold acceptRegexRange, nonempty. rewrite Hm, Hi.
  destruct (String.eqb_spec s0 ""); [congruence|]. reflexivity.
Qed.

Lemma in_range_bool min max i :
  ((min =? 0) || (min <=? i)) && ((max =? 0) || (i <=? max)) = true <->
  in_range min max i.
Proof. unfold in_range. lia. Qed.

Lemma acceptRegexRange_number name prefix re min max s0 subs i :
  FindStringSubmatch re (strings.TrimPrefix name prefix) = Some (s0, subs) ->
  s0 <> "" -> strconv.ParseInt s0 = (i, None) ->
  acceptRegexRange name prefix re min max = true <-> in_range min max i.
Proof.
  intros Hm Hne Hi. unfold acceptRegexRange, nonempty. rewrite Hm, Hi.
  destruct (String.eqb_spec s0 ""); [congruence|].
  cbn [bool_decide andb orb negb]. rewrite <- in_range_bool.
  rewrite bool_decide_eq_false_2 by (intros [? ?]; discriminate).
  cbn [andb]. destruct (_ && _); split; congruence.
Qed.

(** C5: acceptRegexRange is true exactly when the regex matches the name
    without its prefix and the whole match is empty or parses (ParseInt,
    base 10, 64 bits) as an integer within the bounds, 0 being an unset
    bound; it is false when the match is non-empty and is not a number or
    is a number outside the bounds; and asking again gives the same answer,
    for one name and for a list of names filtered twice. *)
Theorem acceptRegexRange_spec name prefix re min max :
  (acceptRegexRange name prefix re min max = true <->
   exists s0 subs,
     FindStringSubmatch re (strings.TrimPrefix name prefix) = Some (s0, subs) /\
     (s0 = "" \/
      exists i, strconv.ParseInt s0 = (i, None) /\ in_range min max i)) /\
  (forall s0 subs,
     FindStringSubmatch re (strings.TrimPrefix name prefix) = Some (s0, subs) ->
     s0 <> "" ->
     (exists i e, strconv.ParseInt s0 = (i, Some e)) \/
     (exists i, strconv.ParseInt s0 = (i, None) /\ ~ in_range min max i) ->
     acceptRegexRange name prefix re min max = false) /\
  acceptRegexRange name prefix re min max = acceptRegexRange name prefix re min max /\
  (forall names,
     List.filter (fun n => acceptRegexRange n prefix re min max)
       (List.filter (fun n => acceptRegexRange n prefix re min max) names)
     = List.filter (fun n => acceptRegexRange n prefix re min max) names).
Proof.
  split; [|split; [|split]].
  - destruct (FindStringSubmatch re (strings.TrimPrefix name prefix))
      as [[s0 subs]|] eqn:Hm.
    + destruct (String.eqb_spec s0 "") as [->|Hne].
      * rewrite (acceptRegexRange_empty_match _ _ _ _ _ _ Hm).
        split; [|reflexivity]. intros _. exists "", subs. auto.
      * destruct (strconv.ParseInt s0) as [i [e|]] eqn:Hi.
        -- rewrite (acceptRegexRange_not_number _ _ _ _ _ _ _ _ _ Hm Hne Hi).
           split; [discriminate|].
           intros (s1 & subs1 & Heq & [->|(j & Hj & _)]); congruence.
        -- rewrite (acceptRegexRange_number _ _ _ min max _ _ _ Hm Hne Hi).
           split.
           ++ intros Hr. exists s0, subs. split; [reflexivity|]. right. eauto.
           ++ intros (s1 & subs1 & Heq & [->|(j & Hj & Hr)]); [congruence|].
              congruence.
    + rewrite (acceptRegexRange_no_match _ _ _ _ _ Hm).
      split; [discriminate|]. intros (s0 & subs & Heq & _). discriminate.
  - intros s0 subs Hm Hne [(i & e & Hi)|(i & Hi & Hout)].
    + eapply acceptRegexRange_not_number; eauto.
    + destruct (acceptRegexRange name prefix re min max) eqn:Ha; [|reflexivity].
      exfalso. apply Hout.
      now apply (acceptRegexRange_number _ _ _ min max _ _ _ Hm Hne Hi).
  - reflexivity.
  - intros names. induction names as [|n names IH]; [reflexivity|].
    cbn [List.filter].
    destruct (acceptRegexRange n prefix re min max) eqn:Hn; [|exact IH].
    cbn [List.filter]. rewrite Hn, IH. reflexivity.
Qed.

End AcceptRegexRange.

Example acceptRegexRange_in_bounds :
  @acceptRegexRange sample.regexp "shard-10" "shard-" sample.Digits 8 200 = true.
Proof. vm_compute. reflexivity. Qed.

Example acceptRegexRange_below_min :
  @acceptRegexRange sample.regexp "shard-7" "shard-" sample.Digits 8 200 = false.
Proof. vm_compute. reflexivity. Qed.

Example acceptRegexRange_unset_max :
  @acceptRegexRange sample.regexp "shard-123" "shard-" sample.Digits 8 0 = true.
Proof. vm_compute. reflexivity. Qed.

Example acceptRegexRange_too_long_a_number :
  @acceptRegexRange sample.regexp "shard-99999999999999999999" "shard-" sample.Digits 0 0 = false.
Proof. vm_compute. reflexivity. Qed.

Example acceptRegexRange_empty_match_of_any_name :
  @acceptRegexRange sample.regexp "readme" "shard-" sample.Anything 8 200 = true.
Proof. vm_compute. reflexivity. Qed.

(** ** The local-ownership filter *)

Section Ownership.
Context `{RegexpEngine} `{Placer}.

Lemma listOperation_loop_owned bucket tsmap self objnames : forall objs,
  Forall (hashes bucket tsmap) objnames ->
  listOperation_loop bucket tsmap self objnames objs
  = Returned (inl (objs ++ List.filter (owned bucket tsmap self) objnames)).
Proof.
  induction objnames as [|obj rest IH]; intros objs Hall.
  - cbn. now rewrite app_nil_r.
  - inversion Hall as [|? ? [d Hd] Hrest]; subst.
    cbn [listOperation_loop List.filter]. unfold owned at 1. rewrite Hd.
    cbn [nonempty String.eqb negb].
    destruct (String.eqb (DaemonID d) self).
    + rewrite IH by exact Hrest. now rewrite <- app_assoc.
    + now rewrite IH.
Qed.

(** The first object that HRW refuses ends the loop with the error
    string; the handler then answers with it and does no work. *)
Lemma listOperation_loop_error bucket tsmap self pre obj post objs si errstr :
  Forall (hashes bucket tsmap) pre ->
  HrwTarget bucket obj tsmap = (si, errstr) -> errstr <> "" ->
  listOperation_loop bucket tsmap self (pre ++ obj :: post) objs
  = Returned (inr errstr).
Proof.
  intros Hpre Hobj Hne. revert objs.
  induction Hpre as [|o pre [d Hd] _ IH]; intros objs.
  - cbn. rewrite Hobj. unfold nonempty.
    destruct (String.eqb_spec errstr ""); [congruence|reflexivity].
  - cbn [app listOperation_loop]. rewrite Hd. cbn [nonempty String.eqb negb].
    destruct (String.eqb (DaemonID d) self); apply IH.
Qed.

Lemma getListFromRange_loop_owned bucket prefix re min max tsmap self entries :
  forall objs,
  Forall (fun be => hashes bucket tsmap (Name be)) entries ->
  getListFromRange_loop bucket prefix re min max tsmap self entries objs
  = inl (objs ++ List.filter (owned bucket tsmap self)
                   (List.filter (fun n => acceptRegexRange n prefix re min max)
                      (map Name entries))).
Proof.
  induction entries as [|be rest IH]; intros objs Hall.
  - cbn. now rewrite app_nil_r.
  - inversion Hall as [|? ? [d Hd] Hrest]; subst.
    cbn [getListFromRange_loop map List.filter].
    destruct (acceptRegexRange (Name be) prefix re min max); cbn [negb].
    + cbn [List.filter]. unfold owned at 1. rewrite Hd.
      cbn [nonempty String.eqb negb].
      destruct (String.eqb (DaemonID d) self).
      * rewrite IH by exact Hrest. now rewrite <- app_assoc.
      * now rewrite IH.
    + now rewrite IH.
Qed.

(** C4: on a cluster map where the objects hash to targets, the loop of
    listOperation keeps exactly the object names whose HRW target is this
    target, in their order, and drops the others without an error; the loop
    of getListFromRange keeps, of the names that pass acceptRegexRange,
    exactly those with the same owner test. *)
Theorem ownership_filter bucket tsmap self objnames prefix re min max entries :
  Forall (hashes bucket tsmap) objnames ->
  Forall (fun be => hashes bucket tsmap (Name be)) entries ->
  listOperation_loop bucket tsmap self objnames []
  = Returned (inl (List.filter (owned bucket tsmap self) objnames)) /\
  getListFromRange_loop bucket prefix re min max tsmap self entries []
  = inl (List.filter (owned bucket tsmap self)
           (List.filter (fun n => acceptRegexRange n prefix re min max)
              (map Name entries))).
Proof.
  intros Hobjs Hentries. split.
  - now rewrite listOperation_loop_owned.
  - now rewrite getListFromRange_loop_owned.
Qed.

End Ownership.

Lemma ownership_filter_witness :
  @listOperation_loop sample.placer "lb" sample.cluster "t1" ["ab"; "abc"; "abcd"] []
  = Returned (inl ["ab"; "abcd"]) /\
  @getListFromRange_loop sample.regexp sample.placer "lb" "shard-" sample.Digits 8 200
    sample.cluster "t1"
    [ {| Name := "shard-7" |}; {| Name := "shard-10" |}; {| Name := "shard-123" |};
      {| Name := "readme" |} ] []
  = inl ["shard-10"].
Proof.
  refine (@ownership_filter sample.regexp sample.placer "lb" sample.cluster "t1"
            ["ab"; "abc"; "abcd"] "shard-" sample.Digits 8 200
            [ {| Name := "shard-7" |}; {| Name := "shard-10" |};
              {| Name := "shard-123" |}; {| Name := "readme" |} ] _ _).
  - repeat constructor; eexists; vm_compute; reflexivity.
  - repeat constructor; eexists; vm_compute; reflexivity.
Defined.

(** ** Running the methods of the target *)

Section Methods.
Context `{RegexpEngine} `{Placer} `{Outside}.

Lemma islocal_true (m : bucketMD) bucket :
  is_Some (LBmap m !! bucket) -> islocal m bucket = true.
Proof. intros Hb. unfold islocal. now apply bool_decide_eq_true_2. Qed.

(** C3: when the bucket is local in the bucket metadata of the target,
    addPrefetchList and addPrefetchRange return the error "Cannot prefetch
    from a local bucket" as their result and leave the target as it was:
    nothing is put on the prefetch queue and, for a range, nothing is
    listed. *)
Theorem prefetch_of_local_bucket_refused (t : targetrunner)
  objs bucket prefix regex min max deadline done :
  is_Some (LBmap (bmdowner t) !! bucket) ->
  addPrefetchList objs bucket deadline done t
  = (Returned (Some (ErrLocalBucketPrefetch bucket)), t) /\
  addPrefetchRange bucket prefix regex min max deadline done t
  = (Returned (Some (ErrLocalBucketPrefetch bucket)), t) /\
  prefetchQueue (addPrefetchList objs bucket deadline done t).2 = prefetchQueue t /\
  prefetchQueue (addPrefetchRange bucket prefix regex min max deadline done t).2
  = prefetchQueue t.
Proof.
  intros Hlocal. apply islocal_true in Hlocal.
  assert (Hl : addPrefetchList objs bucket deadline done t
               = (Returned (Some (ErrLocalBucketPrefetch bucket)), t)).
  { unfold addPrefetchList. run_unfold. now rewrite Hlocal. }
  assert (Hr : addPrefetchRange bucket prefix regex min max deadline done t
               = (Returned (Some (ErrLocalBucketPrefetch bucket)), t)).
  { unfold addPrefetchRange. run_unfold. now rewrite Hlocal. }
  rewrite Hl, Hr. auto.
Qed.

(** *** Xactions and their back-reference to the runner *)



Lemma new_delete_evict_run (k : string) (t : targetrunner) :
  exists xdel t',
    (t0 ← get;
     i ← call (uniqueid (xactinp t0));
     b ← newxactBase i k;
     let xpre := {| xdel_base := b; xdel_targetrunner := None |} in
     xactinp_add (XDeleteEvict xpre);;
     mret xpre) t = (Returned xdel, t') /\
    kind (xdel_base xdel) = k /\
    xdel_targetrunner xdel = None /\
    xactinp t' = xactinp t ++ [XDeleteEvict xdel] /\
    trace t' = trace t ++ [EvXactAdd (id (xdel_base xdel)) k] /\
    chans t' = chans t /\ prefetchQueue t' = prefetchQueue t /\
    statsif t' = statsif t /\ glog t' = glog t.
Proof.
  unfold newxactBase, xactinp_add. run_unfold. cbn.
  destruct (uniqueid (xactinp t) (outside t)) as [i e] eqn:Hi. cbn.
  destruct (time_Now e) as [now e'] eqn:Hnow. cbn.
  eexists _, _. split; [reflexivity|]. cbn. auto 10.
Qed.


End Methods.

Lemma prefetch_of_local_bucket_refused_witness :
  @addPrefetchList sample.env ["ab"; "abcd"] "lb" 0 None (sample.target [])
  = (Returned (Some (ErrLocalBucketPrefetch "lb")), sample.target []) /\
  @addPrefetchRange sample.regexp sample.placer sample.env "lb" "shard-" "[0-9]+" 8 200 0 None
    (sample.target [])
  = (Returned (Some (ErrLocalBucketPrefetch "lb")), sample.target []) /\
  prefetchQueue (@addPrefetchList sample.env ["ab"; "abcd"] "lb" 0 None (sample.target [])).2
  = [] /\
  prefetchQueue (@addPrefetchRange sample.regexp sample.placer sample.env
                   "lb" "shard-" "[0-9]+" 8 200 0 None (sample.target [])).2
  = [].
Proof.
  refine (@prefetch_of_local_bucket_refused sample.regexp sample.placer sample.env
            (sample.target []) ["ab"; "abcd"] "lb" "shard-" "[0-9]+" 8 200 0 None _).
  vm_compute. eauto.
Defined.


(** *** A malformed range *)

Section RangeOperation.
Context `{RegexpEngine} `{Placer} `{Outside}.

(** After a range string that does not parse, the handler answers with the
    error and then goes on as for a well-formed range with the bounds that
    parseRange handed back. *)
Lemma rangeOperation_after_parse_error (t : targetrunner) path rangeMsg
  (operation : rangef) bucket more min max e :
  restAPIItems_checked path = Some (bucket :: more) ->
  parseRange (Range rangeMsg) = Returned (min, max, Some e) ->
  rangeOperation path rangeMsg operation t
  = (emit (EvInvalMsg (MsgErrorParsingRange (Range rangeMsg) e));;
     done ← (if Wait (RangeMsg_base rangeMsg)
             then ch ← make_chan 1; mret (Some ch)
             else mret None);
     go (err ← operation bucket (Prefix rangeMsg) (Regex rangeMsg) min max
                 (Deadline (RangeMsg_base rangeMsg)) done;
         match err with
         | Some e => log (LogRangeOperationError e);; statsif_add "numerr" 1
         | None => mret tt
         end);;
     if Wait (RangeMsg_base rangeMsg) then wait_done done else mret tt) t.
Proof.
  intros Hpath Hparse. unfold rangeOperation. rewrite Hpath, Hparse.
  reflexivity.
Qed.

End RangeOperation.

(** C8, on the code: for the range "8:x" parseRange fails on the
    maximum, and deleteRange answers the client with the parse error and
    still runs the delete, with the bounds 8 and 0 (unset): "shard-10" is
    deleted. *)
Theorem rangeOperation_runs_after_malformed_range :
  parseRange "8:x" = Returned (8, 0, Some strconv.ErrSyntax) /\
  (@deleteRange sample.regexp sample.placer sample.env "/v1/buckets/lb"
     (sample.range_msg "shard-" "[0-9]+" "8:x" true) (sample.target [])).1
  = Returned tt /\
  trace (@deleteRange sample.regexp sample.placer sample.env "/v1/buckets/lb"
           (sample.range_msg "shard-" "[0-9]+" "8:x" true) (sample.target [])).2
  = [ EvInvalMsg (MsgErrorParsingRange "8:x" strconv.ErrSyntax);
      EvMake 0; EvGo; EvXactAdd 1 "delete";
      EvFildelete "lb" "shard-10" false false;
      EvSend 0; EvXactDel 1; EvGoExit; EvRecv 0; EvClose 0 ].
Proof. repeat split; vm_compute; reflexivity. Qed.

(** ** Cluster-meta discovery *)

Section KeepMax.
Context {A R : Type} (version : A -> Z) (count : R -> option A).

Lemma fold_tally_step rs : forall cur,
  match fold_left (tally_step version count) rs cur with
  | None => cur = None /\ omap count rs = []
  | Some b =>
      (cur = Some b \/ b ∈ omap count rs) /\
      (forall c, cur = Some c -> version c <= version b) /\
      (forall x, x ∈ omap count rs -> version x <= version b)
  end.
Proof.
  induction rs as [|r rs IH]; intros cur.
  - cbn. destruct cur as [c|].
    + split; [auto|]. split; [intros c' Hc; injection Hc as <-; lia|].
      intros x Hx. inversion Hx.
    + auto.
  - cbn [fold_left omap list_omap].
    specialize (IH (tally_step version count cur r)).
    change (tally_step version count cur r)
      with (match count r with
            | Some x => keep_max version cur x
            | None => cur
            end) in *.
    destruct (count r) as [x|];
      destruct (fold_left (tally_step version count) rs _) as [b|].
    + destruct IH as (Hin & Hcur & Hall).
      assert (Hx : version x <= version b).
      { destruct cur as [c|]; unfold keep_max in Hcur.
        - destruct (version c <? version x) eqn:Hlt; [apply Hcur; reflexivity|].
          specialize (Hcur c eq_refl). lia.
        - apply Hcur. reflexivity. }
      split; [|split].
      * destruct Hin as [Hin|Hin]; [|right; now apply elem_of_cons; right].
        destruct cur as [c|]; unfold keep_max in Hin.
        -- destruct (version c <? version x).
           ++ injection Hin as ->. right. apply list_elem_of_here.
           ++ now left.
        -- injection Hin as ->. right. apply list_elem_of_here.
      * intros c ->. unfold keep_max in Hcur.
        destruct (version c <? version x) eqn:Hlt.
        -- specialize (Hcur x eq_refl). lia.
        -- apply Hcur. reflexivity.
      * intros y Hy. apply elem_of_cons in Hy as [->|Hy]; [exact Hx|now apply Hall].
    + destruct IH as [Hcur _]. destruct cur as [c|]; unfold keep_max in Hcur.
      * destruct (version c <? version x); discriminate.
      * discriminate.
    + exact IH.
    + exact IH.
Qed.

Lemma fold_tally_step_max rs :
  is_max_of version (omap count rs) (fold_left (tally_step version count) rs None).
Proof.
  pose proof (fold_tally_step rs None) as Hf. unfold is_max_of.
  destruct (fold_left (tally_step version count) rs None) as [b|].
  - destruct Hf as ([Hin|Hin] & _ & Hall); [discriminate|]. auto.
  - apply Hf.
Qed.

End KeepMax.

Section Discovery.
Import discovery.

Lemma tally_smap_step cur r :
  tally_smap cur r = tally_step Smap_Version smap_of cur r.
Proof.
  unfold tally_smap, tally_step, smap_of, keep_max.
  destruct r as [[[] [s|] b]|]; try reflexivity.
  destruct (Smap_Version s =? 0); reflexivity.
Qed.

Lemma tally_bmd_step cur r :
  tally_bmd cur r = tally_step bucketMD_Version bmd_of cur r.
Proof.
  unfold tally_bmd, tally_step, bmd_of, keep_max.
  destruct r as [[[] s [b|]]|]; try reflexivity.
  destruct (bucketMD_Version b =? 0); reflexivity.
Qed.

Lemma fold_left_ext {A B} (f g : A -> B -> A) (l : list B) (a : A) :
  (forall a b, f a b = g a b) -> fold_left f l a = fold_left g l a.
Proof.
  intros Hfg. revert a. induction l as [|b l IH]; intros a; cbn; [reflexivity|].
  now rewrite Hfg, IH.
Qed.

(** The tally holds, for each component on its own, a response of highest
    version among those that count. *)
Lemma tally_max rs :
  is_max_of Smap_Version (smaps_seen rs) (maxVerSmap (tally rs)) /\
  is_max_of bucketMD_Version (bmds_seen rs) (maxVerBucketMD (tally rs)).
Proof.
  unfold tally, smaps_seen, bmds_seen. cbn [maxVerSmap maxVerBucketMD]. split.
  - rewrite (fold_left_ext _ _ _ _ tally_smap_step). apply fold_tally_step_max.
  - rewrite (fold_left_ext _ _ _ _ tally_bmd_step). apply fold_tally_step_max.
Qed.

Lemma query_round_from srv n pending r :
  r ∈ (query_round srv n pending).1 -> exists p, p ∈ pending /\ r = srv p n.
Proof.
  induction pending as [|p rest IH]; cbn.
  - intros Hr. inversion Hr.
  - destruct (query_round srv n rest) as [rs still]. cbn in *.
    intros Hr. apply elem_of_cons in Hr as [->|Hr].
    + exists p. split; [apply list_elem_of_here|reflexivity].
    + destruct (IH Hr) as (q & Hq & ->). exists q. split; [|reflexivity].
      now apply elem_of_cons; right.
Qed.

Lemma query_round_still srv n pending p :
  p ∈ (query_round srv n pending).2 -> p ∈ pending.
Proof.
  induction pending as [|q rest IH]; cbn.
  - intros Hp. inversion Hp.
  - destruct (query_round srv n rest) as [rs still]. cbn in *.
    destruct (settled (srv q n)); intros Hp.
    + apply elem_of_cons. right. auto.
    + apply elem_of_cons in Hp as [->|Hp]; [apply list_elem_of_here|].
      apply elem_of_cons. right. auto.
Qed.

(** Every response received is the answer of a hinted peer to one of its
    calls. *)
Lemma received_from srv rounds : forall n pending r,
  r ∈ received srv rounds n pending ->
  exists p k, p ∈ pending /\ r = srv p k.
Proof.
  induction rounds as [|rounds IH]; intros n pending r; cbn.
  - intros Hr. inversion Hr.
  - pose proof (query_round_from srv n pending r) as Hfrom.
    pose proof (query_round_still srv n pending) as Hstill.
    destruct (query_round srv n pending) as [rs still]. cbn in *.
    intros Hr. apply elem_of_app in Hr as [Hr|Hr].
    + destruct (Hfrom Hr) as (p & Hp & ->). eauto.
    + destruct (IH _ _ _ Hr) as (p & k & Hp & ->). eauto.
Qed.

Lemma omap_all_none {A B} (f : A -> option B) (l : list A) :
  (forall x, x ∈ l -> f x = None) -> omap f l = [].
Proof.
  induction l as [|x l IH]; intros Hall; cbn; [reflexivity|].
  rewrite (Hall x) by apply list_elem_of_here.
  apply IH. intros y Hy. apply Hall. now apply elem_of_cons; right.
Qed.

(** Nothing found when no response counts for either component. *)
Lemma tally_nothing rs :
  (forall r, r ∈ rs -> smap_of r = None /\ bmd_of r = None) ->
  tally rs = {| maxVerSmap := None; maxVerBucketMD := None |}.
Proof.
  intros Hall. destruct (tally_max rs) as [Hs Hb]. unfold is_max_of in *.
  assert (Hs0 : smaps_seen rs = []).
  { apply omap_all_none. intros r Hr. now apply Hall. }
  assert (Hb0 : bmds_seen rs = []).
  { apply omap_all_none. intros r Hr. now apply Hall. }
  rewrite Hs0 in Hs. rewrite Hb0 in Hb.
  destruct (tally rs) as [[s|] [b|]]; cbn in *.
  - destruct Hs as [Hs _]. inversion Hs.
  - destruct Hs as [Hs _]. inversion Hs.
  - destruct Hb as [Hb _]. inversion Hb.
  - reflexivity.
Qed.

Lemma query_round_responses srv n pending :
  (query_round srv n pending).1 = map (fun p => srv p n) pending.
Proof.
  induction pending as [|p rest IH]; cbn; [reflexivity|].
  destruct (query_round srv n rest) as [rs still]. cbn in *. now rewrite IH.
Qed.

Lemma query_round_pending srv n pending p :
  p ∈ (query_round srv n pending).2 <-> p ∈ pending /\ settled (srv p n) = false.
Proof.
  induction pending as [|q rest IH]; cbn.
  - split; [intros Hp; inversion Hp|intros [Hp _]; inversion Hp].
  - destruct (query_round srv n rest) as [rs still]. cbn in *.
    destruct (settled (srv q n)) eqn:Hq.
    + rewrite IH, elem_of_cons. split; [intros [Hp Hs]; auto|].
      intros [[->|Hp] Hs]; [congruence|auto].
    + rewrite !elem_of_cons, IH. split.
      * intros [->|[Hp Hs]]; auto.
      * intros [[->|Hp] Hs]; auto.
Qed.

(** The responses received are the answers to the calls made: a pending
    peer is called once in every round, from call [n] on, until it has
    given a message that is not vote-in-progress. *)
Lemma received_calls srv rounds : forall n pending r,
  r ∈ received srv rounds n pending <->
  exists p k, p ∈ pending /\ (n <= k < n + rounds)%nat /\
              (forall j, (n <= j < k)%nat -> settled (srv p j) = false) /\
              r = srv p k.
Proof.
  induction rounds as [|rounds IH]; intros n pending r.
  - cbn. split; [intros Hr; inversion Hr|intros (p & k & _ & Hk & _); lia].
  - cbn [received].
    pose proof (query_round_responses srv n pending) as Hrs.
    pose proof (query_round_pending srv n pending) as Hstill.
    destruct (query_round srv n pending) as [rs still]. cbn [fst snd] in *. subst rs.
    rewrite elem_of_app, IH. split.
    + intros [Hr|(p & k & Hp & Hk & Hun & ->)].
      * apply list_elem_of_fmap in Hr as (p & -> & Hp).
        exists p, n. split; [exact Hp|]. split; [lia|]. split; [intros j Hj; lia|reflexivity].
      * apply Hstill in Hp as [Hp Hn]. exists p, k. split; [exact Hp|].
        split; [lia|]. split; [|reflexivity].
        intros j Hj. destruct (Nat.eq_dec j n) as [->|Hne]; [exact Hn|].
        apply Hun. lia.
    + intros (p & k & Hp & Hk & Hun & ->).
      destruct (Nat.eq_dec k n) as [->|Hne].
      * left. apply list_elem_of_fmap. eauto.
      * right. exists p, k. split; [apply Hstill; split; [exact Hp|apply Hun; lia]|].
        split; [lia|]. split; [intros j Hj; apply Hun; lia|reflexivity].
Qed.

(** The rounds before the deadline are the calls that start before it. *)
Lemma rounds_before_call_time now deadline interval k :
  (1 <= k < 1 + rounds_before now deadline interval)%nat
  <-> (1 <= k)%nat /\ call_time now interval k < deadline.
Proof.
  unfold rounds_before, call_time.
  set (iv := Z.max 1 interval). assert (Hiv : 1 <= iv) by (subst iv; lia).
  destruct (Z.leb_spec deadline now) as [Hle|Hlt].
  - split; [lia|]. intros [Hk Hd]. nia.
  - set (a := deadline - now + iv - 1).
    assert (Hq : 0 <= a / iv) by (apply Z.div_pos; subst a; lia).
    assert (Hiff : forall z, z <= a / iv <-> z * iv <= a).
    { intros z. split; intros Hz.
      - pose proof (Z.mul_div_le a iv ltac:(lia)). nia.
      - apply Z.div_le_lower_bound; lia. }
    split.
    + intros [Hk Hr]. split; [exact Hk|].
      assert (Hz : Z.of_nat k <= a / iv) by lia.
      apply Hiff in Hz. subst a. lia.
    + intros [Hk Hd]. split; [exact Hk|].
      assert (Hz : Z.of_nat k <= a / iv) by (apply Hiff; subst a; lia).
      lia.
Qed.

(** The responses of a discovery are the answers to its calls. *)
Lemma received_called srv now hint deadline interval r :
  r ∈ received srv (rounds_before now deadline interval) 1 (hinted hint)
  <-> exists p k, called srv now hint deadline interval p k /\ r = srv p k.
Proof.
  rewrite received_calls. unfold called. split.
  - intros (p & k & Hp & Hk & Hun & ->). exists p, k.
    apply rounds_before_call_time in Hk as [Hk Hd]. auto 10.
  - intros (p & k & (Hp & Hk & Hd & Hun) & ->). exists p, k.
    split; [exact Hp|]. split; [apply rounds_before_call_time; auto|]. auto.
Qed.

(** What a tally of the responses [rs] holds for one component, in terms
    of the responses. *)
Lemma tally_component {A} (version : A -> Z) (count : response -> option A)
  (rs : list response) (best : option A) :
  is_max_of version (omap count rs) best ->
  (forall b, best = Some b -> exists r, r ∈ rs /\ count r = Some b) /\
  (forall r x, r ∈ rs -> count r = Some x ->
     exists b, best = Some b /\ version x <= version b) /\
  (best = None <-> forall r, r ∈ rs -> count r = None).
Proof.
  unfold is_max_of. intros Hmax. destruct best as [b|].
  - destruct Hmax as [Hin Hall]. split; [|split].
    + intros b' Hb. injection Hb as <-.
      apply list_elem_of_omap in Hin as (r & Hr & Hc). eauto.
    + intros r x Hr Hc. exists b. split; [reflexivity|]. apply Hall.
      apply list_elem_of_omap. eauto.
    + split; [discriminate|]. intros Hnone.
      apply list_elem_of_omap in Hin as (r & Hr & Hc). rewrite (Hnone r Hr) in Hc.
      discriminate.
  - split; [discriminate|]. split.
    + intros r x Hr Hc. assert (Hx : x ∈ omap count rs) by (apply list_elem_of_omap; eauto).
      rewrite Hmax in Hx. inversion Hx.
    + split; [|reflexivity]. intros _ r Hr. destruct (count r) as [x|] eqn:Hc; [|reflexivity].
      assert (Hx : x ∈ omap count rs) by (apply list_elem_of_omap; eauto).
      rewrite Hmax in Hx. inversion Hx.
Qed.

(** C9, on the model of the spec.  A hinted peer is called at [now] and
    then once every retry interval while the call starts before the
    deadline, until it has given a message that is not vote-in-progress.
    For the Smap and for the bucket metadata each on its own,
    discoverClusterMeta returns a component that one of these calls gave in
    a message that is not vote-in-progress with a non-zero version of that
    component; every such component that a call gave is tallied, so the
    result is not nil and its version is at least that one's; and the
    result is nil exactly when no call gave such a component.  So the
    first answer of a hinted peer counts whenever [now] is before the
    deadline, and the result is (nil, nil) for an empty hint set, for
    peers whose calls all fail and for peers that always answer
    vote-in-progress. *)
Theorem discoverClusterMeta_max_version (srv : servers) (now : Z) (hint : Smap)
  (deadline interval : Z) :
  (forall s, maxVerSmap (discoverClusterMeta srv now hint deadline interval) = Some s ->
     exists p k, called srv now hint deadline interval p k /\ smap_of (srv p k) = Some s) /\
  (forall p k s, called srv now hint deadline interval p k -> smap_of (srv p k) = Some s ->
     exists best, maxVerSmap (discoverClusterMeta srv now hint deadline interval) = Some best /\
                  Smap_Version s <= Smap_Version best) /\
  (maxVerSmap (discoverClusterMeta srv now hint deadline interval) = None <->
   forall p k, called srv now hint deadline interval p k -> smap_of (srv p k) = None) /\
  (forall b, maxVerBucketMD (discoverClusterMeta srv now hint deadline interval) = Some b ->
     exists p k, called srv now hint deadline interval p k /\ bmd_of (srv p k) = Some b) /\
  (forall p k b, called srv now hint deadline interval p k -> bmd_of (srv p k) = Some b ->
     exists best,
       maxVerBucketMD (discoverClusterMeta srv now hint deadline interval) = Some best /\
       bucketMD_Version b <= bucketMD_Version best) /\
  (maxVerBucketMD (discoverClusterMeta srv now hint deadline interval) = None <->
   forall p k, called srv now hint deadline interval p k -> bmd_of (srv p k) = None) /\
  (forall p, p ∈ hinted hint -> now < deadline ->
     (forall s, smap_of (srv p 1%nat) = Some s ->
        exists best,
          maxVerSmap (discoverClusterMeta srv now hint deadline interval) = Some best /\
          Smap_Version s <= Smap_Version best) /\
     (forall b, bmd_of (srv p 1%nat) = Some b ->
        exists best,
          maxVerBucketMD (discoverClusterMeta srv now hint deadline interval) = Some best /\
          bucketMD_Version b <= bucketMD_Version best)) /\
  (hinted hint = [] ->
   discoverClusterMeta srv now hint deadline interval
   = {| maxVerSmap := None; maxVerBucketMD := None |}) /\
  ((forall p n, srv p n = None) ->
   discoverClusterMeta srv now hint deadline interval
   = {| maxVerSmap := None; maxVerBucketMD := None |}) /\
  ((forall p n, exists m, srv p n = Some m /\ VoteInProgress m = true) ->
   discoverClusterMeta srv now hint deadline interval
   = {| maxVerSmap := None; maxVerBucketMD := None |}).
Proof.
  unfold discoverClusterMeta.
  pose proof (received_called srv now hint deadline interval) as Hcalled.
  set (rs := received srv (rounds_before now deadline interval) 1 (hinted hint)) in *.
  destruct (tally_max rs) as [Hs Hb].
  apply tally_component in Hs as (Hs1 & Hs2 & Hs3).
  apply tally_component in Hb as (Hb1 & Hb2 & Hb3).
  assert (Hsmap : forall p k s, called srv now hint deadline interval p k ->
            smap_of (srv p k) = Some s ->
            exists best, maxVerSmap (tally rs) = Some best /\
                         Smap_Version s <= Smap_Version best).
  { intros p k s Hc Hsm. apply (Hs2 (srv p k)); [|exact Hsm]. apply Hcalled. eauto. }
  assert (Hbmd : forall p k b, called srv now hint deadline interval p k ->
            bmd_of (srv p k) = Some b ->
            exists best, maxVerBucketMD (tally rs) = Some best /\
                         bucketMD_Version b <= bucketMD_Version best).
  { intros p k b Hc Hbm. apply (Hb2 (srv p k)); [|exact Hbm]. apply Hcalled. eauto. }
  assert (Hfirst : forall p, p ∈ hinted hint -> now < deadline ->
            called srv now hint deadline interval p 1).
  { intros p Hp Hnow. split; [exact Hp|]. split; [lia|]. split.
    - unfold call_time. lia.
    - intros j Hj. lia. }
  split; [|split; [exact Hsmap|split; [|split; [|split; [exact Hbmd|split; [|split]]]]]].
  - intros s Hbest. destruct (Hs1 s Hbest) as (r & Hr & Hc).
    apply Hcalled in Hr as (p & k & Hpk & ->). eauto.
  - rewrite Hs3. split.
    + intros Hnone p k Hc. apply Hnone. apply Hcalled. eauto.
    + intros Hnone r Hr. apply Hcalled in Hr as (p & k & Hpk & ->). eauto.
  - intros b Hbest. destruct (Hb1 b Hbest) as (r & Hr & Hc).
    apply Hcalled in Hr as (p & k & Hpk & ->). eauto.
  - rewrite Hb3. split.
    + intros Hnone p k Hc. apply Hnone. apply Hcalled. eauto.
    + intros Hnone r Hr. apply Hcalled in Hr as (p & k & Hpk & ->). eauto.
  - intros p Hp Hnow. split.
    + intros s Hsm. exact (Hsmap p 1%nat s (Hfirst p Hp Hnow) Hsm).
    + intros b Hbm. exact (Hbmd p 1%nat b (Hfirst p Hp Hnow) Hbm).
  - split; [|split].
    + intros Hempty. apply tally_nothing. intros r Hr.
      apply received_from in Hr as (p & k & Hp & _). rewrite Hempty in Hp.
      inversion Hp.
    + intros Hfail. apply tally_nothing. intros r Hr.
      apply received_from in Hr as (p & k & _ & ->). rewrite Hfail. auto.
    + intros Hvote. apply tally_nothing. intros r Hr.
      apply received_from in Hr as (p & k & _ & ->).
      destruct (Hvote p k) as (m & -> & Hm). destruct m as [v s b]. cbn in Hm.
      subst v. auto.
Qed.

(** The rows of the table of [TestDiscoverServers], with the versions the
    test expects (0 for nil). *)
Example discover_empty_hint_map : run_case [] millisecond = (0, 0).
Proof. vm_compute. reflexivity. Qed.

Example discover_all_agreed :
  run_case [ {| ds_id := "p1"; isProxy := true; smapVersion := 1; bmdVersion := 2;
                httpHandler := discoverServerDefaultHandler |};
             {| ds_id := "t1"; isProxy := false; smapVersion := 1; bmdVersion := 2;
                httpHandler := discoverServerDefaultHandler |} ] millisecond
  = (1, 2).
Proof. vm_compute. reflexivity. Qed.

Example discover_mixed :
  run_case [ {| ds_id := "p1"; isProxy := true; smapVersion := 1; bmdVersion := 2;
                httpHandler := discoverServerDefaultHandler |};
             {| ds_id := "t1"; isProxy := false; smapVersion := 4; bmdVersion := 5;
                httpHandler := discoverServerDefaultHandler |};
             {| ds_id := "t2"; isProxy := false; smapVersion := 1; bmdVersion := 2;
                httpHandler := discoverServerDefaultHandler |} ] millisecond
  = (4, 5).
Proof. vm_compute. reflexivity. Qed.

Example discover_voting :
  run_case [ {| ds_id := "t1"; isProxy := false; smapVersion := 4; bmdVersion := 5;
                httpHandler := discoverServerVoteInProgressHandler |};
             {| ds_id := "t2"; isProxy := false; smapVersion := 1; bmdVersion := 2;
                httpHandler := discoverServerVoteInProgressHandler |} ]
    (300 * millisecond)
  = (0, 0).
Proof. vm_compute. reflexivity. Qed.

Example discover_voting_and_map_mixed :
  run_case [ {| ds_id := "t1"; isProxy := false; smapVersion := 4; bmdVersion := 5;
                httpHandler := discoverServerVoteInProgressHandler |};
             {| ds_id := "t2"; isProxy := false; smapVersion := 1; bmdVersion := 2;
                httpHandler := discoverServerDefaultHandler |} ]
    (300 * millisecond)
  = (1, 2).
Proof. vm_compute. reflexivity. Qed.

Example discover_vote_once :
  run_case [ {| ds_id := "t1"; isProxy := false; smapVersion := 4; bmdVersion := 5;
                httpHandler := discoverServerVoteOnceHandler |};
             {| ds_id := "t2"; isProxy := false; smapVersion := 1; bmdVersion := 2;
                httpHandler := discoverServerDefaultHandler |} ]
    (300 * millisecond)
  = (4, 5).
Proof. vm_compute. reflexivity. Qed.

Example discover_fail_twice :
  run_case [ {| ds_id := "t1"; isProxy := false; smapVersion := 4; bmdVersion := 5;
                httpHandler := discoverServerFailTwiceHandler |};
             {| ds_id := "t2"; isProxy := false; smapVersion := 1; bmdVersion := 2;
                httpHandler := discoverServerDefaultHandler |} ]
    (400 * millisecond)
  = (4, 5).
Proof. vm_compute. reflexivity. Qed.

Example discover_all_failed :
  run_case [ {| ds_id := "t1"; isProxy := false; smapVersion := 4; bmdVersion := 5;
                httpHandler := discoverServerAlwaysFailHandler |};
             {| ds_id := "t2"; isProxy := false; smapVersion := 1; bmdVersion := 2;
                httpHandler := discoverServerAlwaysFailHandler |} ]
    (400 * millisecond)
  = (0, 0).
Proof. vm_compute. reflexivity. Qed.

Example discover_fail_and_good_mixed :
  run_case [ {| ds_id := "t1"; isProxy := false; smapVersion := 4; bmdVersion := 5;
                httpHandler := discoverServerDefaultHandler |};
             {| ds_id := "t2"; isProxy := false; smapVersion := 1; bmdVersion := 2;
                httpHandler := discoverServerAlwaysFailHandler |} ]
    (400 * millisecond)
  = (4, 5).
Proof. vm_compute. reflexivity. Qed.

Example discover_zero_smap_version :
  run_case [ {| ds_id := "p1"; isProxy := true; smapVersion := 0; bmdVersion := 3;
                httpHandler := discoverServerDefaultHandler |};
             {| ds_id := "t1"; isProxy := false; smapVersion := 0; bmdVersion := 4;
                httpHandler := discoverServerDefaultHandler |} ]
    (400 * millisecond)
  = (0, 4).
Proof. vm_compute. reflexivity. Qed.

Example discover_zero_bmd_version :
  run_case [ {| ds_id := "p1"; isProxy := true; smapVersion := 1; bmdVersion := 0;
                httpHandler := discoverServerDefaultHandler |};
             {| ds_id := "t1"; isProxy := false; smapVersion := 1; bmdVersion := 0;
                httpHandler := discoverServerDefaultHandler |} ]
    (400 * millisecond)
  = (1, 0).
Proof. vm_compute. reflexivity. Qed.

End Discovery.

(** ** The delete/evict engine *)

Section DeleteEvict.
Context `{RegexpEngine} `{Placer} `{Outside}.

Lemma same_target_refl (t : targetrunner) : same_target t t.
Proof. unfold same_target. auto 10. Qed.

Lemma same_target_trans (t1 t2 t3 : targetrunner) :
  same_target t1 t2 -> same_target t2 t3 -> same_target t1 t3.
Proof. unfold same_target. intuition congruence. Qed.

Lemma walks_nil bucket evict objs : walks bucket evict objs [].
Proof. split; [exists objs; reflexivity|constructor]. Qed.

Lemma walks_cons bucket evict obj rest e evs :
  object_of e = Some obj ->
  match e with
  | EvFildelete b _ ev _ => b = bucket /\ ev = evict
  | EvDeadlineSkip _ => True
  | _ => False
  end ->
  walks bucket evict rest evs -> walks bucket evict (obj :: rest) (e :: evs).
Proof.
  intros He Hk [[more ->] Hall]. split.
  - exists more. cbn. now rewrite He.
  - now constructor.
Qed.

Lemma stops_cons e evs r :
  failed e = false -> stops_at_first_failure evs r ->
  stops_at_first_failure (e :: evs) r.
Proof.
  intros He. destruct r as [err|]; cbn.
  - intros (evs0 & e' & -> & Hf & Hall). exists (e :: evs0), e'. auto.
  - now constructor.
Qed.

(** The loop of a delete/evict batch always returns; it touches only the
    trace and the outside, goes through the objects in their order, and a
    failure of [fildelete] is the last thing it does. *)
Lemma doListEvictDelete_loop_run evict bucket xdel absdeadline objs :
  forall t : targetrunner,
  exists r t' evs,
    doListEvictDelete_loop evict bucket xdel absdeadline objs t = (Returned r, t') /\
    trace t' = trace t ++ evs /\
    same_target t t' /\ statsif t' = statsif t /\ glog t' = glog t /\
    walks bucket evict objs evs /\
    stops_at_first_failure evs r /\
    reaches_the_end (id (xdel_base xdel)) objs evs r.
Proof.
  induction objs as [|objname rest IH]; intros t.
  - exists None, t, []. cbn. rewrite app_nil_r.
    split; [reflexivity|]. split; [reflexivity|]. split; [run_simpl; auto 10|].
    split; [reflexivity|]. split; [reflexivity|]. split; [apply walks_nil|].
    split; [constructor|]. intros _ _. reflexivity.
  - cbn [doListEvictDelete_loop]. unfold past_deadline, t_fildelete. run_simpl.
    destruct (abrt_closed (id (xdel_base xdel)) (outside t)) eqn:Habrt.
    { exists None, t, []. rewrite app_nil_r.
      split; [reflexivity|]. split; [reflexivity|]. split; [run_simpl; auto 10|].
      split; [reflexivity|]. split; [reflexivity|]. split; [apply walks_nil|].
      split; [constructor|]. intros _ Hno. rewrite Hno in Habrt. discriminate. }
    destruct (negb (IsZero absdeadline)); run_simpl.
    + destruct (time_Now (outside t)) as [now e]. run_simpl.
      destruct (absdeadline <? now); run_simpl.
      * match goal with |- context [doListEvictDelete_loop _ _ _ _ _ ?u] =>
          destruct (IH u) as (r & t' & evs & Hrun & Htr & Hsame & Hst & Hlog & Hw & Hs & Hc)
        end.
        run_simpl. exists r, t', (EvDeadlineSkip objname :: evs).
        split; [exact Hrun|]. split; [now rewrite Htr, <- app_assoc|].
        split; [exact Hsame|]. split; [exact Hst|]. split; [exact Hlog|].
        split; [now apply walks_cons|]. split; [now apply stops_cons|].
        intros Hr Hno. change (objname :: omap object_of evs = objname :: rest).
        now rewrite (Hc Hr Hno).
      * destruct (fildelete bucket objname evict e) as [[err|] e'] eqn:Hdel; run_simpl.
        -- eexists (Some err), _, [EvFildelete bucket objname evict true].
           split; [reflexivity|]. cbn [trace]. split; [reflexivity|].
           split; [run_simpl; auto 10|]. split; [reflexivity|].
           split; [reflexivity|]. split; [|split].
           ++ apply walks_cons; [reflexivity|auto|apply walks_nil].
           ++ exists [], (EvFildelete bucket objname evict true). auto.
           ++ intros Hr. discriminate.
        -- match goal with |- context [doListEvictDelete_loop _ _ _ _ _ ?u] =>
             destruct (IH u)
               as (r & t' & evs & Hrun & Htr & Hsame & Hst & Hlog & Hw & Hs & Hc)
           end.
           run_simpl. exists r, t', (EvFildelete bucket objname evict false :: evs).
           split; [exact Hrun|]. split; [now rewrite Htr, <- app_assoc|].
           split; [exact Hsame|]. split; [exact Hst|]. split; [exact Hlog|].
           split; [apply walks_cons; auto|]. split; [now apply stops_cons|].
           intros Hr Hno. change (objname :: omap object_of evs = objname :: rest).
           now rewrite (Hc Hr Hno).
    + run_simpl.
      destruct (fildelete bucket objname evict (outside t)) as [[err|] e'] eqn:Hdel;
        run_simpl.
      * eexists (Some err), _, [EvFildelete bucket objname evict true].
        split; [reflexivity|]. cbn [trace]. split; [reflexivity|].
        split; [run_simpl; auto 10|]. split; [reflexivity|].
        split; [reflexivity|]. split; [|split].
        -- apply walks_cons; [reflexivity|auto|apply walks_nil].
        -- exists [], (EvFildelete bucket objname evict true). auto.
        -- intros Hr. discriminate.
      * match goal with |- context [doListEvictDelete_loop _ _ _ _ _ ?u] =>
          destruct (IH u) as (r & t' & evs & Hrun & Htr & Hsame & Hst & Hlog & Hw & Hs & Hc)
        end.
        run_simpl. exists r, t', (EvFildelete bucket objname evict false :: evs).
        split; [exact Hrun|]. split; [now rewrite Htr, <- app_assoc|].
        split; [exact Hsame|]. split; [exact Hst|]. split; [exact Hlog|].
        split; [apply walks_cons; auto|]. split; [now apply stops_cons|].
        intros Hr Hno. change (objname :: omap object_of evs = objname :: rest).
        now rewrite (Hc Hr Hno).
Qed.

Lemma bind_run {A B} (m : M A) (k : A -> M B) (t t1 : targetrunner) a :
  m t = (Returned a, t1) -> (m ≫= k) t = k a t1.
Proof. intros Hm. run_unfold. now rewrite Hm. Qed.

Lemma defer_run {A} (cleanup : M unit) (body : M A) (t t1 t2 : targetrunner) a :
  body t = (Returned a, t1) -> cleanup t1 = (Returned tt, t2) ->
  defer cleanup body t = (Returned a, t2).
Proof. intros Hb Hc. unfold defer. now rewrite Hb, Hc. Qed.

Lemma absolute_deadline_run deadline (t : targetrunner) :
  exists absdeadline t',
    absolute_deadline deadline t = (Returned absdeadline, t') /\
    trace t' = trace t /\ same_target t t' /\
    statsif t' = statsif t /\ glog t' = glog t.
Proof.
  unfold absolute_deadline. destruct (negb (deadline =? 0)); run_simpl.
  - destruct (time_Now (outside t)) as [now e]. run_simpl.
    eexists _, _. split; [reflexivity|]. run_simpl. auto 10.
  - eexists _, _. split; [reflexivity|]. auto 10.
Qed.

Lemma signal_run done (t : targetrunner) :
  room done t ->
  exists t',
    match done with
    | Some ch => send ch
    | None => mret tt
    end t = (Returned tt, t') /\
    trace t' = trace t ++ signal done /\
    chans t' = after_signal done (chans t) /\
    xactinp t' = xactinp t /\ prefetchQueue t' = prefetchQueue t /\
    statsif t' = statsif t /\ glog t' = glog t /\ outside t' = outside t /\
    si t' = si t /\ smap t' = smap t /\ bmdowner t' = bmdowner t /\
    starttime t' = starttime t.
Proof.
  destruct done as [ch|]; cbn [room signal after_signal].
  - intros (c & Hc & Hopen & Hroom). unfold send. run_simpl. rewrite Hc, Hopen.
    apply Nat.ltb_lt in Hroom. rewrite Hroom. run_simpl.
    eexists. split; [reflexivity|]. run_simpl. auto 15.
  - intros _. exists t. run_simpl. rewrite app_nil_r. auto 15.
Qed.

Lemma new_xdel_run (evict : bool) (t : targetrunner) :
  exists xdel t',
    (if evict then newEvict else newDelete) t = (Returned xdel, t') /\
    kind (xdel_base xdel) = (if evict then ActEvict else ActDelete) /\
    xdel_targetrunner xdel = None /\
    xactinp t' = xactinp t ++ [XDeleteEvict xdel] /\
    trace t' = trace t ++ [EvXactAdd (id (xdel_base xdel)) (kind (xdel_base xdel))] /\
    chans t' = chans t /\ prefetchQueue t' = prefetchQueue t /\
    statsif t' = statsif t /\ glog t' = glog t.
Proof.
  destruct evict.
  - destruct (new_delete_evict_run ActEvict t)
      as (xdel & t' & Hrun & Hk & Hnil & Hq & Htr & Hrest).
    exists xdel, t'. rewrite Hk. auto 10.
  - destruct (new_delete_evict_run ActDelete t)
      as (xdel & t' & Hrun & Hk & Hnil & Hq & Htr & Hrest).
    exists xdel, t'. rewrite Hk. auto 10.
Qed.

(** A delete/evict batch always returns when its [done] has room: it
    registers its xaction, walks the objects, sends the completion signal
    if [done] is not nil, and deregisters the xaction, in this order. *)
Lemma doListEvictDelete_run evict objs bucket deadline done (t : targetrunner) :
  room done t ->
  exists r t' xdel evs,
    doListEvictDelete evict objs bucket deadline done t = (Returned r, t') /\
    kind (xdel_base xdel) = (if evict then ActEvict else ActDelete) /\
    trace t' = trace t
               ++ EvXactAdd (id (xdel_base xdel)) (kind (xdel_base xdel))
               :: evs ++ signal done ++ [EvXactDel (id (xdel_base xdel))] /\
    walks bucket evict objs evs /\
    stops_at_first_failure evs r /\
    xactinp t' = filter (fun x => id (xaction_base x) ≠ id (xdel_base xdel))
                   (xactinp t ++ [XDeleteEvict xdel]) /\
    chans t' = after_signal done (chans t) /\
    prefetchQueue t' = prefetchQueue t /\
    statsif t' = statsif t /\ glog t' = glog t /\
    reaches_the_end (id (xdel_base xdel)) objs evs r.
Proof.
  intros Hroom. unfold doListEvictDelete.
  destruct (new_xdel_run evict t)
    as (xdel & t1 & Hnew & Hk & _ & Hq1 & Htr1 & Hch1 & Hpq1 & Hst1 & Hlog1).
  rewrite (bind_run _ _ _ _ _ Hnew).
  destruct (absolute_deadline_run deadline t1)
    as (dl & t2 & Hdl & Htr2 & Hsame2 & Hst2 & Hlog2).
  destruct (doListEvictDelete_loop_run evict bucket xdel dl objs t2)
    as (r & t3 & evs & Hloop & Htr3 & Hsame3 & Hst3 & Hlog3 & Hw & Hs & Hend).
  unfold same_target in Hsame2, Hsame3.
  destruct Hsame2 as (_ & _ & _ & _ & Hq2 & Hpq2 & Hch2).
  destruct Hsame3 as (_ & _ & _ & _ & Hq3 & Hpq3 & Hch3).
  assert (Hroom3 : room done t3).
  { destruct done as [ch|]; [|exact I]. cbn [room] in *.
    now rewrite Hch3, Hch2, Hch1. }
  destruct (signal_run done t3 Hroom3)
    as (t4 & Hsig & Htr4 & Hch4 & Hq4 & Hpq4 & Hst4 & Hlog4 & _).
  exists r, (set_trace (fun tr => tr ++ [EvXactDel (id (xdel_base xdel))])
               (set_xactinp (filter (fun x => id (xaction_base x) ≠ id (xdel_base xdel))) t4)),
    xdel, evs.
  split.
  - eapply defer_run.
    + rewrite (bind_run _ _ _ _ _ Hdl). exact Hloop.
    + rewrite (bind_run _ _ _ _ _ Hsig). reflexivity.
  - run_simpl. split; [exact Hk|]. split.
    + rewrite Htr4, Htr3, Htr2, Htr1. rewrite <- !app_assoc. reflexivity.
    + split; [exact Hw|]. split; [exact Hs|]. split.
      * now rewrite Hq4, Hq3, Hq2, Hq1.
      * split; [now rewrite Hch4, Hch3, Hch2, Hch1|].
        split; [now rewrite Hpq4, Hpq3, Hpq2, Hpq1|].
        split; [now rewrite Hst4, Hst3, Hst2, Hst1|].
        split; [now rewrite Hlog4, Hlog3, Hlog2, Hlog1|exact Hend].
Qed.

(** A delete/evict list request for a bucket of which this target owns
    an object, from the handler to its return. *)
Lemma listOperation_delete_run evict path listMsg bucket more (t : targetrunner) :
  restAPIItems_checked path = Some (bucket :: more) ->
  Forall (hashes bucket (smap t)) (Objnames listMsg) ->
  List.filter (owned bucket (smap t) (DaemonID (si t))) (Objnames listMsg) <> [] ->
  exists r t' xdel evs,
    listOperation path listMsg (doListEvictDelete evict) t = (Returned tt, t') /\
    kind (xdel_base xdel) = (if evict then ActEvict else ActDelete) /\
    trace t' = trace t
               ++ handler_make (handler_done (Wait (ListMsg_base listMsg)) t)
               ++ EvGo :: EvXactAdd (id (xdel_base xdel)) (kind (xdel_base xdel))
               :: evs
               ++ signal (handler_done (Wait (ListMsg_base listMsg)) t)
               ++ EvXactDel (id (xdel_base xdel)) :: EvGoExit
               :: handler_wait (handler_done (Wait (ListMsg_base listMsg)) t) /\
    walks bucket evict
      (List.filter (owned bucket (smap t) (DaemonID (si t))) (Objnames listMsg)) evs /\
    stops_at_first_failure evs r /\
    glog t' = glog t ++ logged r /\
    statsif t' = counted r (statsif t) /\
    xactinp t' = filter (fun x => id (xaction_base x) ≠ id (xdel_base xdel))
                   (xactinp t ++ [XDeleteEvict xdel]) /\
    reaches_the_end (id (xdel_base xdel))
      (List.filter (owned bucket (smap t) (DaemonID (si t))) (Objnames listMsg)) evs r.
Proof.
  intros Hpath Hhash Hne. unfold listOperation. rewrite Hpath.
  cbn [index lookup list_lookup]. run_simpl.
  rewrite listOperation_loop_owned by exact Hhash. cbn [app].
  set (objs := List.filter (owned bucket (smap t) (DaemonID (si t))) (Objnames listMsg)) in *.
  assert (Hlen0 : negb (length objs =? 0)%nat = true)
    by (destruct objs; [congruence|reflexivity]).
  rewrite Hlen0. clearbody objs.
  destruct (Wait (ListMsg_base listMsg)); cbn [handler_done handler_make handler_wait].
  - (* the handler waits *)
    unfold make_chan. run_simpl.
    set (ch := length (chans t)).
    set (c0 := {| chan_cap := 1; chan_len := 0; chan_closed := false |}).
    match goal with |- context [go _ ?u] => set (t1 := u) end.
    unfold go.
    match goal with |- context [set_trace ?f t1] => set (t2 := set_trace f t1) end.
    assert (Hc : chans t2 !! ch = Some c0).
    { subst t2 t1. run_simpl. subst ch. rewrite lookup_app_r by lia.
      now rewrite Nat.sub_diag. }
    assert (Hroom : room (Some ch) t2).
    { exists c0. split; [exact Hc|]. split; [reflexivity|]. cbn. lia. }
    destruct (doListEvictDelete_run evict objs bucket
                (Deadline (ListMsg_base listMsg)) (Some ch) t2 Hroom)
      as (r & t3 & xdel & evs & Hop & Hk & Htr & Hw & Hs & Hq & Hch & Hpq & Hst & Hlog & Hend).
    exists r. cbv beta. rewrite Hop.
    cbn [after_signal] in Hch. rewrite Hc in Hch.
    assert (Hlen : (ch < length (chans t2))%nat).
    { apply lookup_lt_is_Some. rewrite Hc. eauto. }
    destruct r as [err|]; unfold statsif_add, wait_done, recv, close; run_simpl;
      rewrite Hch;
      rewrite list_lookup_insert_eq by exact Hlen; cbn [chan_len chan_closed chan_cap];
      run_simpl;
      rewrite list_lookup_insert_eq by (rewrite length_insert; exact Hlen);
      cbn [chan_len chan_closed chan_cap]; run_simpl.
    + eexists _, xdel, evs. split; [reflexivity|]. run_simpl.
      split; [exact Hk|]. split.
      * rewrite Htr. states. list_eq.
      * split; [exact Hw|]. split; [exact Hs|]. split.
        -- rewrite Hlog. states. reflexivity.
        -- split; [rewrite Hst; states; reflexivity|].
           split; [rewrite Hq; states; reflexivity|exact Hend].
    + eexists _, xdel, evs. split; [reflexivity|]. run_simpl.
      split; [exact Hk|]. split.
      * rewrite Htr. states. list_eq.
      * split; [exact Hw|]. split; [exact Hs|]. split.
        -- rewrite Hlog. states. now rewrite app_nil_r.
        -- split; [rewrite Hst; states; reflexivity|].
           split; [rewrite Hq; states; reflexivity|exact Hend].
  - (* fire and forget *)
    run_simpl. unfold go.
    match goal with |- context [set_trace ?f t] => set (t2 := set_trace f t) end.
    destruct (doListEvictDelete_run evict objs bucket
                (Deadline (ListMsg_base listMsg)) None t2 I)
      as (r & t3 & xdel & evs & Hop & Hk & Htr & Hw & Hs & Hq & Hch & Hpq & Hst & Hlog & Hend).
    exists r. cbv beta. rewrite Hop.
    destruct r as [err|]; unfold statsif_add; run_simpl.
    + eexists _, xdel, evs. split; [reflexivity|]. run_simpl.
      split; [exact Hk|]. split.
      * rewrite Htr. states. list_eq.
      * split; [exact Hw|]. split; [exact Hs|]. split.
        -- rewrite Hlog. states. reflexivity.
        -- split; [rewrite Hst; states; reflexivity|].
           split; [rewrite Hq; states; reflexivity|exact Hend].
    + eexists _, xdel, evs. split; [reflexivity|]. run_simpl.
      split; [exact Hk|]. split.
      * rewrite Htr. states. list_eq.
      * split; [exact Hw|]. split; [exact Hs|]. split.
        -- rewrite Hlog. states. now rewrite app_nil_r.
        -- split; [rewrite Hst; states; reflexivity|].
           split; [rewrite Hq; states; reflexivity|exact Hend].
Qed.

End DeleteEvict.

(** ** The prefetch engine *)

Section Prefetch.
Context `{RegexpEngine} `{Placer} `{Outside}.
Hypothesis coldget_props : coldget_gives_props.

Lemma nonempty_false s : nonempty s = false -> s = "".
Proof. unfold nonempty. destruct (String.eqb_spec s ""); [auto|discriminate]. Qed.

(** [prefetchMissing] returns whatever the store and the cloud answer; it
    records the attempt and never touches [numerr]. *)
Lemma prefetchMissing_run objname bucket (t : targetrunner) :
  exists t',
    prefetchMissing objname bucket t = (Returned tt, t') /\
    trace t' = trace t ++ [EvPrefetchMissing bucket objname] /\
    same_target t t' /\
    statsif t' !! "numerr" = statsif t !! "numerr".
Proof.
  unfold prefetchMissing, statsif_add. run_simpl.
  repeat (case_match; run_simpl; simplify_eq);
    try (eexists; split; [reflexivity|]; run_simpl;
         rewrite ?lookup_insert_ne by discriminate; auto 10).
  all: exfalso; eapply coldget_props; [eassumption| |reflexivity];
    now apply nonempty_false.
Qed.

(** Every object of the batch is attempted, whatever happened to the
    ones before it. *)
Lemma prefetch_objnames_run bucket objnames : forall t : targetrunner,
  exists t',
    prefetch_objnames bucket objnames t = (Returned tt, t') /\
    trace t' = trace t ++ map (EvPrefetchMissing bucket) objnames /\
    same_target t t' /\
    statsif t' !! "numerr" = statsif t !! "numerr".
Proof.
  induction objnames as [|objname rest IH]; intros t.
  - exists t. cbn. rewrite app_nil_r. split; [reflexivity|].
    split; [reflexivity|]. split; [apply same_target_refl|reflexivity].
  - cbn [prefetch_objnames map].
    destruct (prefetchMissing_run objname bucket t) as (t1 & Hrun1 & Htr1 & Hsame1 & Hn1).
    destruct (IH t1) as (t2 & Hrun2 & Htr2 & Hsame2 & Hn2).
    exists t2. split.
    + rewrite (bind_run _ _ _ _ _ Hrun1). exact Hrun2.
    + split; [rewrite Htr2, Htr1; list_eq|].
      split; [eapply same_target_trans; eassumption|congruence].
Qed.

Lemma past_deadline_run absdeadline (t : targetrunner) :
  exists late t',
    past_deadline absdeadline t = (Returned late, t') /\
    trace t' = trace t /\ same_target t t' /\ statsif t' = statsif t /\
    (absdeadline = 0 -> late = false) /\
    late = negb (IsZero absdeadline) && (absdeadline <? (time_Now (outside t)).1).
Proof.
  unfold past_deadline, IsZero. destruct (Z.eqb_spec absdeadline 0) as [->|Hne];
    cbn [negb andb]; run_simpl.
  - exists false, t. split; [reflexivity|]. split; [reflexivity|].
    split; [auto 10|]. auto.
  - destruct (time_Now (outside t)) as [now e]. run_simpl.
    eexists _, _. split; [reflexivity|]. run_simpl. split; [reflexivity|].
    split; [auto 10|]. split; [reflexivity|]. split; [congruence|reflexivity].
Qed.

(** One batch taken from the queue: dropped whole when its deadline has
    passed, else every object is attempted and then the signal is sent. *)
Lemma doPrefetch_batch_run fwd (t : targetrunner) :
  room (fwd_done fwd) t ->
  exists t' es,
    doPrefetch_batch fwd t = (Returned tt, t') /\
    trace t' = trace t ++ es /\
    (es = batch_events fwd /\ chans t' = after_signal (fwd_done fwd) (chans t) \/
     es = [] /\ fwd_deadline fwd <> 0 /\ chans t' = chans t) /\
    xactinp t' = xactinp t /\ prefetchQueue t' = prefetchQueue t /\
    starttime t' = starttime t /\
    statsif t' !! "numerr" = statsif t !! "numerr" /\
    es = (if late fwd t then [] else batch_events fwd).
Proof.
  intros Hroom. unfold doPrefetch_batch.
  destruct (past_deadline_run (fwd_deadline fwd) t)
    as (islate & t1 & Hlate & Htr1 & Hsame1 & Hst1 & Hzero & Hval).
  rewrite (bind_run _ _ _ _ _ Hlate).
  unfold same_target in Hsame1.
  destruct Hsame1 as (_ & _ & _ & Hstart1 & Hq1 & Hpq1 & Hch1).
  fold (late fwd t) in Hval. rewrite <- Hval.
  destruct islate.
  - exists t1, []. split; [reflexivity|]. rewrite app_nil_r.
    split; [exact Htr1|]. split.
    + right. split; [reflexivity|]. split; [|exact Hch1].
      intros Hz. specialize (Hzero Hz). discriminate.
    + rewrite Hst1. auto 10.
  - destruct (prefetch_objnames_run (fwd_bucket fwd) (fwd_objnames fwd) t1)
      as (t2 & Hrun2 & Htr2 & Hsame2 & Hn2).
    unfold same_target in Hsame2.
    destruct Hsame2 as (_ & _ & _ & Hstart2 & Hq2 & Hpq2 & Hch2).
    assert (Hroom2 : room (fwd_done fwd) t2).
    { destruct (fwd_done fwd) as [ch|]; [|exact I]. cbn [room] in *.
      now rewrite Hch2, Hch1. }
    destruct (signal_run (fwd_done fwd) t2 Hroom2)
      as (t3 & Hsig & Htr3 & Hch3 & Hq3 & Hpq3 & Hst3 & _ & _ & _ & _ & _ & Hstart3).
    exists t3, (batch_events fwd). split.
    + rewrite (bind_run _ _ _ _ _ Hrun2). exact Hsig.
    + split; [rewrite Htr3, Htr2, Htr1; unfold batch_events; list_eq|].
      split; [left; split; [reflexivity|]; now rewrite Hch3, Hch2, Hch1|].
      split; [congruence|]. split; [congruence|]. split; [congruence|].
      split; [|reflexivity].
      rewrite Hst3, Hn2, Hst1. reflexivity.
Qed.

Lemma room_after_signal done ch (t t' : targetrunner) :
  chans t' = after_signal done (chans t) ->
  done <> Some ch ->
  room (Some ch) t -> room (Some ch) t'.
Proof.
  intros Hch Hne (c & Hc & Hopen & Hlt). exists c. split; [|auto].
  rewrite Hch. unfold after_signal. destruct done as [ch'|]; [|exact Hc].
  destruct (chans t !! ch'); [|exact Hc].
  rewrite list_lookup_insert_ne by congruence. exact Hc.
Qed.

(** The queue is drained batch by batch. *)
Lemma doPrefetch_loop_run queued : forall t : targetrunner,
  queue_ready queued t ->
  exists t' evs,
    doPrefetch_loop queued t = (Returned tt, t') /\
    trace t' = trace t ++ evs /\
    drained queued evs /\
    xactinp t' = xactinp t /\
    starttime t' = starttime t /\
    (queued <> [] -> prefetchQueue t' = []) /\
    statsif t' !! "numerr" = statsif t !! "numerr" /\
    evs = drain_events queued t.
Proof.
  induction queued as [|fwd rest IH]; intros t [Hnodup Hrooms].
  - exists t, []. cbn. rewrite app_nil_r. split; [reflexivity|].
    split; [reflexivity|]. split; [exists []; split; [reflexivity|constructor]|].
    split; [reflexivity|]. split; [reflexivity|]. split; [congruence|].
    split; reflexivity.
  - cbn [doPrefetch_loop drain_events]. run_simpl.
    match goal with |- context [doPrefetch_batch fwd ?u] => set (t0 := u) end.
    assert (Hroom0 : room (fwd_done fwd) t0).
    { destruct (fwd_done fwd) as [ch|] eqn:Hd; [|exact I].
      apply (Hrooms ch). cbn [omap list_omap]. rewrite Hd. apply list_elem_of_here. }
    destruct (doPrefetch_batch_run fwd t0 Hroom0)
      as (t1 & es & Hrun1 & Htr1 & Hes & Hq1 & Hpq1 & Hstart1 & Hn1 & Hlate).
    assert (Hready : queue_ready rest t1).
    { split.
      - cbn [omap list_omap] in Hnodup. destruct (fwd_done fwd); [|exact Hnodup].
        now apply NoDup_cons in Hnodup as [_ Hnodup].
      - intros ch Hin.
        assert (Hroom : room (Some ch) t0).
        { apply (Hrooms ch). cbn [omap list_omap].
          destruct (fwd_done fwd); [apply elem_of_cons; right|]; exact Hin. }
        destruct Hes as [[_ Hch]|(_ & _ & Hch)].
        + eapply room_after_signal; [exact Hch| |exact Hroom].
          intros Heq. cbn [omap list_omap] in Hnodup. rewrite Heq in Hnodup.
          apply NoDup_cons in Hnodup as [Hnotin _]. contradiction.
        + destruct Hroom as (c & Hc & Hrest). exists c. rewrite Hch. auto. }
    destruct (IH t1 Hready)
      as (t2 & evs & Hrun2 & Htr2 & Hdr & Hq2 & Hstart2 & Hpq2 & Hn2 & Hevs).
    exists t2, (es ++ evs). rewrite Hrun1. split; [exact Hrun2|].
    split; [rewrite Htr2, Htr1; states; list_eq|]. split.
    + destruct Hdr as (evss & -> & Hall). exists (es :: evss).
      split; [reflexivity|]. constructor; [|exact Hall].
      destruct Hes as [[-> _]|(-> & Hdl & _)]; auto.
    + split; [rewrite Hq2, Hq1; states; reflexivity|].
      split; [rewrite Hstart2, Hstart1; states; reflexivity|].
      split; [|split; [rewrite Hn2, Hn1; states; reflexivity|]].
      * intros _. destruct rest as [|fwd' rest'].
        -- cbn in Hrun2. injection Hrun2 as <-. rewrite Hpq1. states. reflexivity.
        -- apply Hpq2. discriminate.
      * rewrite Hlate, Hevs. replace t1 with (doPrefetch_batch fwd t0).2
          by (now rewrite Hrun1). reflexivity.
Qed.

(** The prefetch xaction: registered, the queue drained, deregistered. *)
Lemma doPrefetch_run (t : targetrunner) :
  findU ActPrefetch (xactinp t) = None ->
  queue_ready (prefetchQueue t) t ->
  exists t' xpre evs,
    doPrefetch t = (Returned tt, t') /\
    xpre_targetrunner xpre = Some this_targetrunner /\
    trace t' = trace t
               ++ EvXactAdd (id (xpre_base xpre)) ActPrefetch
               :: evs ++ [EvXactDel (id (xpre_base xpre))] /\
    drained (prefetchQueue t) evs /\
    prefetchQueue t' = [] /\
    statsif t' !! "numerr" = statsif t !! "numerr" /\
    exists t1,
      renewPrefetch t = (Returned (Some xpre), t1) /\
      evs = drain_events (prefetchQueue t) t1.
Proof.
  intros Hnone Hready. unfold doPrefetch, renewPrefetch, newxactBase, xactinp_add,
    xactinp_del.
  run_simpl. rewrite Hnone.
  destruct (uniqueid (xactinp t) (outside t)) as [i e] eqn:Hi. run_simpl.
  destruct (time_Now e) as [now e'] eqn:Hnow. run_simpl.
  match goal with |- context [doPrefetch_loop _ ?u] => set (t1 := u) end.
  assert (Hready1 : queue_ready (prefetchQueue t) t1).
  { destruct Hready as [Hnd Hrooms]. split; [exact Hnd|].
    intros ch Hin. destruct (Hrooms ch Hin) as (c & Hc & Hrest).
    exists c. subst t1. run_simpl. auto. }
  destruct (doPrefetch_loop_run (prefetchQueue t) t1 Hready1)
    as (t2 & evs & Hrun & Htr & Hdr & Hq & Hstart & Hpq & Hn & Hevs).
  rewrite Hrun. run_simpl.
  destruct (time_Now (outside t2)) as [now2 e2] eqn:Hnow2. run_simpl.
  eexists _, {| xpre_base := {| id := i; kind := ActPrefetch; stime := now; etime := 0 |};
                xpre_targetrunner := Some this_targetrunner |}, evs.
  split; [reflexivity|]. run_simpl. split; [reflexivity|].
  split; [rewrite Htr; states; list_eq|]. split; [exact Hdr|].
  split; [|split; [rewrite Hn; states; reflexivity|]].
  - destruct (prefetchQueue t) as [|fwd rest] eqn:Hqueue.
    + cbn in Hrun. injection Hrun as <-. states. first [reflexivity | exact Hqueue].
    + apply Hpq. discriminate.
  - exists t1. split; [reflexivity|exact Hevs].
Qed.

End Prefetch.

(** ** Completion signals and failures of a batch *)

Section Batches.
Context `{RegexpEngine} `{Placer} `{Outside}.

Lemma sends_app tr1 tr2 : sends (tr1 ++ tr2) = sends tr1 ++ sends tr2.
Proof. unfold sends. apply omap_app. Qed.





(** C2, as the code has it: in a delete/evict list request the first
    failure of fildelete ends the batch; the objects after it are not
    attempted, the xaction is deregistered, and the goroutine of the
    handler logs the error and adds one to numerr.  In a prefetch batch
    every object is attempted whatever happened to the ones before it, and
    numerr is left alone. *)
Theorem batch_failure_handling
  evict path listMsg bucket more pbucket pobjnames (t : targetrunner) :
  restAPIItems_checked path = Some (bucket :: more) ->
  Forall (hashes bucket (smap t)) (Objnames listMsg) ->
  List.filter (owned bucket (smap t) (DaemonID (si t))) (Objnames listMsg) <> [] ->
  coldget_gives_props ->
  (exists r t' xdel evs,
     listOperation path listMsg (doListEvictDelete evict) t = (Returned tt, t') /\
     trace t' = trace t
                ++ handler_make (handler_done (Wait (ListMsg_base listMsg)) t)
                ++ EvGo :: EvXactAdd (id (xdel_base xdel)) (kind (xdel_base xdel))
                :: evs
                ++ signal (handler_done (Wait (ListMsg_base listMsg)) t)
                ++ EvXactDel (id (xdel_base xdel)) :: EvGoExit
                :: handler_wait (handler_done (Wait (ListMsg_base listMsg)) t) /\
     walks bucket evict
       (List.filter (owned bucket (smap t) (DaemonID (si t))) (Objnames listMsg)) evs /\
     stops_at_first_failure evs r /\
     glog t' = glog t ++ logged r /\
     statsif t' = counted r (statsif t) /\
     XDeleteEvict xdel ∉ xactinp t') /\
  (exists t',
     prefetch_objnames pbucket pobjnames t = (Returned tt, t') /\
     trace t' = trace t ++ map (EvPrefetchMissing pbucket) pobjnames /\
     statsif t' !! "numerr" = statsif t !! "numerr").
Proof.
  intros Hpath Hhash Hne Hprops. split.
  - destruct (listOperation_delete_run evict path listMsg bucket more t Hpath Hhash Hne)
      as (r & t' & xdel & evs & Hrun & _ & Htr & Hw & Hs & Hlog & Hst & Hq & _).
    exists r, t', xdel, evs. split; [exact Hrun|]. split; [exact Htr|].
    split; [exact Hw|]. split; [exact Hs|]. split; [exact Hlog|].
    split; [exact Hst|].
    rewrite Hq. intros Hin. apply list_elem_of_filter in Hin as [Hid _].
    now apply Hid.
  - destruct (prefetch_objnames_run Hprops pbucket pobjnames t)
      as (t' & Hrun & Htr & _ & Hn).
    exists t'. auto.
Qed.

End Batches.

(** ** The sample daemon at work *)

Section SampleRuns.
Import sample.

Lemma sample_coldget_gives_props : coldget_gives_props.
Proof.
  unfold coldget_gives_props. cbn.
  intros bucket objname prefetch e props errstr errcode e' Hc Herr.
  destruct (is_broken objname e); injection Hc as <- <- <- <-; discriminate.
Qed.

Lemma sample_room bad : room (Some O) (waited_target bad).
Proof. eexists. split; [reflexivity|]. split; [reflexivity|]. cbn. lia. Qed.



Lemma sample_hashes bucket objnames : Forall (hashes bucket cluster) objnames.
Proof.
  apply Forall_forall. intros objname _. unfold hashes. cbn.
  rewrite bool_decide_eq_false_2.
  - destruct (Nat.even (String.length objname)); eauto.
  - intros Hempty. apply (f_equal (fun m => m !! "t1")) in Hempty.
    vm_compute in Hempty. discriminate.
Qed.


(** The same order in the prefetch xaction. *)
Example prefetch_signal_then_deregistration :
  doPrefetch (waited_target [])
  = (Returned tt,
     {| si := t1; smap := cluster; bmdowner := buckets; starttime := 100;
        xactinp := []; prefetchQueue := [];
        chans := [ {| chan_cap := 1; chan_len := 1; chan_closed := false |} ];
        statsif := {[ "numprefetch" := 2; "bytesprefetched" := 14 ]};
        glog := [];
        trace := [ EvXactAdd 1 "prefetch";
                   EvPrefetchMissing "cloudb" "ab"; EvPrefetchMissing "cloudb" "abcd";
                   EvSend 0; EvXactDel 1 ];
        outside := {| clock := 1002; tick := 1; broken := []; next_id := 2 |} |}).
Proof. vm_compute. reflexivity. Qed.


(** A delete without wait in which the first object fails: the second is
    never attempted and one error is counted.  A prefetch batch in which
    the first object fails: the second is attempted and no error is
    counted. *)
Lemma failure_ends_delete_batch_not_prefetch_batch :
  trace (deleteList "/v1/buckets/cloudb" (list_msg ["ab"; "abcd"] false)
           (target ["ab"])).2
  = [ EvGo; EvXactAdd 1 "delete"; EvFildelete "cloudb" "ab" false true;
      EvXactDel 1; EvGoExit ] /\
  attempted "cloudb" "abcd"
    (trace (deleteList "/v1/buckets/cloudb" (list_msg ["ab"; "abcd"] false)
              (target ["ab"])).2)
  = false /\
  statsif (deleteList "/v1/buckets/cloudb" (list_msg ["ab"; "abcd"] false)
             (target ["ab"])).2 !! "numerr"
  = Some 1 /\
  glog (doPrefetch (waited_target ["ab"])).2 = [LogErrorln "cloud get failed"] /\
  attempted "cloudb" "abcd" (trace (doPrefetch (waited_target ["ab"])).2) = true /\
  statsif (doPrefetch (waited_target ["ab"])).2 !! "numerr" = None.
Proof. repeat split; vm_compute; reflexivity. Qed.

Lemma batch_failure_handling_witness :
  (exists r (t' : targetrunner) xdel evs,
     listOperation "/v1/buckets/cloudb" (list_msg ["ab"; "abcd"] false)
       (doListEvictDelete false) (target ["ab"])
     = (Returned tt, t') /\
     trace t' = trace (target ["ab"])
                ++ handler_make (handler_done false (target ["ab"]))
                ++ EvGo :: EvXactAdd (id (xdel_base xdel)) (kind (xdel_base xdel))
                :: evs
                ++ signal (handler_done false (target ["ab"]))
                ++ EvXactDel (id (xdel_base xdel)) :: EvGoExit
                :: handler_wait (handler_done false (target ["ab"])) /\
     walks "cloudb" false
       (List.filter (owned "cloudb" cluster "t1") ["ab"; "abcd"]) evs /\
     stops_at_first_failure evs r /\
     glog t' = glog (target ["ab"]) ++ logged r /\
     statsif t' = counted r (statsif (target ["ab"])) /\
     XDeleteEvict xdel ∉ xactinp t') /\
  (exists t' : targetrunner,
     prefetch_objnames "cloudb" ["ab"; "abcd"] (target ["ab"]) = (Returned tt, t') /\
     trace t' = trace (target ["ab"]) ++ map (EvPrefetchMissing "cloudb") ["ab"; "abcd"] /\
     statsif t' !! "numerr" = statsif (target ["ab"]) !! "numerr").
Proof.
  refine (batch_failure_handling false "/v1/buckets/cloudb"
            (list_msg ["ab"; "abcd"] false) "cloudb" [] "cloudb" ["ab"; "abcd"]
            (target ["ab"]) eq_refl (sample_hashes _ _) _ sample_coldget_gives_props).
  vm_compute. discriminate.
Defined.

(** What the handlers do with the refusal of a local bucket: it is logged
    and counted by the goroutine; a handler that waits gets no signal. *)
Example prefetchList_local_bucket_no_wait :
  let r := prefetchList "/v1/buckets/lb" (list_msg ["ab"; "abcd"] false) (target []) in
  r.1 = Returned tt /\
  trace r.2 = [EvGo; EvGoExit] /\
  glog r.2 = [LogListOperationError (ErrLocalBucketPrefetch "lb")] /\
  statsif r.2 !! "numerr" = Some 1 /\
  prefetchQueue r.2 = [].
Proof. repeat split; vm_compute; reflexivity. Qed.

Example prefetchList_local_bucket_wait :
  (prefetchList "/v1/buckets/lb" (list_msg ["ab"; "abcd"] true) (target [])).1 = Blocked.
Proof. vm_compute. reflexivity. Qed.

(** An HRW error is answered to the client and no work is started. *)
Example deleteList_without_targets :
  let t := {| si := t1; smap := {| Tmap := ∅; Pmap := ∅; Smap_Version := 0 |};
              bmdowner := buckets; starttime := 100; xactinp := []; prefetchQueue := [];
              chans := []; statsif := ∅; glog := []; trace := [];
              outside := {| clock := 1000; tick := 1; broken := []; next_id := 1 |} |} in
  trace (deleteList "/v1/buckets/cloudb" (list_msg ["ab"] true) t).2
  = [EvInvalMsg (MsgErrstr "DFC cluster map is empty: no targets")].
Proof. vm_compute. reflexivity. Qed.

(** Runs in which a waiting caller gets no signal: a prefetch batch that
    is taken from the queue after its deadline is dropped together with its
    signal, and a range whose listing fails ends the goroutine before the
    batch starts. *)
Example prefetch_late_batch_gets_no_signal :
  trace (doPrefetch (set_prefetchQueue (fun _ => [late_batch]) (waited_target []))).2
  = [EvXactAdd 1 "prefetch"; EvXactDel 1].
Proof. vm_compute. reflexivity. Qed.

Example deleteRange_bad_regex_wait :
  let r := deleteRange "/v1/buckets/lb" (range_msg "shard-" "(" "1:2" true) (target []) in
  r.1 = Blocked /\
  trace r.2 = [EvMake 0; EvGo; EvGoExit] /\
  glog r.2 = [LogRangeOperationError ErrCompileRegex] /\
  statsif r.2 !! "numerr" = Some 1.
Proof. repeat split; vm_compute; reflexivity. Qed.

(** A well-formed range, for comparison with the malformed one. *)
Example deleteRange_well_formed :
  trace (deleteRange "/v1/buckets/lb" (range_msg "shard-" "[0-9]+" "8:200" false)
           (target [])).2
  = [EvGo; EvXactAdd 1 "delete"; EvFildelete "lb" "shard-10" false false;
     EvXactDel 1; EvGoExit].
Proof. vm_compute. reflexivity. Qed.

End SampleRuns.

(** * Further properties of the code *)

(** ** Range strings *)

Lemma append_cons c (s1 s2 : string) : String c s1 +:+ s2 = String c (s1 +:+ s2).
Proof. reflexivity. Qed.

Lemma Split_scan_at_colon a rest : forall cur,
  strings.ContainsByte a ":" = false ->
  strings.Split_scan ":" O cur (a +:+ String ":" rest)
  = (cur +:+ a) :: strings.Split_scan ":" O "" rest.
Proof.
  induction a as [|c a IH]; intros cur Ha.
  - change ("" +:+ String ":" rest) with (String ":" rest).
    cbn [strings.Split_scan]. rewrite prefix_colon. cbn [Ascii.eqb Bool.eqb].
    rewrite append_empty_r. reflexivity.
  - cbn [strings.ContainsByte] in Ha. apply orb_false_elim in Ha as [Hc Ha].
    rewrite append_cons. cbn [strings.Split_scan].
    rewrite prefix_colon, Hc, IH by exact Ha. now rewrite append_snoc.
Qed.

Lemma Split_scan_nonempty sep s : forall skip cur,
  exists x xs, strings.Split_scan sep skip cur s = x :: xs.
Proof.
  induction s as [|c s IH]; intros skip cur; cbn [strings.Split_scan].
  - eauto.
  - destruct skip; [|apply IH]. destruct (String.prefix sep (String c s)); [eauto|apply IH].
Qed.

(** A string with a colon is a colon-free field, the colon, and a rest. *)
Lemma first_colon s :
  strings.ContainsByte s ":" = true ->
  exists a rest, s = a +:+ String ":" rest /\ strings.ContainsByte a ":" = false.
Proof.
  induction s as [|c s IH]; cbn [strings.ContainsByte]; [discriminate|].
  destruct (Ascii.eqb_spec c ":") as [->|Hne]; cbn [orb].
  - intros _. exists "", s. split; reflexivity.
  - intros Hs. destruct (IH Hs) as (a & rest & -> & Ha).
    exists (String c a), rest. split; [reflexivity|].
    cbn [strings.ContainsByte]. rewrite Ha.
    destruct (Ascii.eqb_spec c ":"); [contradiction|reflexivity].
Qed.

Lemma range_string_nonempty a rest : String.eqb (a +:+ String ":" rest) "" = false.
Proof. destruct a; reflexivity. Qed.

Lemma Split_range_string a b :
  strings.ContainsByte a ":" = false -> strings.ContainsByte b ":" = false ->
  strings.Split (range_string a b) ":" = [a; b].
Proof.
  intros Ha Hb. unfold strings.Split, range_string.
  rewrite Split_scan_at_colon by exact Ha.
  rewrite Split_scan_colon_free by exact Hb. reflexivity.
Qed.

(** X1: parseRange panics exactly on the non-empty strings without a colon
    whose whole text ParseInt accepts, and then with the index 1 out of a
    range of 1; on every other string it returns (it never waits). *)
Theorem parseRange_panics_iff rangestr p :
  (parseRange rangestr = Panicked p <->
   p = IndexOutOfRange 1 1 /\ rangestr <> "" /\
   strings.ContainsByte rangestr ":" = false /\
   exists i, strconv.ParseInt rangestr = (i, None)) /\
  parseRange rangestr <> Blocked.
Proof.
  destruct (String.eqb_spec rangestr "") as [->|Hne].
  { split; [|discriminate]. split; [discriminate|]. intros (_ & Habs & _). congruence. }
  destruct (strings.ContainsByte rangestr ":") eqn:Hcolon.
  - destruct (first_colon _ Hcolon) as (a & rest & -> & Ha).
    unfold parseRange. rewrite range_string_nonempty. unfold strings.Split.
    rewrite Split_scan_at_colon by exact Ha.
    destruct (Split_scan_nonempty ":" rest O "") as (x & xs & ->).
    cbn [index lookup list_lookup obind].
    change ("" +:+ a) with a.
    destruct (if String.eqb a "" then (0, None) else strconv.ParseInt a) as [min [e|]].
    + split; [|discriminate]. split; [discriminate|]. intros (_ & _ & Habs & _). discriminate.
    + destruct (if String.eqb x "" then (0, None) else strconv.ParseInt x) as [max err].
      split; [|discriminate]. split; [discriminate|].
      intros (_ & _ & Habs & _). discriminate.
  - destruct (strconv.ParseInt rangestr) as [i [e|]] eqn:Hi.
    + rewrite (parseRange_colon_free_not_number _ _ _ Hne Hcolon Hi).
      split; [|discriminate]. split; [discriminate|].
      intros (_ & _ & _ & j & Hj). congruence.
    + rewrite (parseRange_colon_free_number _ _ Hne Hcolon Hi).
      split; [|discriminate]. split.
      * intros Hp. injection Hp as <-. eauto.
      * intros (-> & _). reflexivity.
Qed.

Lemma parseRange_after_first_colon a rest :
  strings.ContainsByte a ":" = false ->
  parseRange (a +:+ String ":" rest)
  = let '(min, err) := bound_of a in
    match err with
    | Some e => Returned (min, 0, Some e)
    | None =>
        obind (index (strings.Split_scan ":" O "" rest) O) (fun r1 =>
        let '(max, err) := bound_of r1 in Returned (min, max, err))
    end.
Proof.
  intros Ha. unfold parseRange. rewrite range_string_nonempty. unfold strings.Split.
  rewrite Split_scan_at_colon by exact Ha. change ("" +:+ a) with a.
  cbn [index lookup list_lookup obind]. unfold bound_of.
  destruct (if String.eqb a "" then (0, None) else strconv.ParseInt a) as [min [e|]];
    [reflexivity|].
  destruct (Split_scan_nonempty ":" rest O "") as (r1 & more & ->). reflexivity.
Qed.

(** X2: the text after a second colon is ignored: for fields a and b
    without a colon, "a:b:c" parses as "a:b" does, whatever c is. *)
Theorem parseRange_ignores_third_field a b c :
  strings.ContainsByte a ":" = false -> strings.ContainsByte b ":" = false ->
  parseRange (range_string a (range_string b c)) = parseRange (range_string a b).
Proof.
  intros Ha Hb. unfold range_string.
  rewrite !parseRange_after_first_colon by exact Ha.
  rewrite (Split_scan_at_colon b c "" Hb).
  rewrite (Split_scan_colon_free b "" Hb). reflexivity.
Qed.

Lemma parseRange_ignores_third_field_witness :
  parseRange "3:5:junk" = parseRange "3:5".
Proof.
  exact (parseRange_ignores_third_field "3" "5" "junk" eq_refl eq_refl).
Defined.

(** X3: for fields without a colon, "min:max" gives the number of each
    side, 0 for an empty side; an error in the minimum is returned with a
    maximum of 0 and the maximum is not read; an error in the maximum is
    returned together with the minimum. *)
Theorem parseRange_two_fields a b :
  strings.ContainsByte a ":" = false -> strings.ContainsByte b ":" = false ->
  parseRange (range_string a b)
  = match bound_of a with
    | (min, Some e) => Returned (min, 0, Some e)
    | (min, None) => Returned (min, (bound_of b).1, (bound_of b).2)
    end.
Proof.
  intros Ha Hb. unfold range_string.
  rewrite parseRange_after_first_colon by exact Ha.
  rewrite Split_scan_colon_free by exact Hb. change ("" +:+ b) with b.
  cbn [index lookup list_lookup obind].
  destruct (bound_of a) as [min [e|]]; [reflexivity|].
  destruct (bound_of b) as [max err]. reflexivity.
Qed.

Lemma parseRange_two_fields_witness :
  parseRange "-12:+40" = Returned (-12, 40, None) /\
  parseRange "x:40" = Returned (0, 0, Some strconv.ErrSyntax) /\
  parseRange "-12:4y" = Returned (-12, 0, Some strconv.ErrSyntax).
Proof.
  split; [|split].
  - exact (parseRange_two_fields "-12" "+40" eq_refl eq_refl).
  - exact (parseRange_two_fields "x" "40" eq_refl eq_refl).
  - exact (parseRange_two_fields "-12" "4y" eq_refl eq_refl).
Defined.

(** ** The acceptance test and the prefix *)

(** X4: the prefix is only stripped, never required: for a name that does
    not start with the prefix, acceptRegexRange answers as it does with an
    empty prefix, so such a name can be accepted. *)
Theorem acceptRegexRange_prefix_not_required `{RegexpEngine} name prefix re min max :
  strings.HasPrefix name prefix = false ->
  acceptRegexRange name prefix re min max = acceptRegexRange name "" re min max.
Proof.
  intros Hp. unfold acceptRegexRange, strings.TrimPrefix. rewrite Hp.
  destruct name; reflexivity.
Qed.

Lemma acceptRegexRange_prefix_not_required_witness :
  @acceptRegexRange sample.regexp "chunk-10" "shard-" sample.Digits 8 200 = true.
Proof.
  exact (@acceptRegexRange_prefix_not_required sample.regexp
           "chunk-10" "shard-" sample.Digits 8 200 eq_refl).
Defined.

(** ** What the filters and the handlers never do *)

Section Handlers.
Context `{RegexpEngine} `{Placer} `{Outside}.

Lemma getListFromRange_loop_kept bucket prefix re min max tsmap self entries :
  forall acc objs,
  getListFromRange_loop bucket prefix re min max tsmap self entries acc = inl objs ->
  exists kept,
    objs = acc ++ kept /\
    sublist kept (map Name entries) /\
    Forall (fun o =>
      acceptRegexRange o prefix re min max = true /\
      forall d, (HrwTarget bucket o tsmap).1 = Some d -> DaemonID d = self) kept.
Proof.
  induction entries as [|be rest IH]; intros acc objs; cbn [getListFromRange_loop map].
  - intros Hr. injection Hr as <-. exists []. rewrite app_nil_r.
    split; [reflexivity|]. split; constructor.
  - destruct (acceptRegexRange (Name be) prefix re min max) eqn:Hacc; cbn [negb].
    + destruct (HrwTarget bucket (Name be) tsmap) as [si errstr] eqn:Hhrw.
      destruct (match si with
                | Some d => String.eqb (DaemonID d) self
                | None => true
                end) eqn:Hown.
      * destruct (nonempty errstr); [discriminate|]. intros Hr.
        destruct (IH _ _ Hr) as (kept & -> & Hsub & Hall).
        exists (Name be :: kept). split; [now rewrite <- app_assoc|].
        split; [now constructor|]. constructor; [|exact Hall].
        split; [exact Hacc|]. rewrite Hhrw. cbn. intros d ->.
        now apply String.eqb_eq.
      * intros Hr. destruct (IH _ _ Hr) as (kept & -> & Hsub & Hall).
        exists kept. split; [reflexivity|]. split; [now constructor|exact Hall].
    + intros Hr. destruct (IH _ _ Hr) as (kept & -> & Hsub & Hall).
      exists kept. split; [reflexivity|]. split; [now constructor|exact Hall].
Qed.

(** X5: whatever HRW answers, the names that the loop of getListFromRange
    returns are names of listed entries, in the order of the listing, each
    one passes acceptRegexRange, and none of them has another target as its
    HRW owner. *)
Theorem getListFromRange_loop_sound bucket prefix re min max tsmap self entries objs :
  getListFromRange_loop bucket prefix re min max tsmap self entries [] = inl objs ->
  sublist objs (map Name entries) /\
  Forall (fun o =>
    acceptRegexRange o prefix re min max = true /\
    forall d, (HrwTarget bucket o tsmap).1 = Some d -> DaemonID d = self) objs.
Proof.
  intros Hr. destruct (getListFromRange_loop_kept _ _ _ _ _ _ _ _ _ _ Hr)
    as (kept & -> & Hsub & Hall).
  auto.
Qed.

(** X6: a list request none of whose objects is owned by this target is
    answered at once, also with Wait = true: no channel is made, no
    goroutine is started, the operation is not called and the target is
    left as it was. *)
Theorem listOperation_nothing_owned path listMsg (operation : listf) bucket more
  (t : targetrunner) :
  restAPIItems_checked path = Some (bucket :: more) ->
  Forall (hashes bucket (smap t)) (Objnames listMsg) ->
  List.filter (owned bucket (smap t) (DaemonID (si t))) (Objnames listMsg) = [] ->
  listOperation path listMsg operation t = (Returned tt, t).
Proof.
  intros Hpath Hhash Hnone. unfold listOperation. rewrite Hpath.
  cbn [index lookup list_lookup]. run_simpl.
  rewrite listOperation_loop_owned by exact Hhash. rewrite Hnone. reflexivity.
Qed.

(** X7: an HRW error on one object of a list request ends the request
    before any work: the client is answered with the error string, and the
    operation is not called, even when objects before the failing one are
    owned by this target. *)
Theorem listOperation_hrw_error path listMsg (operation : listf) bucket more
  pre obj post si errstr (t : targetrunner) :
  restAPIItems_checked path = Some (bucket :: more) ->
  Objnames listMsg = pre ++ obj :: post ->
  Forall (hashes bucket (smap t)) pre ->
  HrwTarget bucket obj (smap t) = (si, errstr) -> errstr <> "" ->
  listOperation path listMsg operation t
  = (Returned tt, set_trace (fun tr => tr ++ [EvInvalMsg (MsgErrstr errstr)]) t).
Proof.
  intros Hpath Hobjs Hpre Hobj Hne. unfold listOperation. rewrite Hpath.
  cbn [index lookup list_lookup]. run_simpl. rewrite Hobjs.
  rewrite (listOperation_loop_error _ _ _ _ _ _ _ _ _ Hpre Hobj Hne). reflexivity.
Qed.

(** X8: a prefetch range request for a local bucket never reaches the
    queue: the goroutine logs the refusal and adds one to numerr, no
    xaction is registered and nothing is listed; a handler that waits is
    then left waiting on a done channel that nobody signals, one that does
    not wait returns. *)
Theorem prefetchRange_local_bucket path rangeMsg bucket more min max perr
  (t : targetrunner) :
  restAPIItems_checked path = Some (bucket :: more) ->
  is_Some (LBmap (bmdowner t) !! bucket) ->
  parseRange (Range rangeMsg) = Returned (min, max, perr) ->
  exists t',
    prefetchRange path rangeMsg t
    = (if Wait (RangeMsg_base rangeMsg) then Blocked else Returned tt, t') /\
    trace t' = trace t
               ++ from_option
                    (fun e => [EvInvalMsg (MsgErrorParsingRange (Range rangeMsg) e)]) [] perr
               ++ handler_make (handler_done (Wait (RangeMsg_base rangeMsg)) t)
               ++ [EvGo; EvGoExit] /\
    glog t' = glog t ++ [LogRangeOperationError (ErrLocalBucketPrefetch bucket)] /\
    statsif t' = <["numerr" := default 0 (statsif t !! "numerr") + 1]> (statsif t) /\
    prefetchQueue t' = prefetchQueue t /\
    xactinp t' = xactinp t /\
    outside t' = outside t.
Proof.
  intros Hpath Hlocal Hparse. apply islocal_true in Hlocal.
  unfold prefetchRange, rangeOperation. rewrite Hpath, Hparse.
  cbn [index lookup list_lookup].
  destruct perr as [e|]; destruct (Wait (RangeMsg_base rangeMsg));
    unfold make_chan, go, addPrefetchRange, statsif_add, wait_done, recv;
    run_simpl; rewrite Hlocal; run_simpl;
    rewrite ?lookup_app_r, ?Nat.sub_diag by lia; cbn [lookup list_lookup chan_len chan_closed];
    eexists; (split; [reflexivity|]); run_simpl; cbn [from_option handler_done handler_make];
    (split; [list_eq|]); auto 10.
Qed.

End Handlers.

Lemma getListFromRange_loop_sound_witness :
  sublist ["shard-10"] ["shard-7"; "shard-10"; "shard-123"; "readme"] /\
  Forall (fun o =>
    @acceptRegexRange sample.regexp o "shard-" sample.Digits 8 200 = true /\
    forall d, (@HrwTarget sample.placer "lb" o sample.cluster).1 = Some d ->
              DaemonID d = "t1") ["shard-10"].
Proof.
  exact (@getListFromRange_loop_sound sample.regexp sample.placer
           "lb" "shard-" sample.Digits 8 200 sample.cluster "t1"
           [ {| Name := "shard-7" |}; {| Name := "shard-10" |};
             {| Name := "shard-123" |}; {| Name := "readme" |} ]
           ["shard-10"] eq_refl).
Defined.

Section HandlerRuns.
Import sample.

Lemma listOperation_nothing_owned_witness :
  listOperation "/v1/buckets/cloudb" (list_msg ["abc"; "x"] true) doListDelete (target [])
  = (Returned tt, target []).
Proof.
  refine (listOperation_nothing_owned "/v1/buckets/cloudb" (list_msg ["abc"; "x"] true)
            doListDelete "cloudb" [] (target []) eq_refl (sample_hashes _ _) _).
  vm_compute. reflexivity.
Defined.

Lemma listOperation_hrw_error_witness :
  listOperation "/v1/buckets/cloudb" (list_msg ["ab"] true) doListDelete no_targets
  = (Returned tt,
     set_trace (fun tr => tr ++ [EvInvalMsg (MsgErrstr "DFC cluster map is empty: no targets")])
       no_targets).
Proof.
  refine (listOperation_hrw_error "/v1/buckets/cloudb" (list_msg ["ab"] true)
            doListDelete "cloudb" [] [] "ab" [] None _ no_targets
            eq_refl eq_refl (List.Forall_nil _) eq_refl _).
  discriminate.
Defined.

Lemma prefetchRange_local_bucket_witness :
  exists t' : targetrunner,
    prefetchRange "/v1/buckets/lb" (range_msg "shard-" "[0-9]+" "8:200" true) (target [])
    = (Blocked, t') /\
    trace t' = [EvMake 0; EvGo; EvGoExit] /\
    glog t' = [LogRangeOperationError (ErrLocalBucketPrefetch "lb")] /\
    statsif t' = <["numerr" := 1]> ∅ /\
    prefetchQueue t' = [] /\
    xactinp t' = [] /\
    outside t' = {| clock := 1000; tick := 1; broken := []; next_id := 1 |}.
Proof.
  refine (prefetchRange_local_bucket "/v1/buckets/lb"
            (range_msg "shard-" "[0-9]+" "8:200" true) "lb" [] 8 200 None (target [])
            eq_refl _ eq_refl).
  vm_compute. eauto.
Defined.

End HandlerRuns.

(** ** Range requests, from the handler to the batch *)

Section RangeRuns.
Context `{RegexpEngine} `{Placer} `{Outside}.

Lemma state_glog_outside (t : targetrunner) logs1 logs2 e1 e2 :
  set_glog (fun l => l ++ logs2) (set_outside (fun _ => e2)
    (set_glog (fun l => l ++ logs1) (set_outside (fun _ => e1) t)))
  = set_glog (fun l => l ++ (logs1 ++ logs2)) (set_outside (fun _ => e2) t).
Proof. destruct t. unfold set_glog, set_outside. cbn. now rewrite <- app_assoc. Qed.

Lemma state_glog_nil (t : targetrunner) :
  set_glog (fun l => l ++ []) (set_outside (fun _ => outside t) t) = t.
Proof. destruct t. unfold set_glog, set_outside. cbn. now rewrite app_nil_r. Qed.

(** The page loop reads and moves the outside and may log a warning;
    nothing else of the target counts for it or is changed by it. *)
Lemma getListFromRangeCloud_pages_core pages bucket : forall msg entries e,
  exists r e' logs,
    forall u : targetrunner, outside u = e ->
      getListFromRangeCloud_pages pages bucket msg entries u
      = (Returned r, set_glog (fun l => l ++ logs) (set_outside (fun _ => e') u)).
Proof.
  induction pages as [|pages IH]; intros msg entries e.
  - eexists _, e, []. intros u <-. cbn. run_unfold. now rewrite state_glog_nil.
  - destruct (listbucket bucket msg e) as [[[jsbytes errstr] errcode] e1] eqn:Hlist.
    destruct (nonempty errstr) eqn:Herr.
    { eexists _, e1, []. intros u <-. cbn [getListFromRangeCloud_pages]. run_unfold.
      rewrite Hlist, Herr. destruct u. unfold set_glog, set_outside. cbn.
      now rewrite app_nil_r. }
    destruct (json_Unmarshal_BucketList jsbytes) as [reslist|] eqn:Hjs.
    2:{ eexists _, e1, []. intros u <-. cbn [getListFromRangeCloud_pages]. run_unfold.
        rewrite Hlist, Herr, Hjs. destruct u. unfold set_glog, set_outside. cbn.
        now rewrite app_nil_r. }
    destruct (String.eqb (PageMarker reslist) "") eqn:Hmark.
    { eexists _, e1, []. intros u <-. cbn [getListFromRangeCloud_pages]. run_unfold.
      rewrite Hlist, Herr, Hjs, Hmark. destruct u. unfold set_glog, set_outside. cbn.
      now rewrite app_nil_r. }
    destruct (IH {| GetPrefix := GetPrefix msg; GetPageMarker := PageMarker reslist |}
                 (entries ++ Entries reslist) e1) as (r & e' & logs & Hrest).
    exists r, e',
      ((match pages with O => [LogDidNotPrefetchAllKeys] | S _ => [] end) ++ logs).
    intros u <-. cbn [getListFromRangeCloud_pages]. run_unfold.
    rewrite Hlist, Herr, Hjs, Hmark.
    destruct pages; run_unfold.
    + rewrite Hrest by reflexivity. destruct u. unfold set_glog, set_outside. cbn.
      now rewrite <- app_assoc.
    + rewrite Hrest by reflexivity. destruct u. unfold set_glog, set_outside. cbn.
      reflexivity.
Qed.

(** getListFromRange always returns; its answer and the outside it leaves
    depend on the identity, the maps and the outside of the target only,
    and it changes nothing but the outside and the log. *)
Lemma getListFromRange_core bucket prefix regex min max (t : targetrunner) :
  exists r e' logs,
    forall u : targetrunner,
      si u = si t -> smap u = smap t -> bmdowner u = bmdowner t ->
      outside u = outside t ->
      getListFromRange bucket prefix regex min max u
      = (Returned r, set_glog (fun l => l ++ logs) (set_outside (fun _ => e') u)).
Proof.
  unfold getListFromRange, getListFromRangeCloud.
  destruct (islocal (bmdowner t) bucket) eqn:Hlocal.
  - destruct (prepareLocalObjectList bucket {| GetPrefix := prefix; GetPageMarker := "" |}
                (outside t)) as [[fullbucketlist|err] e1] eqn:Hprep.
    + destruct (regexp_Compile regex) as [re|] eqn:Hre.
      * eexists _, e1, []. intros u Hsi Hsmap Hbmd Hout. run_unfold.
        rewrite ?Hbmd, ?Hlocal, ?Hout, ?Hprep, ?Hre, ?Hsmap, ?Hsi.
        destruct u. unfold set_glog, set_outside. cbn. now rewrite app_nil_r.
      * eexists _, e1, []. intros u Hsi Hsmap Hbmd Hout. run_unfold.
        rewrite ?Hbmd, ?Hlocal, ?Hout, ?Hprep, ?Hre.
        destruct u. unfold set_glog, set_outside. cbn. now rewrite app_nil_r.
    + eexists _, e1, []. intros u Hsi Hsmap Hbmd Hout. run_unfold.
      rewrite ?Hbmd, ?Hlocal, ?Hout, ?Hprep.
      destruct u. unfold set_glog, set_outside. cbn. now rewrite app_nil_r.
  - destruct (getListFromRangeCloud_pages_core maxPrefetchPages bucket
                {| GetPrefix := prefix; GetPageMarker := "" |} [] (outside t))
      as ([fullbucketlist|err] & e1 & logs & Hpages).
    + destruct (regexp_Compile regex) as [re|] eqn:Hre.
      * eexists _, e1, logs. intros u Hsi Hsmap Hbmd Hout. run_unfold.
        rewrite ?Hbmd, ?Hlocal, (Hpages u Hout), ?Hre, ?Hsmap, ?Hsi. reflexivity.
      * eexists _, e1, logs. intros u Hsi Hsmap Hbmd Hout. run_unfold.
        rewrite ?Hbmd, ?Hlocal, (Hpages u Hout), ?Hre. reflexivity.
    + eexists _, e1, logs. intros u Hsi Hsmap Hbmd Hout. run_unfold.
      rewrite ?Hbmd, ?Hlocal, (Hpages u Hout). reflexivity.
Qed.

Lemma getListFromRange_same_answer bucket prefix regex min max (t u : targetrunner) :
  si u = si t -> smap u = smap t -> bmdowner u = bmdowner t -> outside u = outside t ->
  exists logs e',
    getListFromRange bucket prefix regex min max u
    = (Returned (match (getListFromRange bucket prefix regex min max t).1 with
                 | Returned r => r
                 | _ => inl []
                 end),
       set_glog (fun l => l ++ logs) (set_outside (fun _ => e') u)) /\
    (getListFromRange bucket prefix regex min max t).1 <> Blocked /\
    forall p, (getListFromRange bucket prefix regex min max t).1 <> Panicked p.
Proof.
  intros Hsi Hsmap Hbmd Hout.
  destruct (getListFromRange_core bucket prefix regex min max t) as (r & e' & logs & Hcore).
  exists logs, e'. rewrite (Hcore t eq_refl eq_refl eq_refl eq_refl).
  rewrite (Hcore u Hsi Hsmap Hbmd Hout). cbn. split; [reflexivity|].
  split; [discriminate|]. intros p. discriminate.
Qed.

(** The rest of a range handler once the range string is dealt with, when
    the listing fails: no xaction, one error logged and counted, and a
    handler that waits is left waiting. *)
Lemma range_rest_listing_error evict (wait : bool) bucket prefix regex min max deadline err
  (t : targetrunner) :
  (getListFromRange bucket prefix regex min max t).1 = Returned (inr err) ->
  exists t' listed,
    (done ← (if wait then ch ← make_chan 1; mret (Some ch) else mret None);
     go (err ← doRangeEvictDelete evict bucket prefix regex min max deadline done;
         match err with
         | Some e => log (LogRangeOperationError e);; statsif_add "numerr" 1
         | None => mret tt
         end);;
     if wait then wait_done done else mret tt) t
    = (if wait then Blocked else Returned tt, t') /\
    trace t' = trace t ++ handler_make (handler_done wait t) ++ [EvGo; EvGoExit] /\
    glog t' = glog t ++ listed ++ [LogRangeOperationError err] /\
    statsif t' = <["numerr" := default 0 (statsif t !! "numerr") + 1]> (statsif t) /\
    xactinp t' = xactinp t /\ prefetchQueue t' = prefetchQueue t.
Proof.
  intros Herr. destruct wait; cbn [handler_done handler_make].
  - unfold make_chan, go. run_simpl.
    match goal with |- context [doRangeEvictDelete _ _ _ _ _ _ _ _ ?u] =>
      destruct (getListFromRange_same_answer bucket prefix regex min max t u
                  eq_refl eq_refl eq_refl eq_refl) as (logs & e' & Hrun & _)
    end.
    rewrite Herr in Hrun. unfold doRangeEvictDelete. run_simpl. rewrite Hrun.
    unfold statsif_add, wait_done, recv. run_simpl.
    rewrite lookup_app_r by lia. rewrite Nat.sub_diag.
    cbn [lookup list_lookup chan_len chan_closed].
    eexists _, logs. split; [reflexivity|]. run_simpl.
    split; [list_eq|]. split; [now rewrite <- app_assoc|]. auto.
  - unfold go. run_simpl.
    match goal with |- context [doRangeEvictDelete _ _ _ _ _ _ _ _ ?u] =>
      destruct (getListFromRange_same_answer bucket prefix regex min max t u
                  eq_refl eq_refl eq_refl eq_refl) as (logs & e' & Hrun & _)
    end.
    rewrite Herr in Hrun. unfold doRangeEvictDelete. run_simpl. rewrite Hrun.
    unfold statsif_add. run_simpl.
    eexists _, logs. split; [reflexivity|]. run_simpl.
    split; [list_eq|]. split; [now rewrite <- app_assoc|]. auto.
Qed.

(** X9: a delete/evict range request whose listing fails (the cloud or
    the local store refuses, the page does not decode, the regex does not
    compile, or HRW fails) registers no xaction and deletes nothing; the
    goroutine logs the error and adds one to numerr, and, as no completion
    signal is sent on this path, a handler with Wait = true is left
    waiting while one with Wait = false returns. *)
Theorem rangeOperation_listing_error evict path rangeMsg bucket more min max err
  (t : targetrunner) :
  restAPIItems_checked path = Some (bucket :: more) ->
  parseRange (Range rangeMsg) = Returned (min, max, None) ->
  (getListFromRange bucket (Prefix rangeMsg) (Regex rangeMsg) min max t).1
  = Returned (inr err) ->
  exists t' listed,
    rangeOperation path rangeMsg (doRangeEvictDelete evict) t
    = (if Wait (RangeMsg_base rangeMsg) then Blocked else Returned tt, t') /\
    trace t' = trace t
               ++ handler_make (handler_done (Wait (RangeMsg_base rangeMsg)) t)
               ++ [EvGo; EvGoExit] /\
    glog t' = glog t ++ listed ++ [LogRangeOperationError err] /\
    statsif t' = <["numerr" := default 0 (statsif t !! "numerr") + 1]> (statsif t) /\
    xactinp t' = xactinp t /\ prefetchQueue t' = prefetchQueue t.
Proof.
  intros Hpath Hparse Herr.
  destruct (range_rest_listing_error evict (Wait (RangeMsg_base rangeMsg)) bucket
              (Prefix rangeMsg) (Regex rangeMsg) min max
              (Deadline (RangeMsg_base rangeMsg)) err t Herr)
    as (t' & listed & Hrun & Hrest).
  exists t', listed. split; [|exact Hrest].
  unfold rangeOperation. rewrite Hpath, Hparse. cbn [index lookup list_lookup].
  rewrite <- Hrun. reflexivity.
Qed.

Lemma range_rest_delete_ok evict (wait : bool) bucket prefix regex min max deadline objs
  (t : targetrunner) :
  (getListFromRange bucket prefix regex min max t).1 = Returned (inl objs) ->
  exists r t' xdel evs,
    (done ← (if wait then ch ← make_chan 1; mret (Some ch) else mret None);
     go (err ← doRangeEvictDelete evict bucket prefix regex min max deadline done;
         match err with
         | Some e => log (LogRangeOperationError e);; statsif_add "numerr" 1
         | None => mret tt
         end);;
     if wait then wait_done done else mret tt) t
    = (Returned tt, t') /\
    trace t' = trace t
               ++ handler_make (handler_done wait t)
               ++ EvGo :: EvXactAdd (id (xdel_base xdel)) (kind (xdel_base xdel))
               :: evs
               ++ signal (handler_done wait t)
               ++ EvXactDel (id (xdel_base xdel)) :: EvGoExit
               :: handler_wait (handler_done wait t) /\
    walks bucket evict objs evs /\
    stops_at_first_failure evs r /\
    statsif t' = counted r (statsif t) /\
    XDeleteEvict xdel ∉ xactinp t'.
Proof.
  intros Hok. destruct wait; cbn [handler_done handler_make handler_wait].
  - unfold make_chan, go. run_simpl.
    set (ch := length (chans t)).
    set (c0 := {| chan_cap := 1; chan_len := 0; chan_closed := false |}).
    match goal with |- context [doRangeEvictDelete _ _ _ _ _ _ _ _ ?u] =>
      destruct (getListFromRange_same_answer bucket prefix regex min max t u
                  eq_refl eq_refl eq_refl eq_refl) as (logs & e' & Hlist & _)
    end.
    rewrite Hok in Hlist. unfold doRangeEvictDelete. run_simpl. rewrite Hlist.
    match goal with |- context [doListEvictDelete _ _ _ _ _ ?u] => set (t2 := u) end.
    assert (Hc : chans t2 !! ch = Some c0).
    { subst t2. run_simpl. subst ch. rewrite lookup_app_r by lia.
      now rewrite Nat.sub_diag. }
    assert (Hroom : room (Some ch) t2).
    { exists c0. split; [exact Hc|]. split; [reflexivity|]. cbn. lia. }
    destruct (doListEvictDelete_run evict objs bucket deadline (Some ch) t2 Hroom)
      as (r & t3 & xdel & evs & Hop & Hk & Htr & Hw & Hs & Hq & Hch & Hpq & Hst & Hlog & Hend).
    exists r. rewrite Hop.
    cbn [after_signal] in Hch. rewrite Hc in Hch.
    assert (Hlen : (ch < length (chans t2))%nat).
    { apply lookup_lt_is_Some. rewrite Hc. eauto. }
    destruct r as [err|]; unfold statsif_add, wait_done, recv, close; run_simpl;
      rewrite Hch;
      rewrite list_lookup_insert_eq by exact Hlen; cbn [chan_len chan_closed chan_cap];
      run_simpl;
      rewrite list_lookup_insert_eq by (rewrite length_insert; exact Hlen);
      cbn [chan_len chan_closed chan_cap]; run_simpl;
      (eexists _, xdel, evs; split; [reflexivity|]; run_simpl;
       split; [rewrite Htr; states; list_eq|];
       split; [exact Hw|]; split; [exact Hs|];
       split; [rewrite Hst; states; reflexivity|];
       rewrite Hq; intros Hin; apply list_elem_of_filter in Hin as [Hid _];
       now apply Hid).
  - unfold go. run_simpl.
    match goal with |- context [doRangeEvictDelete _ _ _ _ _ _ _ _ ?u] =>
      destruct (getListFromRange_same_answer bucket prefix regex min max t u
                  eq_refl eq_refl eq_refl eq_refl) as (logs & e' & Hlist & _)
    end.
    rewrite Hok in Hlist. unfold doRangeEvictDelete. run_simpl. rewrite Hlist.
    match goal with |- context [doListEvictDelete _ _ _ _ _ ?u] => set (t2 := u) end.
    destruct (doListEvictDelete_run evict objs bucket deadline None t2 I)
      as (r & t3 & xdel & evs & Hop & Hk & Htr & Hw & Hs & Hq & Hch & Hpq & Hst & Hlog & Hend).
    exists r. rewrite Hop.
    destruct r as [err|]; unfold statsif_add; run_simpl;
      (eexists _, xdel, evs; split; [reflexivity|]; run_simpl;
       split; [rewrite Htr; states; list_eq|];
       split; [exact Hw|]; split; [exact Hs|];
       split; [rewrite Hst; states; reflexivity|];
       rewrite Hq; intros Hin; apply list_elem_of_filter in Hin as [Hid _];
       now apply Hid).
Qed.

(** X10: a delete/evict range request whose range string parses and whose
    listing succeeds always returns, with or without Wait: the xaction is
    registered, the batch walks exactly the names that getListFromRange
    gave and stops at the first failure, the completion signal is sent when
    the handler waits, and the xaction is deregistered; numerr goes up by
    one exactly when the batch returns an error. *)
Theorem rangeOperation_delete_run evict path rangeMsg bucket more min max objs
  (t : targetrunner) :
  restAPIItems_checked path = Some (bucket :: more) ->
  parseRange (Range rangeMsg) = Returned (min, max, None) ->
  (getListFromRange bucket (Prefix rangeMsg) (Regex rangeMsg) min max t).1
  = Returned (inl objs) ->
  exists r t' xdel evs,
    rangeOperation path rangeMsg (doRangeEvictDelete evict) t = (Returned tt, t') /\
    trace t' = trace t
               ++ handler_make (handler_done (Wait (RangeMsg_base rangeMsg)) t)
               ++ EvGo :: EvXactAdd (id (xdel_base xdel)) (kind (xdel_base xdel))
               :: evs
               ++ signal (handler_done (Wait (RangeMsg_base rangeMsg)) t)
               ++ EvXactDel (id (xdel_base xdel)) :: EvGoExit
               :: handler_wait (handler_done (Wait (RangeMsg_base rangeMsg)) t) /\
    walks bucket evict objs evs /\
    stops_at_first_failure evs r /\
    statsif t' = counted r (statsif t) /\
    XDeleteEvict xdel ∉ xactinp t'.
Proof.
  intros Hpath Hparse Hok.
  destruct (range_rest_delete_ok evict (Wait (RangeMsg_base rangeMsg)) bucket
              (Prefix rangeMsg) (Regex rangeMsg) min max
              (Deadline (RangeMsg_base rangeMsg)) objs t Hok)
    as (r & t' & xdel & evs & Hrun & Hrest).
  exists r, t', xdel, evs. split; [|exact Hrest].
  unfold rangeOperation. rewrite Hpath, Hparse. cbn [index lookup list_lookup].
  rewrite <- Hrun. reflexivity.
Qed.

End RangeRuns.

Section RangeSampleRuns.
Import sample.

Lemma rangeOperation_listing_error_witness :
  exists (t' : targetrunner) listed,
    rangeOperation "/v1/buckets/lb" (range_msg "shard-" "(" "1:2" true)
      (doRangeEvictDelete false) (target [])
    = (Blocked, t') /\
    trace t' = [EvMake 0; EvGo; EvGoExit] /\
    glog t' = listed ++ [LogRangeOperationError ErrCompileRegex] /\
    statsif t' = <["numerr" := 1]> ∅ /\
    xactinp t' = [] /\ prefetchQueue t' = [].
Proof.
  exact (rangeOperation_listing_error false "/v1/buckets/lb"
           (range_msg "shard-" "(" "1:2" true) "lb" [] 1 2 ErrCompileRegex (target [])
           eq_refl eq_refl eq_refl).
Defined.

Lemma rangeOperation_delete_run_witness :
  exists r (t' : targetrunner) xdel evs,
    rangeOperation "/v1/buckets/lb" (range_msg "shard-" "[0-9]+" "8:200" true)
      (doRangeEvictDelete false) (target [])
    = (Returned tt, t') /\
    trace t' = [EvMake 0; EvGo; EvXactAdd (id (xdel_base xdel)) (kind (xdel_base xdel))]
               ++ evs
               ++ [EvSend 0; EvXactDel (id (xdel_base xdel)); EvGoExit;
                   EvRecv 0; EvClose 0] /\
    walks "lb" false ["shard-10"] evs /\
    stops_at_first_failure evs r /\
    statsif t' = counted r ∅ /\
    XDeleteEvict xdel ∉ xactinp t'.
Proof.
  exact (rangeOperation_delete_run false "/v1/buckets/lb"
           (range_msg "shard-" "[0-9]+" "8:200" true) "lb" [] 8 200 ["shard-10"]
           (target []) eq_refl eq_refl eq_refl).
Defined.

End RangeSampleRuns.

(** ** Batches that meet no obstacle, a deadline, an abort *)

Section Engine.
Context `{RegexpEngine} `{Placer} `{Outside}.

Lemma new_xdel_outside (evict : bool) (t : targetrunner) :
  exists xdel t',
    (if evict then newEvict else newDelete) t = (Returned xdel, t') /\
    trace t' = trace t ++ [EvXactAdd (id (xdel_base xdel)) (kind (xdel_base xdel))] /\
    chans t' = chans t /\
    outside t' = (time_Now (uniqueid (xactinp t) (outside t)).2).2.
Proof.
  destruct evict; unfold newEvict, newDelete, newxactBase, xactinp_add; run_simpl;
    destruct (uniqueid (xactinp t) (outside t)) as [i e]; run_simpl;
    destruct (time_Now e) as [now e']; run_simpl;
    eexists _, _; (split; [reflexivity|]); run_simpl; auto.
Qed.

Section Invariant.
Variable P : ext -> Prop.
Variables (bucket : string) (evict : bool).
Hypothesis P_uniqueid : forall q e, P e -> P (uniqueid q e).2.
Hypothesis P_time_Now : forall e, P e -> P (time_Now e).2.

Lemma loop_all_deleted xdel objs :
  (forall objname e, P e ->
     (fildelete bucket objname evict e).1 = None /\
     P (fildelete bucket objname evict e).2) ->
  (forall i e, P e -> abrt_closed i e = false) ->
  forall t : targetrunner,
  P (outside t) ->
  exists t',
    doListEvictDelete_loop evict bucket xdel 0 objs t = (Returned None, t') /\
    trace t' = trace t ++ map (fun o => EvFildelete bucket o evict false) objs /\
    chans t' = chans t.
Proof.
  intros Hdel Habrt. induction objs as [|objname rest IH]; intros t HP.
  - exists t. cbn. rewrite app_nil_r. auto.
  - cbn [doListEvictDelete_loop map]. unfold past_deadline, t_fildelete. run_simpl.
    rewrite (Habrt _ _ HP). cbn [IsZero Z.eqb negb]. run_simpl.
    destruct (Hdel objname _ HP) as [Hnone HP'].
    destruct (fildelete bucket objname evict (outside t)) as [err e'].
    cbn in Hnone, HP'. subst err. run_simpl.
    match goal with |- context [doListEvictDelete_loop _ _ _ _ _ ?u] =>
      destruct (IH u HP') as (t' & Hrun & Htr & Hch)
    end.
    exists t'. split; [exact Hrun|]. run_simpl. split; [rewrite Htr; list_eq|exact Hch].
Qed.

(** X11: a delete/evict batch without a deadline, in a daemon where (as
    long as the condition P on the outside holds, and it is kept)
    fildelete does not fail and no abort is signalled, deletes every object
    of the list exactly once, in the order of the list, returns no error,
    and frames the deletions by the registration of its xaction and by the
    completion signal and the deregistration. *)
Theorem doListEvictDelete_all_deleted objs done (t : targetrunner) :
  (forall objname e, P e ->
     (fildelete bucket objname evict e).1 = None /\
     P (fildelete bucket objname evict e).2) ->
  (forall i e, P e -> abrt_closed i e = false) ->
  P (outside t) ->
  room done t ->
  exists t' xdel,
    doListEvictDelete evict objs bucket 0 done t = (Returned None, t') /\
    trace t' = trace t
               ++ EvXactAdd (id (xdel_base xdel)) (kind (xdel_base xdel))
               :: map (fun o => EvFildelete bucket o evict false) objs
               ++ signal done ++ [EvXactDel (id (xdel_base xdel))].
Proof.
  intros Hdel Habrt HP Hroom. unfold doListEvictDelete.
  destruct (new_xdel_outside evict t) as (xdel & t1 & Hnew & Htr1 & Hch1 & Hout1).
  rewrite (bind_run _ _ _ _ _ Hnew).
  assert (HP1 : P (outside t1)).
  { rewrite Hout1. apply P_time_Now, P_uniqueid, HP. }
  destruct (loop_all_deleted xdel objs Hdel Habrt t1 HP1) as (t2 & Hloop & Htr2 & Hch2).
  assert (Hroom2 : room done t2).
  { destruct done as [ch|]; [|exact I]. cbn [room] in *. now rewrite Hch2, Hch1. }
  destruct (signal_run done t2 Hroom2) as (t3 & Hsig & Htr3 & _).
  eexists _, xdel. split.
  - eapply defer_run.
    + unfold absolute_deadline. cbn [Z.eqb negb]. run_unfold. exact Hloop.
    + rewrite (bind_run _ _ _ _ _ Hsig). reflexivity.
  - unfold xactinp_del. run_simpl. rewrite Htr3, Htr2, Htr1. list_eq.
Qed.

End Invariant.

End Engine.

Section EngineSampleRuns.
Import sample.

Lemma doListEvictDelete_all_deleted_witness :
  exists (t' : targetrunner) xdel,
    doListEvictDelete false ["ab"; "abcd"; "ab"] "cloudb" 0 (Some O) (waited_target [])
    = (Returned None, t') /\
    trace t' = EvXactAdd (id (xdel_base xdel)) (kind (xdel_base xdel))
               :: [ EvFildelete "cloudb" "ab" false false;
                    EvFildelete "cloudb" "abcd" false false;
                    EvFildelete "cloudb" "ab" false false ]
               ++ [EvSend 0; EvXactDel (id (xdel_base xdel))].
Proof.
  refine (doListEvictDelete_all_deleted (fun w => broken w = []) "cloudb" false
            _ _ ["ab"; "abcd"; "ab"] (Some O) (waited_target []) _ _ eq_refl
            (sample_room [])).
  - intros q e He. exact He.
  - intros e He. exact He.
  - intros objname e He. cbn. unfold is_broken. rewrite He. cbn.
    rewrite bool_decide_eq_false_2; [auto|]. intros Hin. inversion Hin.
  - intros i e He. reflexivity.
Defined.

End EngineSampleRuns.

Section Deadline.
Context `{Outside}.
Variable L : ext -> Prop.

(** X12: once the absolute deadline of a delete/evict batch is over at
    every later reading of the clock, the loop deletes nothing more: each
    object it comes to is skipped, and the loop ends without an error, so
    the batch is not counted as failed. *)
Theorem doListEvictDelete_loop_past_deadline evict bucket xdel absdeadline objs :
  absdeadline <> 0 ->
  (forall e, L e -> absdeadline < (time_Now e).1 /\ L (time_Now e).2) ->
  forall t : targetrunner,
  L (outside t) ->
  exists t' k,
    doListEvictDelete_loop evict bucket xdel absdeadline objs t = (Returned None, t') /\
    trace t' = trace t ++ map EvDeadlineSkip (take k objs).
Proof.
  intros Hnz Hlate. induction objs as [|objname rest IH]; intros t HL.
  - exists t, O. cbn. now rewrite app_nil_r.
  - cbn [doListEvictDelete_loop]. unfold past_deadline, IsZero. run_simpl.
    destruct (abrt_closed (id (xdel_base xdel)) (outside t)).
    { exists t, O. cbn. now rewrite app_nil_r. }
    destruct (Z.eqb_spec absdeadline 0) as [|_]; [contradiction|]. cbn [negb]. run_simpl.
    destruct (Hlate _ HL) as [Hnow HL'].
    destruct (time_Now (outside t)) as [now e]. cbn in Hnow, HL'. run_simpl.
    destruct (Z.ltb_spec absdeadline now) as [_|Habs]; [|lia]. run_simpl.
    match goal with |- context [doListEvictDelete_loop _ _ _ _ _ ?u] =>
      destruct (IH u HL') as (t' & k & Hrun & Htr)
    end.
    exists t', (S k). split; [exact Hrun|]. run_simpl. rewrite Htr. cbn [take map].
    list_eq.
Qed.

End Deadline.

Section Abort.
Context `{Outside}.
Variable P : ext -> Prop.
Hypothesis P_uniqueid : forall q e, P e -> P (uniqueid q e).2.
Hypothesis P_time_Now : forall e, P e -> P (time_Now e).2.

(** X13: a delete/evict batch whose abort signal is closed when the loop
    looks at it attempts no object, whatever the list and the deadline: the
    xaction is registered, the completion signal is sent, the xaction is
    deregistered, and the batch returns no error. *)
Theorem doListEvictDelete_aborted evict objs bucket deadline done (t : targetrunner) :
  (forall i e, P e -> abrt_closed i e = true) ->
  P (outside t) ->
  room done t ->
  exists t' xdel,
    doListEvictDelete evict objs bucket deadline done t = (Returned None, t') /\
    trace t' = trace t
               ++ EvXactAdd (id (xdel_base xdel)) (kind (xdel_base xdel))
               :: signal done ++ [EvXactDel (id (xdel_base xdel))].
Proof.
  intros Habrt HP Hroom. unfold doListEvictDelete.
  destruct (new_xdel_outside evict t) as (xdel & t1 & Hnew & Htr1 & Hch1 & Hout1).
  rewrite (bind_run _ _ _ _ _ Hnew).
  assert (HP1 : P (outside t1)).
  { rewrite Hout1. apply P_time_Now, P_uniqueid, HP. }
  destruct (absolute_deadline_run deadline t1)
    as (dl & t2 & Hdl & Htr2 & Hsame2 & _).
  assert (HP2 : P (outside t2)).
  { revert Hdl. unfold absolute_deadline. destruct (negb (deadline =? 0)); run_simpl.
    - pose proof (P_time_Now _ HP1) as HP'.
      destruct (time_Now (outside t1)) as [now e]. run_simpl.
      intros Hdl. injection Hdl as _ <-. exact HP'.
    - intros Hdl. injection Hdl as _ <-. exact HP1. }
  assert (Hloop : doListEvictDelete_loop evict bucket xdel dl objs t2 = (Returned None, t2)).
  { destruct objs as [|objname rest]; [reflexivity|].
    cbn [doListEvictDelete_loop]. run_simpl. now rewrite (Habrt _ _ HP2). }
  unfold same_target in Hsame2. destruct Hsame2 as (_ & _ & _ & _ & _ & _ & Hch2).
  assert (Hroom2 : room done t2).
  { destruct done as [ch|]; [|exact I]. cbn [room] in *. now rewrite Hch2, Hch1. }
  destruct (signal_run done t2 Hroom2) as (t3 & Hsig & Htr3 & _).
  eexists _, xdel. split.
  - eapply defer_run.
    + rewrite (bind_run _ _ _ _ _ Hdl). exact Hloop.
    + rewrite (bind_run _ _ _ _ _ Hsig). reflexivity.
  - unfold xactinp_del. run_simpl. rewrite Htr3, Htr2, Htr1. list_eq.
Qed.

End Abort.

Section DeadlineAbortSampleRuns.
Import sample.

Lemma doListEvictDelete_loop_past_deadline_witness :
  exists (t' : targetrunner) k,
    doListEvictDelete_loop false "cloudb"
      {| xdel_base := {| id := 1; kind := ActDelete; stime := 1000; etime := 0 |};
         xdel_targetrunner := None |}
      500 ["ab"; "abcd"] (target [])
    = (Returned None, t') /\
    trace t' = map EvDeadlineSkip (take k ["ab"; "abcd"]).
Proof.
  refine (doListEvictDelete_loop_past_deadline
            (fun w => 500 < clock w /\ 0 <= tick w) false "cloudb" _ 500 ["ab"; "abcd"]
            _ _ (target []) _).
  - discriminate.
  - intros e [Hc Ht]. cbn. lia.
  - cbn. lia.
Defined.

Lemma doListEvictDelete_aborted_witness :
  exists (t' : @targetrunner aborted) xdel,
    @doListEvictDelete aborted false ["ab"; "abcd"] "cloudb" 0 None aborted_target
    = (Returned None, t') /\
    trace t' = [ EvXactAdd (id (xdel_base xdel)) (kind (xdel_base xdel));
                 EvXactDel (id (xdel_base xdel)) ].
Proof.
  refine (@doListEvictDelete_aborted aborted (fun _ => True) _ _
            false ["ab"; "abcd"] "cloudb" 0 None aborted_target _ I I); auto.
Defined.

End DeadlineAbortSampleRuns.

(** ** Listing a cloud bucket *)

Section CloudListing.
Context `{Outside}.

Lemma pages_never_ending bucket page_of pages :
  (forall msg e, exists jsbytes errcode e',
     listbucket bucket msg e = ((jsbytes, "", errcode), e') /\
     json_Unmarshal_BucketList jsbytes = Some (page_of msg)) ->
  (forall msg, PageMarker (page_of msg) <> "") ->
  forall msg entries (t : targetrunner),
  exists t',
    getListFromRangeCloud_pages pages bucket msg entries t
    = (Returned (inl {| Entries := entries ++ pages_from page_of pages msg;
                        PageMarker := "" |}), t') /\
    glog t' = glog t ++ match pages with O => [] | S _ => [LogDidNotPrefetchAllKeys] end /\
    trace t' = trace t /\ same_target t t'.
Proof.
  intros Hlist Hmark. induction pages as [|pages IH]; intros msg entries t.
  - exists t. cbn. rewrite !app_nil_r. split; [reflexivity|].
    split; [reflexivity|]. split; [reflexivity|apply same_target_refl].
  - cbn [getListFromRangeCloud_pages pages_from].
    destruct (Hlist msg (outside t)) as (js & code & e' & Hl & Hjs).
    run_simpl. rewrite Hl. run_simpl. cbn [nonempty String.eqb negb]. rewrite Hjs.
    destruct (String.eqb_spec (PageMarker (page_of msg)) "") as [Hnil|_];
      [now apply Hmark in Hnil|].
    destruct pages as [|pages'].
    + match goal with |- context [getListFromRangeCloud_pages O _ ?m ?en ?u] =>
        destruct (IH m en u) as (t' & Hrun & Hlog & Htr & Hsame)
      end.
      run_simpl. exists t'. rewrite Hrun. split; [cbn; now rewrite <- app_assoc|].
      split; [rewrite Hlog; now rewrite app_nil_r|]. split; [exact Htr|exact Hsame].
    + match goal with |- context [getListFromRangeCloud_pages (S pages') _ ?m ?en ?u] =>
        destruct (IH m en u) as (t' & Hrun & Hlog & Htr & Hsame)
      end.
      run_simpl. exists t'. rewrite Hrun. split; [now rewrite <- app_assoc|].
      split; [exact Hlog|]. split; [exact Htr|exact Hsame].
Qed.

(** X14: the listing of a cloud bucket is cut after maxPrefetchPages
    pages.  For a bucket whose every request is answered without an error
    by the page [page_of msg], each page with a marker for a next page,
    getListFromRangeCloud returns no error and the entries of exactly ten
    pages in their order: the page of the request, then each time the page
    asked for with the same prefix and the marker that the page before it
    gave; and it logs once that not all keys are there. *)
Theorem getListFromRangeCloud_page_cap bucket page_of msg (t : targetrunner) :
  (forall msg e, exists jsbytes errcode e',
     listbucket bucket msg e = ((jsbytes, "", errcode), e') /\
     json_Unmarshal_BucketList jsbytes = Some (page_of msg)) ->
  (forall msg, PageMarker (page_of msg) <> "") ->
  exists t',
    getListFromRangeCloud bucket msg t
    = (Returned (inl {| Entries := pages_from page_of 10 msg; PageMarker := "" |}), t') /\
    glog t' = glog t ++ [LogDidNotPrefetchAllKeys] /\
    trace t' = trace t.
Proof.
  intros Hlist Hmark.
  destruct (pages_never_ending bucket page_of maxPrefetchPages Hlist Hmark msg [] t)
    as (t' & Hrun & Hlog & Htr & _).
  exists t'. auto.
Qed.

End CloudListing.

Lemma getListFromRangeCloud_page_cap_witness :
  exists t' : @targetrunner paged,
    @getListFromRangeCloud paged "cloudb" {| GetPrefix := "p"; GetPageMarker := "" |}
      paged_target
    = (Returned (inl {| Entries := [ {| Name := "p/" |}; {| Name := "p/i" |};
                                     {| Name := "p/ii" |}; {| Name := "p/iii" |};
                                     {| Name := "p/iiii" |}; {| Name := "p/iiiii" |};
                                     {| Name := "p/iiiiii" |}; {| Name := "p/iiiiiii" |};
                                     {| Name := "p/iiiiiiii" |};
                                     {| Name := "p/iiiiiiiii" |} ];
                        PageMarker := "" |}), t') /\
    glog t' = glog paged_target ++ [LogDidNotPrefetchAllKeys] /\
    trace t' = trace paged_target.
Proof.
  refine (@getListFromRangeCloud_page_cap paged "cloudb" paged_page
            {| GetPrefix := "p"; GetPageMarker := "" |} paged_target _ _).
  - intros msg e. eexists _, _, _. split; reflexivity.
  - intros msg. unfold paged_page. cbn [PageMarker].
    destruct (after_slash (GetPrefix msg +:+ "/" +:+ GetPageMarker msg)); discriminate.
Defined.

(** ** The prefetch queue and the prefetch xaction *)

Section PrefetchQueue.
Context `{RegexpEngine} `{Placer} `{Outside}.

Lemma islocal_false (m : bucketMD) bucket :
  LBmap m !! bucket = None -> islocal m bucket = false.
Proof.
  intros Hb. unfold islocal. apply bool_decide_eq_false_2. rewrite Hb.
  intros [x Hx]. discriminate.
Qed.

(** X15: for a bucket that is not local, addPrefetchList puts exactly one
    batch at the tail of the prefetch queue, with the objects, the bucket,
    the done channel and the absolute deadline (none for a deadline of 0),
    and returns no error, as long as the queue holds fewer than
    prefetchChanSize batches; on a full queue it waits and the queue is
    left as it is.  So the queue never grows beyond prefetchChanSize, and
    nothing is sent on done here. *)
Theorem addPrefetchList_enqueues objs bucket deadline done (t : targetrunner) :
  LBmap (bmdowner t) !! bucket = None ->
  exists t',
    addPrefetchList objs bucket deadline done t
    = (if (length (prefetchQueue t) <? prefetchChanSize)%nat
       then Returned None else Blocked, t') /\
    prefetchQueue t'
    = (if (length (prefetchQueue t) <? prefetchChanSize)%nat
       then prefetchQueue t
            ++ [ {| fwd_objnames := objs; fwd_bucket := bucket;
                    fwd_deadline := queued_deadline deadline t; fwd_done := done |} ]
       else prefetchQueue t) /\
    ((length (prefetchQueue t) <= prefetchChanSize)%nat ->
     (length (prefetchQueue t') <= prefetchChanSize)%nat) /\
    sends (trace t') = sends (trace t) /\
    chans t' = chans t /\ xactinp t' = xactinp t.
Proof.
  intros Hcloud. apply islocal_false in Hcloud.
  unfold addPrefetchList, absolute_deadline, enqueue, queued_deadline. run_simpl.
  rewrite Hcloud.
  destruct (Z.eqb_spec deadline 0) as [->|Hne]; cbn [negb]; run_simpl.
  - destruct (Nat.ltb_spec (length (prefetchQueue t)) prefetchChanSize) as [Hlt|Hge];
      run_simpl; eexists; (split; [reflexivity|]); run_simpl.
    + split; [reflexivity|]. split; [intros _; rewrite length_app; cbn; lia|].
      split; [rewrite sends_app; cbn; now rewrite app_nil_r|]. split; reflexivity.
    + repeat split; auto.
  - destruct (time_Now (outside t)) as [now e]. run_simpl.
    destruct (Nat.ltb_spec (length (prefetchQueue t)) prefetchChanSize) as [Hlt|Hge];
      run_simpl; eexists; (split; [reflexivity|]); run_simpl.
    + split; [reflexivity|]. split; [intros _; rewrite length_app; cbn; lia|].
      split; [rewrite sends_app; cbn; now rewrite app_nil_r|]. split; reflexivity.
    + repeat split; auto.
Qed.

(** X16: while a prefetch xaction with its runner set is live, another
    doPrefetch takes nothing from the queue: it logs that the xaction is
    already running and returns; the queue, the registry, the channels and
    the trace are as before. *)
Theorem doPrefetch_already_running xpre (t : targetrunner) :
  findU ActPrefetch (xactinp t) = Some (XPrefetch xpre) ->
  xpre_targetrunner xpre = Some this_targetrunner ->
  exists t' s,
    doPrefetch t = (Returned tt, t') /\
    glog t' = glog t ++ [LogAlreadyRunning s] /\
    xs_id s = id (xpre_base xpre) /\
    trace t' = trace t /\ prefetchQueue t' = prefetchQueue t /\
    xactinp t' = xactinp t /\ chans t' = chans t /\ statsif t' = statsif t.
Proof.
  intros Hfind Hrunner. unfold doPrefetch, renewPrefetch, xactPrefetch_tostring, tostring,
    targetrunner_starttime.
  run_simpl. rewrite Hfind, Hrunner. run_simpl.
  destruct (finished (xpre_base xpre)); cbn [negb]; run_simpl.
  - destruct (time_Now (outside t)) as [now e]. run_simpl.
    eexists _, _. split; [reflexivity|]. run_simpl. auto 10.
  - eexists _, _. split; [reflexivity|]. run_simpl. auto 10.
Qed.

Lemma live_prefetch_none q :
  findU ActPrefetch q = None -> live_prefetch q = [].
Proof.
  unfold findU, live_prefetch. induction q as [|x q IH]; cbn; [reflexivity|].
  destruct (_ && _); [discriminate|exact IH].
Qed.

Lemma live_prefetch_app q1 q2 :
  live_prefetch (q1 ++ q2) = live_prefetch q1 ++ live_prefetch q2.
Proof. unfold live_prefetch. apply List.filter_app. Qed.

(** X17: renewPrefetch keeps the prefetch xaction single: from a registry
    with at most one live prefetch xaction it leaves at most one, whether
    it hands back a new xaction or nil; it hands back nil exactly when one
    was live, and then the registry is as it was. *)
Theorem renewPrefetch_single r (t t' : targetrunner) :
  renewPrefetch t = (Returned r, t') ->
  (length (live_prefetch (xactinp t)) <= 1)%nat ->
  (length (live_prefetch (xactinp t')) <= 1)%nat /\
  (r = None <-> live_prefetch (xactinp t) <> []) /\
  (r = None -> xactinp t' = xactinp t).
Proof.
  unfold renewPrefetch, xactPrefetch_tostring, tostring, targetrunner_starttime,
    newxactBase, xactinp_add. run_simpl.
  destruct (findU ActPrefetch (xactinp t)) as [[xpre|xdel]|] eqn:Hfind; run_simpl.
  - assert (Hlive : live_prefetch (xactinp t) <> []).
    { unfold findU in Hfind. unfold live_prefetch. intros Hnil.
      apply find_some in Hfind as [Hin Hp].
      assert (Hin' : In (XPrefetch xpre)
                (List.filter (fun x => String.eqb (kind (xaction_base x)) ActPrefetch
                                       && negb (finished (xaction_base x))) (xactinp t)))
        by (apply filter_In; auto).
      rewrite Hnil in Hin'. contradiction. }
    destruct (xpre_targetrunner xpre) as [[]|]; run_simpl; [|discriminate].
    destruct (finished (xpre_base xpre)); cbn [negb]; run_simpl.
    + destruct (time_Now (outside t)) as [now e]. run_simpl.
      intros Hr Hle. injection Hr as <- <-. run_simpl.
      split; [exact Hle|]. split; [split; [intros _; exact Hlive|reflexivity]|reflexivity].
    + intros Hr Hle. injection Hr as <- <-. run_simpl.
      split; [exact Hle|]. split; [split; [intros _; exact Hlive|reflexivity]|reflexivity].
  - discriminate.
  - destruct (uniqueid (xactinp t) (outside t)) as [i e]. run_simpl.
    destruct (time_Now e) as [now e']. run_simpl.
    intros Hr _. injection Hr as <- <-. run_simpl.
    rewrite live_prefetch_app, (live_prefetch_none _ Hfind). cbn. split; [lia|].
    split; [|discriminate]. split; [discriminate|]. intros Hne. now contradiction Hne.
Qed.

End PrefetchQueue.

Section PrefetchQueueSampleRuns.
Import sample.

Lemma doPrefetch_already_running_witness :
  exists (t' : targetrunner) s,
    doPrefetch busy_target = (Returned tt, t') /\
    glog t' = [LogAlreadyRunning s] /\
    xs_id s = 7 /\
    trace t' = [] /\ prefetchQueue t' = [queued_batch] /\
    xactinp t' = xactinp busy_target /\ chans t' = chans busy_target /\ statsif t' = ∅.
Proof.
  exact (doPrefetch_already_running _ busy_target eq_refl eq_refl).
Defined.

Lemma renewPrefetch_single_witness :
  (length (live_prefetch (xactinp (renewPrefetch (target [])).2)) <= 1)%nat /\
  (Some {| xpre_base := {| id := 1; kind := ActPrefetch; stime := 1000; etime := 0 |};
           xpre_targetrunner := Some this_targetrunner |} = None
   <-> live_prefetch (xactinp (target [])) <> []) /\
  (Some {| xpre_base := {| id := 1; kind := ActPrefetch; stime := 1000; etime := 0 |};
           xpre_targetrunner := Some this_targetrunner |} = None ->
   xactinp (renewPrefetch (target [])).2 = xactinp (target [])).
Proof.
  refine (renewPrefetch_single _ (target []) (renewPrefetch (target [])).2 eq_refl _).
  cbn. lia.
Defined.

Lemma addPrefetchList_enqueues_witness :
  exists t' : targetrunner,
    addPrefetchList ["ab"; "abcd"] "cloudb" 30 (Some O) (waited_target [])
    = (Returned None, t') /\
    prefetchQueue t'
    = [ queued_batch;
        {| fwd_objnames := ["ab"; "abcd"]; fwd_bucket := "cloudb";
           fwd_deadline := 1030; fwd_done := Some O |} ] /\
    ((1 <= 200)%nat -> (length (prefetchQueue t') <= 200)%nat) /\
    sends (trace t') = [] /\
    chans t' = chans (waited_target []) /\ xactinp t' = [].
Proof.
  exact (addPrefetchList_enqueues ["ab"; "abcd"] "cloudb" 30 (Some O) (waited_target [])
           eq_refl).
Defined.

End PrefetchQueueSampleRuns.

(** ** A prefetch request and the prefetch xaction together *)

Section PrefetchTogether.
Context `{RegexpEngine} `{Placer} `{Outside}.

(** X18: a prefetch list request with Wait = true and no deadline, for a
    cloud bucket of which this target owns an object, on an idle target:
    the handler makes its done channel, its goroutine queues one batch of
    the owned objects and ends, and the handler waits; the doPrefetch that
    follows runs every owned object through prefetchMissing in the order of
    the request, then sends the one signal on that channel, then
    deregisters its xaction, and leaves the queue empty. *)
Theorem prefetchList_then_doPrefetch path objnames bucket more (t : targetrunner) :
  restAPIItems_checked path = Some (bucket :: more) ->
  LBmap (bmdowner t) !! bucket = None ->
  Forall (hashes bucket (smap t)) objnames ->
  List.filter (owned bucket (smap t) (DaemonID (si t))) objnames <> [] ->
  prefetchQueue t = [] ->
  findU ActPrefetch (xactinp t) = None ->
  coldget_gives_props ->
  exists (t1 t2 : targetrunner) xpre,
    prefetchList path
      {| ListMsg_base := {| Deadline := 0; Wait := true |}; Objnames := objnames |} t
    = (Blocked, t1) /\
    doPrefetch t1 = (Returned tt, t2) /\
    trace t2
    = trace t
      ++ [ EvMake (length (chans t)); EvGo;
           EvEnqueue {| fwd_objnames :=
                          List.filter (owned bucket (smap t) (DaemonID (si t))) objnames;
                        fwd_bucket := bucket; fwd_deadline := 0;
                        fwd_done := Some (length (chans t)) |};
           EvGoExit; EvXactAdd (id (xpre_base xpre)) ActPrefetch ]
      ++ map (EvPrefetchMissing bucket)
           (List.filter (owned bucket (smap t) (DaemonID (si t))) objnames)
      ++ [EvSend (length (chans t)); EvXactDel (id (xpre_base xpre))] /\
    prefetchQueue t2 = [].
Proof.
  intros Hpath Hcloud Hhash Hne Hq Hnone Hprops.
  apply islocal_false in Hcloud.
  set (objs := List.filter (owned bucket (smap t) (DaemonID (si t))) objnames) in *.
  set (ch := length (chans t)).
  set (fwd := {| fwd_objnames := objs; fwd_bucket := bucket; fwd_deadline := 0;
                 fwd_done := Some ch |}).
  set (c0 := {| chan_cap := 1; chan_len := 0; chan_closed := false |}).
  set (t1 := set_trace (fun tr => tr ++ [EvMake ch; EvGo; EvEnqueue fwd; EvGoExit])
               (set_prefetchQueue (fun _ => [fwd])
                  (set_chans (fun cs => cs ++ [c0]) t))).
  assert (Hrun1 : prefetchList path
            {| ListMsg_base := {| Deadline := 0; Wait := true |}; Objnames := objnames |} t
            = (Blocked, t1)).
  { unfold prefetchList, listOperation. rewrite Hpath. cbn [index lookup list_lookup].
    run_simpl. cbn [Objnames ListMsg_base Wait Deadline].
    rewrite listOperation_loop_owned by exact Hhash. cbn [app]. fold objs.
    assert (Hlen0 : negb (length objs =? 0)%nat = true)
      by (destruct objs; [congruence|reflexivity]).
    rewrite Hlen0.
    unfold make_chan, go, addPrefetchList, absolute_deadline, enqueue, wait_done, recv.
    run_simpl. rewrite Hcloud. cbn [Z.eqb negb]. run_simpl. rewrite Hq.
    cbn [length Nat.ltb Nat.leb prefetchChanSize]. run_simpl.
    rewrite lookup_app_r by lia. rewrite Nat.sub_diag.
    cbn [lookup list_lookup chan_len chan_closed].
    subst t1 fwd c0 ch. run_simpl. rewrite <- !app_assoc. reflexivity. }
  assert (Hc : chans t1 !! ch = Some c0).
  { subst t1. run_simpl. subst ch. rewrite lookup_app_r by lia. now rewrite Nat.sub_diag. }
  assert (Hready : queue_ready (prefetchQueue t1) t1).
  { subst t1. run_simpl. split.
    - cbn. apply NoDup_singleton.
    - cbn. intros ch' Hin. apply list_elem_of_singleton in Hin as ->.
      exists c0. split; [exact Hc|]. split; [reflexivity|]. cbn. lia. }
  assert (Hnone1 : findU ActPrefetch (xactinp t1) = None) by exact Hnone.
  destruct (doPrefetch_run Hprops t1 Hnone1 Hready)
    as (t2 & xpre & evs & Hrun2 & _ & Htr & Hdr & Hpq & _).
  exists t1, t2, xpre. split; [exact Hrun1|]. split; [exact Hrun2|].
  split; [|exact Hpq].
  destruct Hdr as (evss & -> & Hall).
  change (prefetchQueue t1) with [fwd] in Hall.
  inversion Hall as [|? es ? evss' Hes Hrest]; subst.
  inversion Hrest; subst.
  destruct Hes as [->|[_ Hdl]]; [|now contradiction Hdl].
  rewrite Htr. subst t1. run_simpl. unfold batch_events. cbn [concat fwd_bucket
    fwd_objnames fwd_done fwd signal]. rewrite app_nil_r. list_eq.
Qed.

End PrefetchTogether.

Section PrefetchTogetherSampleRuns.
Import sample.

Lemma prefetchList_then_doPrefetch_witness :
  exists (t1 t2 : targetrunner) xpre,
    prefetchList "/v1/buckets/cloudb" (list_msg ["ab"; "abc"; "abcd"] true) (target ["ab"])
    = (Blocked, t1) /\
    doPrefetch t1 = (Returned tt, t2) /\
    trace t2
    = [ EvMake 0; EvGo;
        EvEnqueue {| fwd_objnames := ["ab"; "abcd"]; fwd_bucket := "cloudb";
                     fwd_deadline := 0; fwd_done := Some O |};
        EvGoExit; EvXactAdd (id (xpre_base xpre)) ActPrefetch ]
      ++ [EvPrefetchMissing "cloudb" "ab"; EvPrefetchMissing "cloudb" "abcd"]
      ++ [EvSend 0; EvXactDel (id (xpre_base xpre))] /\
    prefetchQueue t2 = [].
Proof.
  refine (prefetchList_then_doPrefetch "/v1/buckets/cloudb" ["ab"; "abc"; "abcd"]
            "cloudb" [] (target ["ab"]) eq_refl eq_refl (sample_hashes _ _) _
            eq_refl eq_refl sample_coldget_gives_props).
  vm_compute. discriminate.
Defined.

End PrefetchTogetherSampleRuns.

(** ** Message parsing *)

Section ParsingProperties.
Context `{Durations}.

Lemma parseRangeListMsgBase_ok jsmap pmb :
  parseRangeListMsgBase jsmap = Returned (pmb, None)
  <-> deadline_field jsmap = Some (Deadline pmb) /\ wait_field jsmap = Some (Wait pmb).
Proof.
  unfold parseRangeListMsgBase, deadline_field, wait_field, defaultDeadline, defaultWait.
  destruct pmb as [d w]. cbn [Deadline Wait].
  destruct (jsmap !! "deadline") as [[| | |s| |]|]; cbn [obind];
    try (split; [discriminate|intros [? _]; discriminate]).
  - destruct (ParseDuration s) as [d'|]; cbn [obind];
      [|split; [discriminate|intros [? _]; discriminate]].
    destruct (jsmap !! "wait") as [[|b| | | |]|]; cbn [Deadline Wait];
      try (split; [discriminate|intros [_ ?]; discriminate]).
    + split; [intros Heq; injection Heq as <- <-; auto|intros [Hd Hw]; congruence].
    + split; [intros Heq; injection Heq as <- <-; auto|intros [Hd Hw]; congruence].
  - destruct (jsmap !! "wait") as [[|b| | | |]|]; cbn [Deadline Wait];
      try (split; [discriminate|intros [_ ?]; discriminate]).
    + split; [intros Heq; injection Heq as <- <-; auto|intros [Hd Hw]; congruence].
    + split; [intros Heq; injection Heq as <- <-; auto|intros [Hd Hw]; congruence].
Qed.

Lemma parseRangeListMsgBase_cases jsmap :
  (exists pmb, parseRangeListMsgBase jsmap = Returned (pmb, None))
  \/ (exists pmb e, parseRangeListMsgBase jsmap = Returned (pmb, Some e))
  \/ parseRangeListMsgBase jsmap = Panicked TypeAssertion.
Proof.
  unfold parseRangeListMsgBase.
  destruct (jsmap !! "deadline") as [[| | |s| |]|]; cbn [obind]; auto.
  - destruct (ParseDuration s); cbn [obind]; [|right; left; eauto].
    destruct (jsmap !! "wait") as [[| | | | |]|]; eauto.
  - destruct (jsmap !! "wait") as [[| | | | |]|]; eauto.
Qed.

Lemma parseListMsg_objnames_ok objnames acc names :
  parseListMsg_objnames objnames acc = (names, None)
  <-> exists rest, objnames = map JString rest /\ names = acc ++ rest.
Proof.
  revert acc. induction objnames as [|v objnames IH]; intros acc.
  - cbn. split.
    + intros Heq. injection Heq as <-. exists []. now rewrite app_nil_r.
    + intros (rest & Hrest & ->). destruct rest; [|discriminate].
      now rewrite app_nil_r.
  - destruct v; cbn [parseListMsg_objnames];
      try (split; [discriminate|intros ([|? ?] & Hrest & _); discriminate]).
    rewrite IH. split.
    + intros (rest & -> & ->). exists (s :: rest). split; [reflexivity|].
      now rewrite <- app_assoc.
    + intros ([|s' rest] & Hrest & ->); [discriminate|].
      injection Hrest as <- ->. exists rest. split; [reflexivity|].
      now rewrite <- app_assoc.
Qed.

Lemma parseListMsg_objnames_stops pre v post acc :
  is_JString v = false ->
  parseListMsg_objnames (map JString pre ++ v :: post) acc
  = (acc ++ pre, Some ErrNonStringObjectName).
Proof.
  intros Hv. revert acc. induction pre as [|s pre IH]; intros acc.
  - cbn [map app]. rewrite app_nil_r. destruct v; try discriminate; reflexivity.
  - cbn [map app parseListMsg_objnames]. rewrite IH. now rewrite <- app_assoc.
Qed.

(** X19: [parseListMsg] returns a message and no error exactly on the maps
    whose "objnames" is an array of strings, whose "deadline" is absent or a
    string that [time.ParseDuration] accepts, and whose "wait" is absent or
    a bool; the message has the names in the order of the array, the
    parsed deadline or the default, the flag or the default.  Other keys
    of the map play no part. *)
Theorem parseListMsg_succeeds_iff jsmap (pm : ListMsg) :
  parseListMsg jsmap = Returned (Some pm, None)
  <-> deadline_field jsmap = Some (Deadline (ListMsg_base pm))
      /\ wait_field jsmap = Some (Wait (ListMsg_base pm))
      /\ jsmap !! "objnames" = Some (JArray (map JString (Objnames pm))).
Proof.
  destruct pm as [pmb names]. cbn [ListMsg_base Objnames].
  rewrite <- Logic.and_assoc, <- parseRangeListMsgBase_ok.
  unfold parseListMsg.
  destruct (parseRangeListMsgBase_cases jsmap)
    as [(pmb' & Hb)|[(pmb' & e & Hb)|Hb]]; rewrite Hb; cbn [obind].
  - destruct (jsmap !! "objnames") as [[| | | |objnames|]|];
      try (split; [discriminate|intros [_ ?]; discriminate]).
    destruct (parseListMsg_objnames objnames []) as [names' err] eqn:Hnames.
    split.
    + intros Heq. injection Heq as <- <- ->.
      apply parseListMsg_objnames_ok in Hnames as (rest & -> & ->).
      split; reflexivity.
    + intros [Hpmb Hobj]. injection Hpmb as <-. injection Hobj as ->.
      assert (Hok : parseListMsg_objnames (map JString names) [] = (names, None))
        by (apply parseListMsg_objnames_ok; exists names; split; reflexivity).
      rewrite Hok in Hnames. injection Hnames as <- <-. reflexivity.
  - split; [discriminate|intros [? _]; discriminate].
  - split; [discriminate|intros [? _]; discriminate].
Qed.

(** X20: [parseRangeMsg] returns a message and no error exactly on the maps
    whose "prefix", "regex" and "range" are all three present and strings,
    with the "deadline" and the "wait" as for the list message; the three
    strings are stored as they are, the range unparsed. *)
Theorem parseRangeMsg_succeeds_iff jsmap (pm : RangeMsg) :
  parseRangeMsg jsmap = Returned (Some pm, None)
  <-> deadline_field jsmap = Some (Deadline (RangeMsg_base pm))
      /\ wait_field jsmap = Some (Wait (RangeMsg_base pm))
      /\ jsmap !! "prefix" = Some (JString (Prefix pm))
      /\ jsmap !! "regex" = Some (JString (Regex pm))
      /\ jsmap !! "range" = Some (JString (Range pm)).
Proof.
  destruct pm as [pmb prefix regex rng]. cbn [RangeMsg_base Prefix Regex Range].
  rewrite <- Logic.and_assoc, <- parseRangeListMsgBase_ok.
  unfold parseRangeMsg.
  destruct (parseRangeListMsgBase_cases jsmap)
    as [(pmb' & Hb)|[(pmb' & e & Hb)|Hb]]; rewrite Hb; cbn [obind];
    [|split; [discriminate|intros [? _]; discriminate]..].
  destruct (jsmap !! "prefix") as [[| | |p| |]|];
    try (split; [discriminate|intros (_ & ? & _); discriminate]).
  destruct (jsmap !! "regex") as [[| | |r| |]|];
    try (split; [discriminate|intros (_ & _ & ? & _); discriminate]).
  destruct (jsmap !! "range") as [[| | |g| |]|];
    try (split; [discriminate|intros (_ & _ & _ & ?); discriminate]).
  split.
  - intros Heq. injection Heq as <- <- <- <-. auto.
  - intros (Hpmb & Hp & Hr & Hg). congruence.
Qed.

(** X21: the one panic of the three parsers: a "deadline" that is present
    and not a string (a number, a bool, null, an array, an object) fails
    the one-result type assertion [v.(string)]; no other map makes
    [parseRangeListMsgBase], [parseListMsg] or [parseRangeMsg] panic. *)
Theorem parsers_panic_iff jsmap p :
  (parseRangeListMsgBase jsmap = Panicked p <-> bad_deadline jsmap p)
  /\ (parseListMsg jsmap = Panicked p <-> bad_deadline jsmap p)
  /\ (parseRangeMsg jsmap = Panicked p <-> bad_deadline jsmap p).
Proof.
  assert (Hbase : parseRangeListMsgBase jsmap = Panicked p <-> bad_deadline jsmap p).
  { unfold bad_deadline, parseRangeListMsgBase.
    destruct (jsmap !! "deadline") as [v|] eqn:Hd.
    - destruct v as [| | |s| |]; cbn [obind];
        try (split; [intros Heq; injection Heq as <-; split; [reflexivity|];
                     eexists; split; [reflexivity|reflexivity]
                    |intros [-> _]; reflexivity]).
      destruct (ParseDuration s); cbn [obind].
      + destruct (jsmap !! "wait") as [[| | | | |]|];
          (split; [discriminate|intros (_ & v & Hv & Hs); injection Hv as <-; discriminate]).
      + split; [discriminate|intros (_ & v & Hv & Hs); injection Hv as <-; discriminate].
    - cbn [obind].
      destruct (jsmap !! "wait") as [[| | | | |]|];
        (split; [discriminate|intros (_ & v & Hv & _); discriminate]). }
  split; [exact Hbase|].
  rewrite <- Hbase. unfold parseListMsg, parseRangeMsg.
  destruct (parseRangeListMsgBase_cases jsmap)
    as [(pmb' & Hb)|[(pmb' & e & Hb)|Hb]]; rewrite Hb; cbn [obind].
  - split.
    + destruct (jsmap !! "objnames") as [[| | | |objnames|]|];
        try (split; discriminate).
      destruct (parseListMsg_objnames objnames []). split; discriminate.
    + destruct (jsmap !! "prefix") as [[| | |a| |]|]; try (split; discriminate).
      destruct (jsmap !! "regex") as [[| | |b| |]|]; try (split; discriminate).
      destruct (jsmap !! "range") as [[| | |c| |]|]; split; discriminate.
  - split; split; discriminate.
  - split; split; intros Heq; injection Heq as <-; reflexivity.
Qed.

(** X22: a "wait" that is present and not a bool is an error, not a panic
    (the two-result type assertion): when the deadline is absent or
    parses, the base comes back with that deadline, the default wait flag
    and the error, and both message parsers return the error with a nil
    message. *)
Theorem wait_not_bool_is_an_error jsmap v d :
  deadline_field jsmap = Some d ->
  jsmap !! "wait" = Some v ->
  is_JBool v = false ->
  parseRangeListMsgBase jsmap
  = Returned ({| Deadline := d; Wait := defaultWait |}, Some (ErrWait v))
  /\ parseListMsg jsmap = Returned (None, Some (ErrWait v))
  /\ parseRangeMsg jsmap = Returned (None, Some (ErrWait v)).
Proof.
  intros Hd Hw Hv.
  assert (Hbase : parseRangeListMsgBase jsmap
                  = Returned ({| Deadline := d; Wait := defaultWait |}, Some (ErrWait v))).
  { unfold parseRangeListMsgBase, deadline_field in *. rewrite Hw.
    destruct (jsmap !! "deadline") as [[| | |s| |]|]; try discriminate.
    - rewrite Hd. cbn [obind Deadline Wait]. destruct v; try discriminate; reflexivity.
    - injection Hd as <-. cbn [obind Deadline Wait].
      destruct v; try discriminate; reflexivity. }
  split; [exact Hbase|]. unfold parseListMsg, parseRangeMsg. rewrite Hbase.
  split; reflexivity.
Qed.

(** X23: an element of "objnames" that is not a string ends the parsing of
    a list message with the error, and the message returned with it holds
    the names that came before that element, and none after. *)
Theorem parseListMsg_non_string_name jsmap pmb pre v post :
  parseRangeListMsgBase jsmap = Returned (pmb, None) ->
  jsmap !! "objnames" = Some (JArray (map JString pre ++ v :: post)) ->
  is_JString v = false ->
  parseListMsg jsmap
  = Returned (Some {| ListMsg_base := pmb; Objnames := pre |},
              Some ErrNonStringObjectName).
Proof.
  intros Hb Hobj Hv. unfold parseListMsg. rewrite Hb. cbn [obind]. rewrite Hobj.
  rewrite (parseListMsg_objnames_stops pre v post [] Hv). reflexivity.
Qed.

End ParsingProperties.

Section ParsingSampleRuns.

Lemma wait_not_bool_is_an_error_witness :
  @parseRangeListMsgBase sample_durations string_wait_request
  = Returned ({| Deadline := 90000000000; Wait := false |},
              Some (ErrWait (JString "true")))
  /\ @parseListMsg sample_durations string_wait_request
     = Returned (None, Some (ErrWait (JString "true")))
  /\ @parseRangeMsg sample_durations string_wait_request
     = Returned (None, Some (ErrWait (JString "true"))).
Proof.
  exact (@wait_not_bool_is_an_error sample_durations string_wait_request
           (JString "true") 90000000000 eq_refl eq_refl eq_refl).
Defined.

Lemma parseListMsg_non_string_name_witness :
  @parseListMsg sample_durations
    (<["objnames" := JArray [JString "a"; JString "b"; JNumber 3; JString "c"]]>
       (<["wait" := JBool true]> ∅))
  = Returned (Some {| ListMsg_base := {| Deadline := 0; Wait := true |};
                      Objnames := ["a"; "b"] |},
              Some ErrNonStringObjectName).
Proof.
  exact (@parseListMsg_non_string_name sample_durations
           (<["objnames" := JArray [JString "a"; JString "b"; JNumber 3; JString "c"]]>
              (<["wait" := JBool true]> ∅))
           {| Deadline := 0; Wait := true |} ["a"; "b"] (JNumber 3) [JString "c"]
           eq_refl eq_refl eq_refl).
Defined.

End ParsingSampleRuns.

(** ** The counters of a prefetch *)

Section PrefetchCounters.
Context `{RegexpEngine} `{Placer} `{Outside}.

Lemma prefetchMissing_counters objname bucket (t : targetrunner) :
  counter "numvchanged" t <= counter "numvchanged" (prefetchMissing objname bucket t).2
  /\ counter "numvchanged" (prefetchMissing objname bucket t).2 - counter "numvchanged" t
     <= counter "numprefetch" (prefetchMissing objname bucket t).2 - counter "numprefetch" t
  /\ counter "numprefetch" (prefetchMissing objname bucket t).2
     <= counter "numprefetch" t + 1.
Proof.
  unfold prefetchMissing, statsif_add, counter. run_simpl.
  repeat (case_match; run_simpl; simplify_eq);
    cbn [snd statsif];
    repeat first [rewrite lookup_insert_eq | rewrite lookup_insert_ne by discriminate];
    cbn [default]; unfold Datatypes.id; lia.
Qed.

(** X24: the counters of a prefetch batch: over the objects of one batch,
    whatever the store and the cloud answer and also when the run ends in a
    panic, numprefetch never goes down and rises by at most one per object
    of the batch, and numvchanged never goes down and rises by no more
    than numprefetch does. *)
Theorem prefetch_objnames_counters bucket objnames (t : targetrunner) :
  counter "numvchanged" t <= counter "numvchanged" (prefetch_objnames bucket objnames t).2
  /\ counter "numvchanged" (prefetch_objnames bucket objnames t).2 - counter "numvchanged" t
     <= counter "numprefetch" (prefetch_objnames bucket objnames t).2
        - counter "numprefetch" t
  /\ counter "numprefetch" (prefetch_objnames bucket objnames t).2
     <= counter "numprefetch" t + Z.of_nat (length objnames).
Proof.
  revert t. induction objnames as [|objname rest IH]; intros t.
  - cbn. lia.
  - cbn [prefetch_objnames]. run_unfold.
    pose proof (prefetchMissing_counters objname bucket t) as Hone.
    destruct (prefetchMissing objname bucket t) as [[[]|p|] t1]; cbn [snd] in *.
    + specialize (IH t1). cbn [length]. lia.
    + cbn [length]. lia.
    + cbn [length]. lia.
Qed.
End PrefetchCounters.
